(** * Object permissions over many-to-many relations

    A shallow embedding of [object_permissions_m2m/registration.py] and
    [object_permissions_m2m/backend.py], and the properties of the
    registry, the grant store, the resolver and the authorization backend
    that are checked against it.

    Conventions of the embedding.
    - The module globals of [registration.py] ([registered],
      [permissions_for_model], [params_for_model], [class_names],
      [_DELAYED]), the fields contributed to model classes, the rows of
      the backing store, the signals sent and the warnings issued are the
      components of one explicit [State]; every function of the source is
      a computation in the monad [M], which threads the state and carries
      Python exceptions.  A raised exception keeps the state reached when
      it was raised.
    - A Python [dict] is an association list with unique keys, and a
      Python [set] a duplicate-free list; their iteration order is the
      list order.  Python 2 leaves that order unspecified, so a property
      that could depend on it is stated for every order.
    - A lookup key such as ['groups__perm_a_m_set__isnull'] is kept as the
      list of its segments, [["groups"; "perm_a_m_set"; "isnull"]].
    - The result of a query is the list of the rows of its base table that
      satisfy it, each row once, in table order; how many times the join
      would repeat a row is not represented.  The rows of a junction table
      are taken to point at stored rows (they are foreign keys), so only the
      base table of a query is enumerated; the tables it joins are reached
      through the junction rows. *)

From Stdlib Require Import String Ascii List ZArith Bool Lia Permutation.
Import ListNotations.
Local Open Scope string_scope.
Local Open Scope list_scope.

Set Implicit Arguments.

(** ** Strings *)

(** [str.lower()] on ASCII letters. *)
Definition lower_ascii (c : ascii) : ascii :=
  let n := nat_of_ascii c in
  if (65 <=? n)%nat && (n <=? 90)%nat then ascii_of_nat (n + 32) else c.

Fixpoint lower (s : string) : string :=
  match s with
  | EmptyString => EmptyString
  | String c s' => String (lower_ascii c) (lower s')
  end.

Definition mem_string (x : string) (l : list string) : bool :=
  existsb (String.eqb x) l.

(** ['user_perm_%s' % _perm], ['group_perm_%s' % _perm] and
    ['perm_%s_%s_set' % (_perm, _model_name)] *)
Definition user_perm_ (_perm : string) : string := ("user_perm_" ++ _perm)%string.
Definition group_perm_ (_perm : string) : string := ("group_perm_" ++ _perm)%string.
Definition perm_set_ (_perm _model_name : string) : string :=
  ("perm_" ++ _perm ++ "_" ++ _model_name ++ "_set")%string.

(** ** Python values and exceptions *)

(** A model class is identified by the module that defines it and by its
    [__name__]. *)
Record Model : Type := mkModel { cls_module : string; cls_name : string }.

Definition Model_eqb (a b : Model) : bool :=
  String.eqb (cls_module a) (cls_module b) && String.eqb (cls_name a) (cls_name b).

Definition mem_model (m : Model) (l : list Model) : bool :=
  existsb (Model_eqb m) l.

(** The values passed as [obj] or [model]: [None], a saved instance of a
    model class, a model class, and values that are neither (an instance of
    another class, and a class that is not a subclass of [models.Model]). *)
Inductive pyval : Type :=
| VNone
| VInstance (cls : Model) (pk : Z)
| VClass (cls : Model)
| VOtherObj
| VOtherClass.

(** [obj.__class__]: the class of a model class is its metaclass, which is
    not a model. *)
Definition class_of (v : pyval) : pyval :=
  match v with
  | VInstance cls _ => VClass cls
  | _ => VOtherClass
  end.

(** [isinstance(obj, models.Model)] *)
Definition is_model_instance (v : pyval) : bool :=
  match v with VInstance _ _ => true | _ => false end.

(** The exceptions the source raises or lets through; the last two are
    raised by the [*_get_objects_*] functions and by the backend's
    [get_group_permissions]. *)
Inductive exn : Type :=
| RegistrationException
| UnknownPermissionException
| AttributeError
| FieldError
| TypeError
| KeyError
| DatabaseError
| NotImplementedError
| NameError.

Definition exn_eqb (a b : exn) : bool :=
  match a, b with
  | RegistrationException, RegistrationException
  | UnknownPermissionException, UnknownPermissionException
  | AttributeError, AttributeError
  | FieldError, FieldError
  | TypeError, TypeError
  | KeyError, KeyError
  | DatabaseError, DatabaseError
  | NotImplementedError, NotImplementedError
  | NameError, NameError => true
  | _, _ => false
  end.

Inductive result (A : Type) : Type :=
| Ok (a : A)
| Raise (e : exn).
Arguments Ok {A} a.
Arguments Raise {A} e.

(** ** The state *)

(** The two principal types of [django.contrib.auth]. *)
Inductive Target : Type := ToUser | ToGroup.

Definition Target_eqb (a b : Target) : bool :=
  match a, b with
  | ToUser, ToUser | ToGroup, ToGroup => true
  | _, _ => false
  end.

(** A field of a model class: either one of the fields the class was
    declared with, or a [ManyToManyField] to [User] or [Group] with its
    [related_name]. *)
Inductive FieldKind : Type :=
| Plain
| ManyToMany (to : Target) (related_name : string).

Record Field : Type := mkField
  { f_model : Model; f_name : string; f_kind : FieldKind }.

(** A permission's metadata, [{'description': ..., 'label': ...}]. *)
Record PermMeta : Type := mkMeta
  { description : option string; label : option string }.

Definition no_meta : PermMeta := mkMeta None None.

(** [params['perms']] once repacked: permission name to metadata. *)
Definition PermDict : Type := list (string * PermMeta).

Definition keys {A B : Type} (d : list (A * B)) : list A := map fst d.

Inductive Principal : Type := PUser (pk : Z) | PGroup (pk : Z).

(** Modelled from the spec: the module [object_permissions_m2m.signals] is
    not among the sources; section 6 has [granted] and [revoked] as the two
    notifications, each carrying the principal, the permission name and the
    object, which are the arguments of [send(sender=..., perm=...,
    object=...)] in [registration.py]. *)
Inductive Signal : Type :=
| granted (sender : Principal) (perm : string) (object : pyval)
| revoked (sender : Principal) (perm : string) (object : pyval).

(** The calls to [warn] in [register] and [_register], and the deprecation
    warning of the three deprecated entry points. *)
Inductive Warning : Type :=
| WSinglePermission
| WNoAppLabel
| WAddingTable (model : Model)
| WDoubleRegister (model : Model)
| WDeprecated (old_name new_name : string).

(** A row of the junction table of one many-to-many field. *)
Record Row : Type := mkRow
  { r_model : Model; r_field : string; r_obj : Z; r_principal : Z }.

Record State : Type := mkState
  { (* module globals of registration.py *)
    registered : list Model;
    permissions_for_model : list (Model * PermDict);
    params_for_model : list (Model * PermDict);
    class_names : list (string * Model);
    _DELAYED : list (PermDict * Model * string);
    post_syncdb_connected : bool;
    (* model classes: the fields they carry, most recent first *)
    fields : list Field;
    (* backing store *)
    schema_unavailable : list Model;
    auth_user : list Z;
    auth_group : list Z;
    auth_user_groups : list (Z * Z);
    tables : list (Model * Z);
    m2m_rows : list Row;
    (* effects observed from outside *)
    signals : list Signal;
    warnings : list Warning }.

(** ** The monad *)

Definition M (A : Type) : Type := State -> result A * State.

Definition ret {A : Type} (a : A) : M A := fun st => (Ok a, st).

Definition bind {A B : Type} (c : M A) (k : A -> M B) : M B :=
  fun st =>
    match c st with
    | (Ok a, st') => k a st'
    | (Raise e, st') => (Raise e, st')
    end.

Definition raise {A : Type} (e : exn) : M A := fun st => (Raise e, st).

(** [try: c  except e: handler] *)
Definition try_except {A : Type} (c : M A) (e : exn) (handler : M A) : M A :=
  fun st =>
    match c st with
    | (Raise e', st') => if exn_eqb e e' then handler st' else (Raise e', st')
    | r => r
    end.

Definition gets {A : Type} (f : State -> A) : M A := fun st => (Ok (f st), st).

Definition modify (f : State -> State) : M unit := fun st => (Ok tt, f st).

(** A computation that only reads the state. *)
Definition query {A : Type} (f : State -> result A) : M A := fun st => (f st, st).

Notation "x <- c ;; k" := (bind c (fun x => k))
  (at level 61, c at next level, right associativity).
Notation "c ;;; k" := (bind c (fun _ => k))
  (at level 61, right associativity).

(** [for x in l: body] *)
Fixpoint for_each {A : Type} (l : list A) (body : A -> M unit) : M unit :=
  match l with
  | [] => ret tt
  | x :: l' => body x ;;; for_each l' body
  end.

(** The same for computations that only read the state. *)
Definition rbind {A B : Type} (r : result A) (k : A -> result B) : result B :=
  match r with
  | Ok a => k a
  | Raise e => Raise e
  end.

Notation "x <-- r ;; k" := (rbind r (fun x => k))
  (at level 61, r at next level, right associativity).

(** ** State updates *)

Definition set_registered (v : list Model) (st : State) : State :=
  mkState v (permissions_for_model st) (params_for_model st) (class_names st)
    (_DELAYED st) (post_syncdb_connected st) (fields st) (schema_unavailable st)
    (auth_user st) (auth_group st) (auth_user_groups st) (tables st)
    (m2m_rows st) (signals st) (warnings st).

Definition set_permissions_for_model (v : list (Model * PermDict)) (st : State) : State :=
  mkState (registered st) v (params_for_model st) (class_names st)
    (_DELAYED st) (post_syncdb_connected st) (fields st) (schema_unavailable st)
    (auth_user st) (auth_group st) (auth_user_groups st) (tables st)
    (m2m_rows st) (signals st) (warnings st).

Definition set_params_for_model (v : list (Model * PermDict)) (st : State) : State :=
  mkState (registered st) (permissions_for_model st) v (class_names st)
    (_DELAYED st) (post_syncdb_connected st) (fields st) (schema_unavailable st)
    (auth_user st) (auth_group st) (auth_user_groups st) (tables st)
    (m2m_rows st) (signals st) (warnings st).

Definition set_class_names (v : list (string * Model)) (st : State) : State :=
  mkState (registered st) (permissions_for_model st) (params_for_model st) v
    (_DELAYED st) (post_syncdb_connected st) (fields st) (schema_unavailable st)
    (auth_user st) (auth_group st) (auth_user_groups st) (tables st)
    (m2m_rows st) (signals st) (warnings st).

Definition set_DELAYED (v : list (PermDict * Model * string)) (st : State) : State :=
  mkState (registered st) (permissions_for_model st) (params_for_model st)
    (class_names st) v (post_syncdb_connected st) (fields st)
    (schema_unavailable st) (auth_user st) (auth_group st) (auth_user_groups st)
    (tables st) (m2m_rows st) (signals st) (warnings st).

Definition set_post_syncdb_connected (v : bool) (st : State) : State :=
  mkState (registered st) (permissions_for_model st) (params_for_model st)
    (class_names st) (_DELAYED st) v (fields st) (schema_unavailable st)
    (auth_user st) (auth_group st) (auth_user_groups st) (tables st)
    (m2m_rows st) (signals st) (warnings st).

Definition set_fields (v : list Field) (st : State) : State :=
  mkState (registered st) (permissions_for_model st) (params_for_model st)
    (class_names st) (_DELAYED st) (post_syncdb_connected st) v
    (schema_unavailable st) (auth_user st) (auth_group st) (auth_user_groups st)
    (tables st) (m2m_rows st) (signals st) (warnings st).

Definition set_m2m_rows (v : list Row) (st : State) : State :=
  mkState (registered st) (permissions_for_model st) (params_for_model st)
    (class_names st) (_DELAYED st) (post_syncdb_connected st) (fields st)
    (schema_unavailable st) (auth_user st) (auth_group st) (auth_user_groups st)
    (tables st) v (signals st) (warnings st).

Definition set_signals (v : list Signal) (st : State) : State :=
  mkState (registered st) (permissions_for_model st) (params_for_model st)
    (class_names st) (_DELAYED st) (post_syncdb_connected st) (fields st)
    (schema_unavailable st) (auth_user st) (auth_group st) (auth_user_groups st)
    (tables st) (m2m_rows st) v (warnings st).

Definition set_warnings (v : list Warning) (st : State) : State :=
  mkState (registered st) (permissions_for_model st) (params_for_model st)
    (class_names st) (_DELAYED st) (post_syncdb_connected st) (fields st)
    (schema_unavailable st) (auth_user st) (auth_group st) (auth_user_groups st)
    (tables st) (m2m_rows st) (signals st) v.

(** [warn(...)] *)
Definition warn (w : Warning) : M unit :=
  modify (fun st => set_warnings (warnings st ++ [w]) st).

(** [signal.send(sender=..., perm=..., object=...)] *)
Definition send (s : Signal) : M unit :=
  modify (fun st => set_signals (signals st ++ [s]) st).

(** ** Dictionaries *)

Section Dict.
Variables (K V : Type) (eqb : K -> K -> bool).

(** [d[k]], [None] standing for [KeyError] *)
Fixpoint dict_get (d : list (K * V)) (k : K) : option V :=
  match d with
  | [] => None
  | (k', v) :: d' => if eqb k k' then Some v else dict_get d' k
  end.

(** [d[k] = v]: an existing key keeps its place *)
Fixpoint dict_set (d : list (K * V)) (k : K) (v : V) : list (K * V) :=
  match d with
  | [] => [(k, v)]
  | (k', v') :: d' =>
      if eqb k k' then (k', v) :: d' else (k', v') :: dict_set d' k v
  end.
End Dict.

(** ** The registry *)

(** Names reserved by Django for Model instances. *)
Definition forbidden : list string :=
  [ "full_clean"; "clean_fields"; "clean"; "validate_unique"; "save"; "pk";
    "delete"; "get_absolute_url" ].

(** The first argument of [register]: a single name (deprecated), a
    sequence of names, or a dictionary whose ['perms'] entry is a sequence of
    names or a dictionary from name to metadata.  The other entries of the
    dictionary (['url'], ...) play no part in what follows and are left
    out. *)
Inductive PermsValue : Type :=
| PermsSeq (l : list string)
| PermsMap (d : PermDict).

Inductive Params : Type :=
| ParamsStr (s : string)
| ParamsSeq (l : list string)
| ParamsDict (perms : PermsValue).

(** [model._meta.get_all_field_names()] *)
Definition get_all_field_names (model : Model) (st : State) : list string :=
  map f_name (filter (fun f => Model_eqb (f_model f) model) (fields st)).

(** Modelled from the spec: the schema-unavailable condition of the backing
    store (sections 4.1 and 4.2: provisioning a junction relation fails with
    a database error while the tables it depends on do not exist yet).  The
    source only shows the [except db.utils.DatabaseError] handlers; here
    contributing a many-to-many field to a model listed in
    [schema_unavailable] raises [DatabaseError], and otherwise adds the field
    to the class. *)
Definition contribute_to_class (model : Model) (name : string) (kind : FieldKind)
  : M unit :=
  fun st =>
    if mem_model model (schema_unavailable st)
    then (Raise DatabaseError, st)
    else (Ok tt, set_fields (mkField model name kind :: fields st) st).

(** [transaction.rollback()] and [transaction.commit()]: [_register] writes
    no row of the store, so neither changes the state. *)
Definition transaction_rollback : M unit := ret tt.
Definition transaction_commit : M unit := ret tt.

(** [try: c  except: handler; raise] *)
Definition except_reraise {A : Type} (c : M A) (handler : M unit) : M A :=
  fun st =>
    match c st with
    | (Raise e, st') => (Raise e, snd (handler st'))
    | r => r
    end.

(** [try: c  finally: f] *)
Definition try_finally {A : Type} (c : M A) (f : M unit) : M A :=
  fun st => let (r, st') := c st in (r, snd (f st')).

(** The body of [for perm in params['perms']] in [_register].  The
    [verbose_name] and [help_text] of the two fields, which only label
    them, are left out. *)
Definition _register_perm (params : PermDict) (model : Model) (perm : string)
  : M unit :=
  let _model_name := lower (cls_name model) in
  let _perm := lower perm in
  let field_names := (user_perm_ _perm, group_perm_ _perm) in
  existing_field_names <- gets (get_all_field_names model) ;;
  if mem_string (fst field_names) existing_field_names
  then raise RegistrationException
  else if mem_string (snd field_names) existing_field_names
  then raise RegistrationException
  else
    contribute_to_class model (fst field_names)
      (ManyToMany ToUser (perm_set_ _perm _model_name)) ;;;
    contribute_to_class model (snd field_names)
      (ManyToMany ToGroup (perm_set_ _perm _model_name)).

Definition _register (params : PermDict) (model : Model) (app_label : string)
  : M unit :=
  try_finally
    (except_reraise
       (is_registered <- gets (fun st => mem_model model (registered st)) ;;
        if is_registered
        then warn (WDoubleRegister model)
        else
          for_each (keys params) (_register_perm params model) ;;;
          modify (fun st => set_registered (registered st ++ [model]) st) ;;;
          modify (fun st =>
            set_permissions_for_model
              (dict_set Model_eqb (permissions_for_model st) model params) st) ;;;
          modify (fun st =>
            set_params_for_model
              (dict_set Model_eqb (params_for_model st) model params) st) ;;;
          modify (fun st =>
            set_class_names
              (dict_set String.eqb (class_names st) (cls_name model) model) st))
       transaction_rollback)
    transaction_commit.

(** The repacking of a sequence of names as a dictionary of dictionaries. *)
Fixpoint repack (perms : list string) (acc : PermDict) : PermDict :=
  match perms with
  | [] => acc
  | perm :: perms' => repack perms' (dict_set String.eqb acc perm no_meta)
  end.

Definition perm_names (perms : PermsValue) : list string :=
  match perms with
  | PermsSeq l => l
  | PermsMap d => keys d
  end.

Definition register (params : Params) (model : Model) (app_label : option string)
  : M unit :=
  (match params with
   | ParamsStr _ => warn WSinglePermission
   | _ => ret tt
   end) ;;;
  app_label <-
    (match app_label with
     | None =>
         warn WNoAppLabel ;;; warn (WAddingTable model) ;;;
         ret "object_permissions_m2m"
     | Some a => ret a
     end) ;;
  perms <-
    (match params with
     | ParamsSeq l => ret (PermsSeq l)
     | ParamsDict perms => ret perms
     | ParamsStr _ => raise TypeError   (* params['perms'] on a string *)
     end) ;;
  (if existsb (fun perm => mem_string perm forbidden) (perm_names perms)
   then raise RegistrationException
   else ret tt) ;;;
  let params' :=
    match perms with
    | PermsSeq l => repack l []
    | PermsMap d => d
    end in
  try_except (_register params' model app_label) DatabaseError
    (modify (fun st =>
       set_DELAYED (_DELAYED st ++ [(params', model, app_label)]) st)).

(** The handler connected to [post_syncdb]. *)
Definition _register_delayed : M unit :=
  try_except
    (delayed <- gets _DELAYED ;;
     for_each delayed
       (fun args => let '(params, model, app_label) := args in
                    _register params model app_label) ;;;
     modify (set_post_syncdb_connected false))
    DatabaseError
    (ret tt).

(** [get_model_perms]: accepts both model classes and model instances. *)
Definition get_model_perms (model : pyval) (st : State) : result PermDict :=
  match model with
  | VInstance cls _ | VClass cls =>
      if mem_model cls (registered st)
      then match dict_get Model_eqb (permissions_for_model st) cls with
           | Some perms => Ok perms
           | None => Raise KeyError
           end
      else Raise RegistrationException
  | VOtherClass => Raise RegistrationException
  | VNone | VOtherObj => Raise TypeError   (* issubclass() of a non-class *)
  end.

(** ** Related managers *)

(** The attribute of an instance named after a many-to-many field is a
    related manager, bound to the instance; anything else found under the
    name is some other value. *)
Record Manager : Type := mkManager
  { mgr_model : Model; mgr_field : string; mgr_obj : Z }.

Inductive attr : Type :=
| AManager (manager : Manager)
| AOther.

Definition lookup_field (st : State) (model : Model) (name : string)
  : option FieldKind :=
  option_map f_kind
    (find (fun f => Model_eqb (f_model f) model && String.eqb (f_name f) name)
          (fields st)).

(** [getattr(obj, name)] for the field names the source asks for.  On a
    class, a many-to-many field is found as its descriptor, not as a
    manager. *)
Definition getattr (obj : pyval) (name : string) (st : State) : result attr :=
  match obj with
  | VInstance cls pk =>
      match lookup_field st cls name with
      | Some (ManyToMany _ _) => Ok (AManager (mkManager cls name pk))
      | Some Plain => Ok AOther
      | None => Raise AttributeError
      end
  | VClass cls =>
      match lookup_field st cls name with
      | Some (ManyToMany _ _) => Ok AOther
      | _ => Raise AttributeError
      end
  | _ => Raise AttributeError
  end.

Definition in_manager (manager : Manager) (pk : Z) (r : Row) : bool :=
  Model_eqb (r_model r) (mgr_model manager)
  && String.eqb (r_field r) (mgr_field manager)
  && Z.eqb (r_obj r) (mgr_obj manager)
  && Z.eqb (r_principal r) pk.

(** [manager.filter(pk=pk).count()]; a value that is not a manager has no
    [filter].  The manager is a query on [User] or [Group] through the
    junction table; a junction row refers to a stored principal, as the
    foreign keys of the table require, so the query is read off the junction
    rows.  The same holds of the other related managers below. *)
Definition filter_pk_count (a : attr) (pk : Z) : M nat :=
  match a with
  | AManager manager =>
      gets (fun st => length (filter (in_manager manager pk) (m2m_rows st)))
  | AOther => raise AttributeError
  end.

(** [manager.add(principal)]: Django inserts the row only when the junction
    table does not hold it yet. *)
Definition manager_add (a : attr) (pk : Z) : M unit :=
  match a with
  | AManager manager =>
      modify (fun st =>
        if existsb (in_manager manager pk) (m2m_rows st) then st
        else set_m2m_rows
               (m2m_rows st ++
                [mkRow (mgr_model manager) (mgr_field manager) (mgr_obj manager) pk])
               st)
  | AOther => raise AttributeError
  end.

(** [manager.remove(principal)] *)
Definition manager_remove (a : attr) (pk : Z) : M unit :=
  match a with
  | AManager manager =>
      modify (fun st =>
        set_m2m_rows
          (filter (fun r => negb (in_manager manager pk r)) (m2m_rows st)) st)
  | AOther => raise AttributeError
  end.

(** ** The grant store *)

Definition grant (user : Z) (perm : string) (obj : pyval) : M unit :=
  let _perm := lower perm in
  let field_name := user_perm_ _perm in
  manager <- try_except (query (getattr obj field_name)) AttributeError
               (raise UnknownPermissionException) ;;
  n <- filter_pk_count manager user ;;
  if (n =? 0)%nat
  then manager_add manager user ;;; send (granted (PUser user) perm obj)
  else ret tt.

Definition grant_group (group : Z) (perm : string) (obj : pyval) : M unit :=
  let _perm := lower perm in
  let field_name := group_perm_ _perm in
  manager <- try_except (query (getattr obj field_name)) AttributeError
               (raise UnknownPermissionException) ;;
  n <- filter_pk_count manager group ;;
  if (n =? 0)%nat
  then manager_add manager group ;;; send (granted (PGroup group) perm obj)
  else ret tt.

Definition revoke (user : Z) (perm : string) (obj : pyval) : M unit :=
  let _perm := lower perm in
  fun st =>
    match getattr obj (user_perm_ _perm) st with
    | Raise AttributeError => (Ok tt, st)   (* fail silently *)
    | Raise e => (Raise e, st)
    | Ok manager =>
        (n <- filter_pk_count manager user ;;
         if (0 <? n)%nat
         then manager_remove manager user ;;; send (revoked (PUser user) perm obj)
         else ret tt) st
    end.

Definition revoke_group (group : Z) (perm : string) (obj : pyval) : M unit :=
  let _perm := lower perm in
  fun st =>
    match getattr obj (group_perm_ _perm) st with
    | Raise AttributeError => (Ok tt, st)   (* fail silently *)
    | Raise e => (Raise e, st)
    | Ok manager =>
        (n <- filter_pk_count manager group ;;
         if (0 <? n)%nat
         then manager_remove manager group ;;; send (revoked (PGroup group) perm obj)
         else ret tt) st
    end.

(** The body of the loop of [revoke_all]. *)
Definition revoke_all_step (user : Z) (obj : pyval) (perm : string) : M unit :=
  let _perm := lower perm in
  manager <- query (getattr obj (user_perm_ _perm)) ;;
  n <- filter_pk_count manager user ;;
  if (0 <? n)%nat
  then manager_remove manager user ;;; send (revoked (PUser user) perm obj)
  else ret tt.

Definition revoke_all (user : Z) (obj : pyval) : M unit :=
  let model := class_of obj in
  perms <- query (get_model_perms model) ;;
  for_each (keys perms) (revoke_all_step user obj).

Definition revoke_all_group (group : Z) (obj : pyval) : M unit :=
  let model := class_of obj in
  perms <- query (get_model_perms model) ;;
  for_each (keys perms) (fun perm =>
    let _perm := lower perm in
    manager <- query (getattr obj (group_perm_ _perm)) ;;
    n <- filter_pk_count manager group ;;
    if (0 <? n)%nat
    then manager_remove manager group ;;; send (revoked (PGroup group) perm obj)
    else ret tt).

(** [all_perms = dict((p, False) for p in get_model_perms(model))] followed
    by [all_perms[perm] = True] for every requested name.  The entries are
    listed in the order of the registry; the order in which Python iterates
    over this fresh dictionary is not fixed by the source, so what is said
    of the order of the loop over it is said for every order of its
    entries. *)
Definition desired (registered_perms : PermDict) (perms : list string)
  : list (string * bool) :=
  fold_left (fun d perm => dict_set String.eqb d perm true) perms
            (map (fun p => (p, false)) (keys registered_perms)).

(** [perms] is the list of requested names; the empty list stands for every
    false value ([None], [[]]). *)
(** The body of [for perm in all_perms] in [set_user_perms], on the entry
    [perm], [all_perms[perm]]. *)
Definition set_user_perms_step (user : Z) (obj : pyval) (entry : string * bool)
  : M unit :=
  let '(perm, wanted) := entry in
  let _perm := lower perm in
  manager <- query (getattr obj (user_perm_ _perm)) ;;
  n <- filter_pk_count manager user ;;
  if negb wanted && (0 <? n)%nat
  then manager_remove manager user ;;; send (revoked (PUser user) perm obj)
  else if wanted && (n =? 0)%nat
  then manager_add manager user ;;; send (granted (PUser user) perm obj)
  else ret tt.

Definition set_user_perms (user : Z) (perms : list string) (obj : pyval)
  : M (list string) :=
  (match perms with
   | _ :: _ =>
       let model := class_of obj in
       registered_perms <- query (get_model_perms model) ;;
       let all_perms := desired registered_perms perms in
       for_each all_perms (set_user_perms_step user obj)
   | [] =>
       (* removing all perms. *)
       revoke_all user obj
   end) ;;;
  ret perms.

Definition set_group_perms (group : Z) (perms : list string) (obj : pyval)
  : M (list string) :=
  (match perms with
   | _ :: _ =>
       let model := class_of obj in
       registered_perms <- query (get_model_perms model) ;;
       let all_perms := desired registered_perms perms in
       for_each all_perms (fun '(perm, wanted) =>
         let _perm := lower perm in
         manager <- query (getattr obj (group_perm_ _perm)) ;;
         n <- filter_pk_count manager group ;;
         if negb wanted && (0 <? n)%nat
         then manager_remove manager group ;;; send (revoked (PGroup group) perm obj)
         else if wanted && (n =? 0)%nat
         then manager_add manager group ;;; send (granted (PGroup group) perm obj)
         else ret tt)
   | [] =>
       (* removing all perms. *)
       revoke_all_group group obj
   end) ;;;
  ret perms.

(** ** Q objects and queries *)

(** The right-hand side of a lookup: an instance (compared through its
    primary key) or a boolean (for [__isnull]). *)
Inductive qvalue : Type :=
| QInst (pk : Z)
| QBool (b : bool).

(** [Q()], [Q(key=value)], [a & b] and [a | b]. *)
Inductive Q : Type :=
| Q_empty
| Q_leaf (key : list string) (value : qvalue)
| Q_and (a b : Q)
| Q_or (a b : Q).

(** An empty [Q()] adds no condition: it is neutral for [&] and for [|],
    and a filter on it keeps every row. *)
Definition q_combine {R : Type} (op : bool -> bool -> bool)
  (f g : option (R -> bool)) : option (R -> bool) :=
  match f, g with
  | None, _ => g
  | _, None => f
  | Some f', Some g' => Some (fun r => op (f' r) (g' r))
  end.

Section Compile.
Variable R : Type.
(** How a key is resolved against the base table of the query; a key that
    cannot be resolved is a [FieldError]. *)
Variable resolve : list string -> qvalue -> result (R -> bool).

Fixpoint compileQ (q : Q) : result (option (R -> bool)) :=
  match q with
  | Q_empty => Ok None
  | Q_leaf key value => f <-- resolve key value ;; Ok (Some f)
  | Q_and a b =>
      fa <-- compileQ a ;; fb <-- compileQ b ;; Ok (q_combine andb fa fb)
  | Q_or a b =>
      fa <-- compileQ a ;; fb <-- compileQ b ;; Ok (q_combine orb fa fb)
  end.
End Compile.

Definition holds {R : Type} (p : option (R -> bool)) (r : R) : bool :=
  match p with
  | None => true
  | Some f => f r
  end.

(** The junction table of field [f] of [model] links [obj] to
    [principal]. *)
Definition has_row (st : State) (model : Model) (f : string) (obj principal : Z)
  : bool :=
  existsb (in_manager (mkManager model f obj) principal) (m2m_rows st).

(** [user.groups]: the groups of a user, from [auth_user_groups]. *)
Definition groups_of (st : State) (user : Z) : list Z :=
  map snd (filter (fun ug => Z.eqb (fst ug) user) (auth_user_groups st)).

(** The objects a principal is linked to through field [f] of [model]. *)
Definition linked_objs (st : State) (model : Model) (f : string) (principal : Z)
  : list Z :=
  map r_obj
    (filter (fun r => Model_eqb (r_model r) model && String.eqb (r_field r) f
                      && Z.eqb (r_principal r) principal)
            (m2m_rows st)).

(** Lookups on a model's own table.  Only the keys the source builds are
    given a meaning:
    - [pk=obj.pk];
    - [<field>=principal] for a many-to-many field;
    - [<field>__user=user] for a many-to-many field to [Group], through the
      group's members.
    Rows of the joined tables are reached through the junction rows. *)
Definition resolve_model (st : State) (model : Model)
  (key : list string) (value : qvalue) : result (Z -> bool) :=
  match key, value with
  | [f], QInst pk =>
      if String.eqb f "pk" then Ok (fun o => Z.eqb o pk)
      else match lookup_field st model f with
           | Some (ManyToMany _ _) => Ok (fun o => has_row st model f o pk)
           | _ => Raise FieldError
           end
  | [f; rel], QInst pk =>
      if String.eqb rel "user" then
        match lookup_field st model f with
        | Some (ManyToMany ToGroup _) =>
            Ok (fun o => existsb (has_row st model f o) (groups_of st pk))
        | _ => Raise FieldError
        end
      else Raise FieldError
  | _, _ => Raise FieldError
  end.

(** [model.objects.filter(q)] *)
Definition filter_objects (st : State) (model : Model) (q : Q) : result (list Z) :=
  p <-- compileQ (resolve_model st model) q ;;
  Ok (filter (holds p)
        (map snd (filter (fun row => Model_eqb (fst row) model) (tables st)))).

(** The reverse accessor [name] on [User] or [Group]: the many-to-many
    field, of whichever model, that was contributed with that
    [related_name]; the most recent one when several were. *)
Definition reverse_lookup (st : State) (to : Target) (name : string)
  : option (Model * string) :=
  option_map (fun f => (f_model f, f_name f))
    (find (fun f => match f_kind f with
                    | ManyToMany to' related_name =>
                        Target_eqb to to' && String.eqb related_name name
                    | Plain => false
                    end)
          (fields st)).

(** Lookups on the [User] table.  Within one [filter] call the join through
    [groups] is shared by every key that starts with it, so the keys are
    evaluated on a user row together with one row of the join: a group of
    the user, or none.  Only the keys the source builds are given a meaning:
    - [pk=user.pk];
    - [<reverse accessor>=obj] and [<reverse accessor>__isnull=False];
    - the same two behind [groups__]. *)
Definition resolve_user (st : State)
  (key : list string) (value : qvalue) : result (Z * option Z -> bool) :=
  match key, value with
  | [k], QInst pk =>
      if String.eqb k "pk" then Ok (fun r => Z.eqb (fst r) pk)
      else match reverse_lookup st ToUser k with
           | Some (model, f) => Ok (fun r => has_row st model f pk (fst r))
           | None => Raise FieldError
           end
  | [k; op], QBool false =>
      if String.eqb op "isnull" then
        match reverse_lookup st ToUser k with
        | Some (model, f) =>
            Ok (fun r => negb (Nat.eqb (length (linked_objs st model f (fst r))) 0))
        | None => Raise FieldError
        end
      else Raise FieldError
  | [g; k], QInst pk =>
      if String.eqb g "groups" then
        match reverse_lookup st ToGroup k with
        | Some (model, f) =>
            Ok (fun r => match snd r with
                         | Some grp => has_row st model f pk grp
                         | None => false
                         end)
        | None => Raise FieldError
        end
      else Raise FieldError
  | [g; k; op], QBool false =>
      if String.eqb g "groups" && String.eqb op "isnull" then
        match reverse_lookup st ToGroup k with
        | Some (model, f) =>
            Ok (fun r => match snd r with
                         | Some grp =>
                             negb (Nat.eqb (length (linked_objs st model f grp)) 0)
                         | None => false
                         end)
        | None => Raise FieldError
        end
      else Raise FieldError
  | _, _ => Raise FieldError
  end.

(** [User.objects.filter(q)] *)
Definition filter_users (st : State) (q : Q) : result (list Z) :=
  p <-- compileQ (resolve_user st) q ;;
  Ok (filter (fun u => existsb (fun g => holds p (u, g))
                               (None :: map Some (groups_of st u)))
             (auth_user st)).

(** [queryset.exists()] *)
Definition exists_ {A : Type} (rows : list A) : bool :=
  match rows with
  | [] => false
  | _ :: _ => true
  end.

(** A Python [set] built from a list, and [a.intersection(b)]. *)
Fixpoint set_of (l : list string) : list string :=
  match l with
  | [] => []
  | x :: l' => if mem_string x l' then set_of l' else x :: set_of l'
  end.

Definition intersection (a b : list string) : list string :=
  filter (fun x => mem_string x b) a.

(** ** The resolver *)

(** [model.__name__] and [model.objects] are only reached with a model
    class: [get_model_perms] has raised for anything else. *)
Definition as_model_class (model : pyval) : result Model :=
  match model with
  | VClass cls => Ok cls
  | _ => Raise AttributeError
  end.

(** [obj.pk] *)
Definition pk_of (obj : pyval) : result Z :=
  match obj with
  | VInstance _ pk => Ok pk
  | _ => Raise AttributeError
  end.

(** The requested names cut down to the registered ones, or every
    registered name when none is requested. *)
Definition effective_perms (perms : list string) (model : pyval) (st : State)
  : result (list string) :=
  match perms with
  | _ :: _ =>
      registered_perms <-- get_model_perms model st ;;
      Ok (intersection (set_of perms) (set_of (keys registered_perms)))
  | [] =>
      registered_perms <-- get_model_perms model st ;;
      Ok (keys registered_perms)
  end.

Definition get_user_perms (user : Z) (obj : pyval) (groups : bool) (st : State)
  : result (list string) :=
  let model := class_of obj in
  perms <-- get_model_perms model st ;;
  fold_left
    (fun acc perm =>
       user_perms <-- acc ;;
       let _perm := lower perm in
       let q := Q_leaf [user_perm_ _perm] (QInst user) in
       let q := if groups
                then Q_or q (Q_leaf [group_perm_ _perm; "user"] (QInst user))
                else q in
       cls <-- as_model_class model ;;
       pk <-- pk_of obj ;;
       by_pk <-- filter_objects st cls (Q_leaf ["pk"] (QInst pk)) ;;
       rows <-- filter_objects st cls q ;;
       if (0 <? length (filter (fun o => existsb (Z.eqb o) by_pk) rows))%nat
       then Ok (user_perms ++ [perm])
       else Ok user_perms)
    (keys perms) (Ok []).

Definition user_has_perm (user : Z) (perm : string) (obj : pyval) (groups : bool)
  (st : State) : result bool :=
  let model := class_of obj in
  match get_model_perms model st with
  | Raise RegistrationException => Ok false
  | Raise e => Raise e
  | Ok perms =>
      if negb (mem_string perm (keys perms))
      then Ok false   (* not a valid permission *)
      else
        cls <-- as_model_class model ;;
        pk <-- pk_of obj ;;
        let _model_name := lower (cls_name cls) in
        let _perm := lower perm in
        let lookup_key := perm_set_ _perm _model_name in
        let q := Q_leaf [lookup_key] (QInst pk) in
        let q := if groups
                 then Q_or q (Q_leaf ["groups"; lookup_key] (QInst pk))
                 else q in
        let q := Q_and q (Q_leaf ["pk"] (QInst user)) in
        rows <-- filter_users st q ;;
        Ok (exists_ rows)
  end.

(** [manager.filter(pk=group.pk).exists()] is read off the junction rows,
    as in [filter_pk_count]: exact for a stored group. *)
Definition group_has_perm (group : Z) (perm : string) (obj : pyval) (st : State)
  : result bool :=
  let model := class_of obj in
  match get_model_perms model st with
  | Raise RegistrationException => Ok false
  | Raise e => Raise e
  | Ok perms =>
      if negb (mem_string perm (keys perms))
      then Ok false   (* not a valid permission *)
      else
        let _perm := lower perm in
        manager <-- getattr obj (group_perm_ _perm) st ;;
        match manager with
        | AManager manager =>
            Ok (exists_ (filter (in_manager manager group) (m2m_rows st)))
        | AOther => Raise AttributeError
        end
  end.

Definition user_has_any_perms (user : Z) (obj : pyval) (perms : list string)
  (groups : bool) (st : State) : result bool :=
  let instance := is_model_instance obj in
  let model := if instance then class_of obj else obj in
  perms <-- effective_perms perms model st ;;
  cls <-- as_model_class model ;;
  let _model_name := lower (cls_name cls) in
  q <-- fold_left
          (fun acc perm =>
             q <-- acc ;;
             let _perm := lower perm in
             if instance then
               pk <-- pk_of obj ;;
               let lookup_key := perm_set_ _perm _model_name in
               let q := Q_or q (Q_leaf [lookup_key] (QInst pk)) in
               Ok (if groups
                   then Q_or q (Q_leaf ["groups"; lookup_key] (QInst pk))
                   else q)
             else
               let lookup_key := [perm_set_ _perm _model_name; "isnull"] in
               let q := Q_or q (Q_leaf lookup_key (QBool false)) in
               Ok (if groups
                   then Q_or q (Q_leaf ("groups" :: lookup_key) (QBool false))
                   else q))
          perms (Ok Q_empty) ;;
  let q := Q_and q (Q_leaf ["pk"] (QInst user)) in
  rows <-- filter_users st q ;;
  Ok (exists_ rows).

Definition user_has_all_perms (user : Z) (obj : pyval) (perms : list string)
  (groups : bool) (st : State) : result bool :=
  let instance := is_model_instance obj in
  let model := if instance then class_of obj else obj in
  perms <-- effective_perms perms model st ;;
  (* have to make sure at least 1 instance of model exists such that all of
     the perms specified are assigned to this user *)
  q <-- (if instance
         then pk <-- pk_of obj ;; Ok (Q_and Q_empty (Q_leaf ["pk"] (QInst pk)))
         else Ok Q_empty) ;;
  let q :=
    fold_left
      (fun q perm =>
         let _perm := lower perm in
         let lookup_keys := ([user_perm_ _perm], [group_perm_ _perm; "user"]) in
         let _q := Q_leaf (fst lookup_keys) (QInst user) in
         let _q := if groups
                   then Q_or _q (Q_leaf (snd lookup_keys) (QInst user))
                   else _q in
         Q_and q _q)
      perms q in
  cls <-- as_model_class model ;;
  rows <-- filter_objects st cls q ;;
  Ok (exists_ rows).

(** [getattr(principal, k).values_list('pk', flat=True)] for a reverse
    accessor [k] of [User] or [Group]. *)
Definition related_pks (st : State) (to : Target) (k : string) (principal : Z)
  : result (list Z) :=
  match reverse_lookup st to k with
  | Some (model, f) => Ok (linked_objs st model f principal)
  | None => Raise AttributeError
  end.

(** [for g in u.groups]: [u.groups] is a related manager, and a manager is
    not iterable (its rows are [u.groups.all()]); the loop raises
    [TypeError] before its first turn. *)
Definition iter_manager (rows : list Z) : result (list Z) := Raise TypeError.

Definition union_pks (a b : list Z) : list Z :=
  a ++ filter (fun x => negb (existsb (Z.eqb x) a)) b.

Definition inter_pks (a b : list Z) : list Z :=
  filter (fun x => existsb (Z.eqb x) b) a.

(** The body of [for k in perm_keys] in [get_users_all]: the objects user
    [u] is linked to under [k], with those of the user's groups. *)
Definition instances_for (st : State) (groups : bool) (u : Z) (k : string)
  : result (list Z) :=
  _inst <-- related_pks st ToUser k u ;;
  if groups then
    gs <-- iter_manager (groups_of st u) ;;
    fold_left
      (fun acc g =>
         _inst <-- acc ;;
         more <-- related_pks st ToGroup k g ;;
         Ok (union_pks _inst more))
      gs (Ok _inst)
  else Ok _inst.

(** [for x in l: ...] collecting one result per turn, stopping at the first
    exception. *)
Fixpoint collect {A B : Type} (f : A -> result B) (l : list A) : result (list B) :=
  match l with
  | [] => Ok []
  | x :: l' => y <-- f x ;; ys <-- collect f l' ;; Ok (y :: ys)
  end.

(** [for x in l: if good(x): kept.append(x)] *)
Fixpoint keep_if {A : Type} (good : A -> result bool) (l : list A)
  : result (list A) :=
  match l with
  | [] => Ok []
  | x :: l' =>
      b <-- good x ;; kept <-- keep_if good l' ;;
      Ok (if b then x :: kept else kept)
  end.

Definition get_users_all (obj : pyval) (perms : list string) (groups : bool)
  (st : State) : result (list Z) :=
  let instance := is_model_instance obj in
  let model := if instance then class_of obj else obj in
  perms <-- effective_perms perms model st ;;
  cls <-- as_model_class model ;;
  let _model_name := lower (cls_name cls) in
  (* cache perm lookup keys *)
  let perm_keys := map (fun perm => perm_set_ (lower perm) _model_name) perms in
  q <-- fold_left
          (fun acc perm =>
             q <-- acc ;;
             let _perm := lower perm in
             let lookup_keys :=
               ([perm_set_ _perm _model_name],
                ["groups"; perm_set_ _perm _model_name]) in
             _q <-- (if instance then
                       pk <-- pk_of obj ;;
                       let _q := Q_leaf (fst lookup_keys) (QInst pk) in
                       Ok (if groups
                           then Q_or _q (Q_leaf (snd lookup_keys) (QInst pk))
                           else _q)
                     else
                       let _q :=
                         Q_leaf (fst lookup_keys ++ ["isnull"]) (QBool false) in
                       Ok (if groups
                           then Q_or _q (Q_leaf (snd lookup_keys ++ ["isnull"])
                                                (QBool false))
                           else _q)) ;;
             Ok (Q_and q _q))
          perms (Ok Q_empty) ;;
  users <-- filter_users st q ;;
  if instance then Ok users
  else
    (* since we are checking for users that have all perms on at least 1
       instance of 'model', we need to filter out the users that have a
       matching model instance in every perm set *)
    keep_if
      (fun u =>
         instances <-- collect (instances_for st groups u) perm_keys ;;
         match instances with
         | first :: others =>
             let inter := fold_left inter_pks others first in
             Ok (0 <? length inter)%nat
         | [] => Ok false
         end)
      users.

(** ** The authorization backend *)

(** The [user_obj] handed to the backend: a stored user, or Django's
    [AnonymousUser]. *)
Inductive UserObj : Type :=
| AuthUser (pk : Z)
| AnonymousUser.

(** [self.anonymous]: the user that stands for anonymous visitors when
    [settings.ANONYMOUS_USER_ID] is set. *)
Record ObjectPermBackend : Type := mkBackend { anonymous : option Z }.

Definition has_perm (self : ObjectPermBackend) (user_obj : UserObj)
  (perm : string) (obj : pyval) (st : State) : result bool :=
  let user :=
    match user_obj with
    | AuthUser pk => Some pk
    | AnonymousUser => anonymous self
    end in
  match user with
  | None => Ok false
  | Some user_obj =>
      match obj with
      | VNone => Ok false
      | _ => user_has_perm user_obj perm obj true st
      end
  end.

Definition get_all_permissions (self : ObjectPermBackend) (user_obj : UserObj)
  (obj : pyval) (st : State) : result (list string) :=
  let user :=
    match user_obj with
    | AuthUser pk => Some pk
    | AnonymousUser => anonymous self
    end in
  match user with
  | None => Ok []
  | Some user_obj =>
      if negb (is_model_instance obj) then Ok []
      else
        let model := class_of obj in
        perms <-- get_model_perms model st ;;
        fold_left
          (fun acc perm =>
             user_perms <-- acc ;;
             let q := Q_or (Q_leaf [("user_perm_" ++ perm)%string] (QInst user_obj))
                           (Q_leaf [("group_perm_" ++ perm)%string; "user"]
                                   (QInst user_obj)) in
             cls <-- as_model_class model ;;
             rows <-- filter_objects st cls q ;;
             if exists_ rows then Ok (user_perms ++ [perm]) else Ok user_perms)
          (keys perms) (Ok [])
  end.

(** ** Sample data

    A restaurant with the permissions of the docstring of [register], and
    the test model of [registration.py], whose permission names are in mixed
    case. *)

Definition initial : State :=
  mkState [] [] [] [] [] true [] [] [] [] [] [] [] [] [].

Definition Restaurant : Model := mkModel "app.models" "Restaurant".
Definition TestModel : Model :=
  mkModel "object_permissions_m2m.registration" "TestModel".
Definition Unregistered : Model := mkModel "app.models" "Unregistered".

(** Two users, the first a member of the only group; two restaurants. *)
Definition populate (st : State) : State :=
  mkState (registered st) (permissions_for_model st) (params_for_model st)
    (class_names st) (_DELAYED st) (post_syncdb_connected st) (fields st)
    (schema_unavailable st) [1; 2]%Z [10]%Z [(1, 10)]%Z
    [(Restaurant, 100); (Restaurant, 101); (TestModel, 1)]%Z
    (m2m_rows st) (signals st) (warnings st).

Definition restaurant_state : State :=
  populate (snd (register (ParamsSeq ["eat"; "order"; "pay"]) Restaurant
                          (Some "app") initial)).

Definition test_model_state : State :=
  populate (snd (register (ParamsDict (PermsMap
                   [ ("Perm1", mkMeta (Some "The first permission") (Some "Perm One"));
                     ("Perm2", mkMeta (Some "The second permission") None);
                     ("Perm3", mkMeta None (Some "Perm Three"));
                     ("Perm4", no_meta) ]))
                   TestModel (Some "object_permissions_m2m") initial)).

Definition O1 : pyval := VInstance Restaurant 100.
Definition O2 : pyval := VInstance Restaurant 101.

(** ** Specification predicates *)

(** The unique constraint of a junction table: no row twice. *)
Definition unique_rows (st : State) : Prop := NoDup (m2m_rows st).

(** How many rows of the junction table of field [f] of [cls] link [obj]
    to [principal]. *)
Definition edges (st : State) (cls : Model) (f : string) (obj principal : Z) : nat :=
  length (filter (in_manager (mkManager cls f obj) principal) (m2m_rows st)).

(** User [user] holds the user edge for [perm] on object [obj] of [cls];
    group [group] holds the group edge; [user] is a member of [group]. *)
Definition user_edge (st : State) (cls : Model) (perm : string) (obj user : Z)
  : Prop :=
  In (mkRow cls (user_perm_ (lower perm)) obj user) (m2m_rows st).

Definition group_edge (st : State) (cls : Model) (perm : string) (obj group : Z)
  : Prop :=
  In (mkRow cls (group_perm_ (lower perm)) obj group) (m2m_rows st).

Definition is_member (st : State) (user group : Z) : Prop :=
  In (user, group) (auth_user_groups st).

(** The junction relations of [perm] are in place on [cls], under the names
    and reverse accessors [_register] gives them. *)
Definition provisioned (st : State) (cls : Model) (perm : string) : Prop :=
  let rn := perm_set_ (lower perm) (lower (cls_name cls)) in
  lookup_field st cls (user_perm_ (lower perm)) = Some (ManyToMany ToUser rn)
  /\ lookup_field st cls (group_perm_ (lower perm)) = Some (ManyToMany ToGroup rn)
  /\ reverse_lookup st ToUser rn = Some (cls, user_perm_ (lower perm))
  /\ reverse_lookup st ToGroup rn = Some (cls, group_perm_ (lower perm)).

(** [cls] is registered with the permission dictionary [perms], each of
    whose names is provisioned. *)
Definition registered_with (st : State) (cls : Model) (perms : PermDict) : Prop :=
  In cls (registered st)
  /\ dict_get Model_eqb (permissions_for_model st) cls = Some perms
  /\ forall perm, In perm (keys perms) -> provisioned st cls perm.

(** A computation that raises [e] from no state. *)
Definition never_raises {A : Type} (e : exn) (c : M A) : Prop :=
  forall st, fst (c st) <> Raise e.

Definition cannot_raise {A : Type} (e : exn) (f : State -> result A) : Prop :=
  forall st, f st <> Raise e.

(** User 1 holds ["eat"] on the first restaurant and ["order"] on the
    second; the group holds ["pay"] on the first. *)
Definition granted_state : State :=
  snd ((grant 1 "eat" O1 ;;; grant 1 "order" O2 ;;; grant_group 10 "pay" O1)
         restaurant_state).

(** User [user] holds [perm] on object [obj] of [cls]: directly or, when
    [groups] is set, through a group. *)
Definition holds_perm (st : State) (cls : Model) (perm : string) (user : Z)
  (groups : bool) (obj : Z) : Prop :=
  user_edge st cls perm obj user
  \/ (groups = true
      /\ exists group, is_member st user group /\ group_edge st cls perm obj group).

(** What one conjunct of [user_has_all_perms] tests on an object. *)
Definition holds_perm_b (st : State) (cls : Model) (perm : string) (user : Z)
  (groups : bool) (obj : Z) : bool :=
  if groups
  then has_row st cls (user_perm_ (lower perm)) obj user
       || existsb (has_row st cls (group_perm_ (lower perm)) obj) (groups_of st user)
  else has_row st cls (user_perm_ (lower perm)) obj user.

(** The edge [set_user_perms] and [revoke_all] act on for one permission
    name, and the signal one turn of the loop of [set_user_perms] sends from
    state [st] for the entry [perm], [wanted]: [granted] for a wanted edge
    that is absent, [revoked] for an unwanted edge that is present, none
    when they agree. *)
Definition user_row (cls : Model) (pk user : Z) (perm : string) : Row :=
  mkRow cls (user_perm_ (lower perm)) pk user.

Definition reconcile_signal (st : State) (cls : Model) (pk user : Z)
  (entry : string * bool) : list Signal :=
  let '(perm, wanted) := entry in
  let held := has_row st cls (user_perm_ (lower perm)) pk user in
  if wanted
  then if held then [] else [granted (PUser user) perm (VInstance cls pk)]
  else if held then [revoked (PUser user) perm (VInstance cls pk)] else [].

(** What a registration attempt may change: it leaves the queue, the hook,
    the store and the signals alone, drops no registered model, and touches
    neither the permissions nor the fields of a model that is already
    registered. *)
Definition extends (st st' : State) : Prop :=
  _DELAYED st' = _DELAYED st
  /\ post_syncdb_connected st' = post_syncdb_connected st
  /\ schema_unavailable st' = schema_unavailable st
  /\ m2m_rows st' = m2m_rows st
  /\ signals st' = signals st
  /\ forall m, In m (registered st) ->
       In m (registered st')
       /\ dict_get Model_eqb (permissions_for_model st') m
          = dict_get Model_eqb (permissions_for_model st) m
       /\ get_all_field_names m st' = get_all_field_names m st.

(** The model of a queued registration. *)
Definition delayed_model (entry : PermDict * Model * string) : Model :=
  snd (fst entry).

Definition set_schema_unavailable (v : list Model) (st : State) : State :=
  mkState (registered st) (permissions_for_model st) (params_for_model st)
    (class_names st) (_DELAYED st) (post_syncdb_connected st) (fields st) v
    (auth_user st) (auth_group st) (auth_user_groups st) (tables st)
    (m2m_rows st) (signals st) (warnings st).

(** The restaurant registered while its tables do not exist yet, and the
    same state once they have been created. *)
Definition before_syncdb : State :=
  snd (register (ParamsSeq ["eat"; "order"; "pay"]) Restaurant (Some "app")
         (set_schema_unavailable [Restaurant] initial)).

Definition after_syncdb : State := set_schema_unavailable [] before_syncdb.

(** [params['perms']] as [register] hands it to [_register]: a sequence of
    names repacked as a dictionary, a dictionary as it is. *)
Definition repacked (perms : PermsValue) : PermDict :=
  match perms with
  | PermsSeq l => repack l []
  | PermsMap d => d
  end.

(** None of the names is reserved. *)
Definition no_reserved_name (perms : PermsValue) : Prop :=
  existsb (fun perm => mem_string perm forbidden) (perm_names perms) = false.

(** Two states with the same registry and the same model classes. *)
Definition same_registry (st st' : State) : Prop :=
  registered st' = registered st
  /\ permissions_for_model st' = permissions_for_model st
  /\ fields st' = fields st.

(** A computation that leaves the registry and the model classes alone. *)
Definition keeps_registry {A : Type} (c : M A) : Prop :=
  forall st, same_registry st (snd (c st)).

(** A computation that keeps a property of the state, whatever its
    outcome. *)
Definition preserves {A : Type} (P : State -> Prop) (c : M A) : Prop :=
  forall st, P st -> P (snd (c st)).

(** The registry is in order: every registered model has its permissions,
    their names are pairwise distinct once lower-cased, and each has its two
    junction relations under the lower-cased name. *)
Definition registry_ok (st : State) : Prop :=
  forall cls, In cls (registered st) ->
    exists perms,
      dict_get Model_eqb (permissions_for_model st) cls = Some perms
      /\ NoDup (map lower (keys perms))
      /\ forall perm, In perm (keys perms) ->
           lookup_field st cls (user_perm_ (lower perm))
           = Some (ManyToMany ToUser (perm_set_ (lower perm) (lower (cls_name cls))))
           /\ lookup_field st cls (group_perm_ (lower perm))
              = Some (ManyToMany ToGroup
                        (perm_set_ (lower perm) (lower (cls_name cls)))).

(** The states a program can be in: it starts with no model registered
    (whatever fields its model classes declare and whatever the store
    holds), calls the functions of the module in any order and with any
    arguments, and the store may change under it (rows and tables created or
    deleted) as long as the registry and the model classes are left alone. *)
Inductive reachable : State -> Prop :=
| reach_start (st : State) : registered st = [] -> reachable st
| reach_register (st : State) (params : Params) (model : Model)
    (app_label : option string) :
    reachable st -> reachable (snd (register params model app_label st))
| reach_register_delayed (st : State) :
    reachable st -> reachable (snd (_register_delayed st))
| reach_grant (st : State) (user : Z) (perm : string) (obj : pyval) :
    reachable st -> reachable (snd (grant user perm obj st))
| reach_grant_group (st : State) (group : Z) (perm : string) (obj : pyval) :
    reachable st -> reachable (snd (grant_group group perm obj st))
| reach_revoke (st : State) (user : Z) (perm : string) (obj : pyval) :
    reachable st -> reachable (snd (revoke user perm obj st))
| reach_revoke_group (st : State) (group : Z) (perm : string) (obj : pyval) :
    reachable st -> reachable (snd (revoke_group group perm obj st))
| reach_revoke_all (st : State) (user : Z) (obj : pyval) :
    reachable st -> reachable (snd (revoke_all user obj st))
| reach_revoke_all_group (st : State) (group : Z) (obj : pyval) :
    reachable st -> reachable (snd (revoke_all_group group obj st))
| reach_set_user_perms (st : State) (user : Z) (perms : list string) (obj : pyval) :
    reachable st -> reachable (snd (set_user_perms user perms obj st))
| reach_set_group_perms (st : State) (group : Z) (perms : list string)
    (obj : pyval) :
    reachable st -> reachable (snd (set_group_perms group perms obj st))
| reach_store (st st' : State) :
    reachable st -> same_registry st st' -> reachable st'.

(** A compiled query that puts no condition is satisfied by no row when it
    stands for an alternative. *)
Definition satisfies {R : Type} (p : option (R -> bool)) (r : R) : bool :=
  match p with
  | None => false
  | Some f => f r
  end.

(** ** Group checks and the listings *)

(** Lookups on the [Group] table.  Only the keys the source builds are given
    a meaning:
    - [pk=group.pk];
    - [<reverse accessor>=obj] and [<reverse accessor>__isnull=False]. *)
Definition resolve_group (st : State)
  (key : list string) (value : qvalue) : result (Z -> bool) :=
  match key, value with
  | [k], QInst pk =>
      if String.eqb k "pk" then Ok (fun g => Z.eqb g pk)
      else match reverse_lookup st ToGroup k with
           | Some (model, f) => Ok (fun g => has_row st model f pk g)
           | None => Raise FieldError
           end
  | [k; op], QBool false =>
      if String.eqb op "isnull" then
        match reverse_lookup st ToGroup k with
        | Some (model, f) =>
            Ok (fun g => negb (Nat.eqb (length (linked_objs st model f g)) 0))
        | None => Raise FieldError
        end
      else Raise FieldError
  | _, _ => Raise FieldError
  end.

(** [Group.objects.filter(q)] *)
Definition filter_groups (st : State) (q : Q) : result (list Z) :=
  p <-- compileQ (resolve_group st) q ;;
  Ok (filter (holds p) (auth_group st)).

(** The count is read off the junction rows, as in [filter_pk_count]:
    exact for a stored group. *)
Definition get_group_perms (group : Z) (obj : pyval) (groups : bool) (st : State)
  : result (list string) :=
  let model := class_of obj in
  perms <-- get_model_perms model st ;;
  fold_left
    (fun acc perm =>
       group_perms <-- acc ;;
       let _perm := lower perm in
       manager <-- getattr obj (group_perm_ _perm) st ;;
       match manager with
       | AManager manager =>
           if (0 <? length (filter (in_manager manager group) (m2m_rows st)))%nat
           then Ok (group_perms ++ [perm])
           else Ok group_perms
       | AOther => Raise AttributeError
       end)
    (keys perms) (Ok []).

Definition group_has_any_perms (group : Z) (obj : pyval) (perms : list string)
  (st : State) : result bool :=
  let instance := is_model_instance obj in
  let model := if instance then class_of obj else obj in
  perms <-- effective_perms perms model st ;;
  cls <-- as_model_class model ;;
  let _model_name := lower (cls_name cls) in
  q <-- fold_left
          (fun acc perm =>
             q <-- acc ;;
             let _perm := lower perm in
             if instance then
               pk <-- pk_of obj ;;
               let lookup_key := perm_set_ _perm _model_name in
               Ok (Q_or q (Q_leaf [lookup_key] (QInst pk)))
             else
               let lookup_key := [perm_set_ _perm _model_name; "isnull"] in
               Ok (Q_or q (Q_leaf lookup_key (QBool false))))
          perms (Ok Q_empty) ;;
  let q := Q_and q (Q_leaf ["pk"] (QInst group)) in
  rows <-- filter_groups st q ;;
  Ok (exists_ rows).

Definition group_has_all_perms (group : Z) (obj : pyval) (perms : list string)
  (st : State) : result bool :=
  let instance := is_model_instance obj in
  let model := if instance then class_of obj else obj in
  perms <-- effective_perms perms model st ;;
  (* have to make sure at least 1 instance of model exists such that all of
     the perms specified are assigned to this user *)
  q <-- (if instance
         then pk <-- pk_of obj ;; Ok (Q_and Q_empty (Q_leaf ["pk"] (QInst pk)))
         else Ok Q_empty) ;;
  let q :=
    fold_left
      (fun q perm =>
         let _perm := lower perm in
         let lookup_key := group_perm_ _perm in
         Q_and q (Q_leaf [lookup_key] (QInst group)))
      perms q in
  cls <-- as_model_class model ;;
  rows <-- filter_objects st cls q ;;
  Ok (exists_ rows).

(** [get_users_any] takes the class of [obj] whatever [obj] is; the query
    ends in [.distinct()]. *)
Definition get_users_any (obj : pyval) (perms : list string) (groups : bool)
  (st : State) : result (list Z) :=
  let model := class_of obj in
  perms <-- effective_perms perms model st ;;
  cls <-- as_model_class model ;;
  let _model_name := lower (cls_name cls) in
  q <-- fold_left
          (fun acc perm =>
             q <-- acc ;;
             let _perm := lower perm in
             let lookup_key := perm_set_ _perm _model_name in
             pk <-- pk_of obj ;;
             let q := Q_or q (Q_leaf [lookup_key] (QInst pk)) in
             Ok (if groups
                 then Q_or q (Q_leaf ["groups"; lookup_key] (QInst pk))
                 else q))
          perms (Ok Q_empty) ;;
  filter_users st q.

Definition get_users (obj : pyval) (groups : bool) (st : State)
  : result (list Z) :=
  get_users_any obj [] groups st.

Definition get_groups_any (obj : pyval) (perms : list string) (st : State)
  : result (list Z) :=
  let instance := is_model_instance obj in
  let model := if instance then class_of obj else obj in
  perms <-- effective_perms perms model st ;;
  cls <-- as_model_class model ;;
  let _model_name := lower (cls_name cls) in
  q <-- fold_left
          (fun acc perm =>
             q <-- acc ;;
             let _perm := lower perm in
             if instance then
               pk <-- pk_of obj ;;
               let lookup_key := perm_set_ _perm _model_name in
               Ok (Q_or q (Q_leaf [lookup_key] (QInst pk)))
             else
               let lookup_key := [perm_set_ _perm _model_name; "isnull"] in
               Ok (Q_or q (Q_leaf lookup_key (QBool false))))
          perms (Ok Q_empty) ;;
  filter_groups st q.

Definition get_groups_all (obj : pyval) (perms : list string) (st : State)
  : result (list Z) :=
  let instance := is_model_instance obj in
  let model := if instance then class_of obj else obj in
  perms <-- effective_perms perms model st ;;
  cls <-- as_model_class model ;;
  let _model_name := lower (cls_name cls) in
  (* cache perm lookup keys *)
  let perm_keys := map (fun perm => perm_set_ (lower perm) _model_name) perms in
  q <-- fold_left
          (fun acc perm =>
             q <-- acc ;;
             let _perm := lower perm in
             let lookup_key := perm_set_ _perm _model_name in
             if instance then
               pk <-- pk_of obj ;;
               Ok (Q_and q (Q_leaf [lookup_key] (QInst pk)))
             else
               Ok (Q_and q (Q_leaf [lookup_key; "isnull"] (QBool false))))
          perms (Ok Q_empty) ;;
  groups <-- filter_groups st q ;;
  if instance then Ok groups
  else
    (* since we are checking for users that have all perms on at least 1
       instance of 'model', we need to filter out the users that have a
       matching model instance in every perm set *)
    keep_if
      (fun g =>
         instances <-- collect (fun k => related_pks st ToGroup k g) perm_keys ;;
         match instances with
         | first :: others =>
             let inter := fold_left inter_pks others first in
             Ok (0 <? length inter)%nat
         | [] => Ok false
         end)
      groups.

Definition get_groups (obj : pyval) (st : State) : result (list Z) :=
  get_groups_any obj [] st.

(** What the group checks test on an object: the group holds the group edge
    of every, or of one, of the permissions. *)
Definition group_holds_all (st : State) (cls : Model) (eff : list string)
  (group obj : Z) : Prop :=
  forall p, In p eff -> group_edge st cls p obj group.

Definition group_holds_any (st : State) (cls : Model) (eff : list string)
  (group obj : Z) : Prop :=
  exists p, In p eff /\ group_edge st cls p obj group.

(** The argument [obj] of the checks and listings that take an instance or
    a model class: the instance [pk] of [cls], or [cls] itself; and what a
    property of objects means there: it holds of the instance, or of some
    object. *)
Definition obj_at (cls : Model) (level : option Z) : pyval :=
  match level with
  | Some pk => VInstance cls pk
  | None => VClass cls
  end.

Definition at_level (level : option Z) (P : Z -> Prop) : Prop :=
  match level with
  | Some pk => P pk
  | None => exists o, P o
  end.

(** The body of [for perm in all_perms] in [set_group_perms], on the entry
    [perm], [all_perms[perm]], and the edge it acts on. *)
Definition set_group_perms_step (group : Z) (obj : pyval) (entry : string * bool)
  : M unit :=
  let '(perm, wanted) := entry in
  let _perm := lower perm in
  manager <- query (getattr obj (group_perm_ _perm)) ;;
  n <- filter_pk_count manager group ;;
  if negb wanted && (0 <? n)%nat
  then manager_remove manager group ;;; send (revoked (PGroup group) perm obj)
  else if wanted && (n =? 0)%nat
  then manager_add manager group ;;; send (granted (PGroup group) perm obj)
  else ret tt.

Definition group_row (cls : Model) (pk group : Z) (perm : string) : Row :=
  mkRow cls (group_perm_ (lower perm)) pk group.

(** [get_class]: the class registered under a class name. *)
Definition get_class (class_name : string) (st : State) : result Model :=
  match dict_get String.eqb (class_names st) class_name with
  | Some model => Ok model
  | None => Raise KeyError
  end.

(** The class-level listings.  [klass.objects] is only reached with a model
    class; [klass.__name__] is read before anything else in
    [get_group_perms_any], and the name of a class that is not a model is
    never used, since [get_model_perms] raises for it. *)
Definition get_user_perms_any (user : Z) (klass : pyval) (groups : bool)
  (st : State) : result (list string) :=
  perms <-- get_model_perms klass st ;;
  fold_left
    (fun acc perm =>
       user_perms <-- acc ;;
       let _perm := lower perm in
       let q := Q_leaf [user_perm_ _perm] (QInst user) in
       let q := if groups
                then Q_or q (Q_leaf [group_perm_ _perm; "user"] (QInst user))
                else q in
       cls <-- as_model_class klass ;;
       rows <-- filter_objects st cls q ;;
       if (0 <? length rows)%nat
       then Ok (user_perms ++ [perm])
       else Ok user_perms)
    (keys perms) (Ok []).

Definition get_group_perms_any (group : Z) (klass : pyval) (st : State)
  : result (list string) :=
  _model_name <-- match klass with
                  | VClass cls => Ok (lower (cls_name cls))
                  | VOtherClass => Ok EmptyString
                  | _ => Raise AttributeError
                  end ;;
  perms <-- get_model_perms klass st ;;
  fold_left
    (fun acc perm =>
       group_perms <-- acc ;;
       let _perm := lower perm in
       linked <-- related_pks st ToGroup (perm_set_ _perm _model_name) group ;;
       if (0 <? length linked)%nat
       then Ok (group_perms ++ [perm])
       else Ok group_perms)
    (keys perms) (Ok []).

(** ** Objects by permission

    The [*_get_objects_*] functions filter the table of a model by the
    permissions of a principal, and take keyword arguments [related]: a field
    path to a related model, with the permissions to look for there.  The
    relations between the models are declared by the application, not by
    the source: how Django resolves a field path from a model is the
    parameter [follow], which gives the model the path leads to and, for
    each object, the related objects, or nothing when the model has no such
    relation. *)

Section Related.
Variable follow : State -> Model -> string -> option (Model * (Z -> list Z)).

(** A key [<field>__<key on the related model>], or a key on the model's own
    table. *)
Definition resolve_related (st : State) (model : Model)
  (key : list string) (value : qvalue) : result (Z -> bool) :=
  match key with
  | field :: rest =>
      match follow st model field with
      | Some (related_model, related_objs) =>
          f <-- resolve_model st related_model rest value ;;
          Ok (fun o => existsb f (related_objs o))
      | None => resolve_model st model key value
      end
  | [] => resolve_model st model key value
  end.

(** [model.objects.filter(q).distinct()] *)
Definition filter_objects_related (st : State) (model : Model) (q : Q)
  : result (list Z) :=
  p <-- compileQ (resolve_related st model) q ;;
  Ok (filter (holds p)
        (map snd (filter (fun row => Model_eqb (fst row) model) (tables st)))).

(** [for field in related: ...]: [extend q field perm] is what one
    permission of one related field adds to the query; a field without
    permissions is refused. *)
Definition related_clauses (extend : Q -> string -> string -> Q)
  (related : list (string * list string)) (q : Q) : result Q :=
  fold_left
    (fun acc entry =>
       q <-- acc ;;
       let '(field, perms) := entry in
       match perms with
       | [] => Raise NotImplementedError
       | _ :: _ => Ok (fold_left (fun q perm => extend q field perm) perms q)
       end)
    related (Ok q).

Definition user_get_objects_any_perms (user : Z) (model : pyval)
  (perms : list string) (groups : bool) (related : list (string * list string))
  (st : State) : result (list Z) :=
  perms <-- effective_perms perms model st ;;
  let q :=
    fold_left
      (fun q perm =>
         let _perm := lower perm in
         let q := Q_or q (Q_leaf [user_perm_ _perm] (QInst user)) in
         if groups
         then Q_or q (Q_leaf [group_perm_ _perm; "user"] (QInst user))
         else q)
      perms Q_empty in
  q <-- related_clauses
          (fun q field perm =>
             let _perm := lower perm in
             let q := Q_or q (Q_leaf [field; user_perm_ _perm] (QInst user)) in
             if groups
             then Q_or q (Q_leaf [field; group_perm_ _perm; "user"] (QInst user))
             else q)
          related q ;;
  cls <-- as_model_class model ;;
  filter_objects_related st cls q.

Definition group_get_objects_any_perms (group : Z) (model : pyval)
  (perms : list string) (related : list (string * list string))
  (st : State) : result (list Z) :=
  perms <-- effective_perms perms model st ;;
  let q :=
    fold_left
      (fun q perm =>
         let _perm := lower perm in
         Q_or q (Q_leaf [group_perm_ _perm] (QInst group)))
      perms Q_empty in
  q <-- related_clauses
          (fun q field perm =>
             let _perm := lower perm in
             Q_or q (Q_leaf [field; group_perm_ _perm] (QInst group)))
          related q ;;
  cls <-- as_model_class model ;;
  filter_objects_related st cls q.

Definition user_get_objects_all_perms (user : Z) (model : pyval)
  (perms : list string) (groups : bool) (related : list (string * list string))
  (st : State) : result (list Z) :=
  perms <-- effective_perms perms model st ;;
  let q :=
    fold_left
      (fun q perm =>
         let _perm := lower perm in
         let _q := Q_leaf [user_perm_ _perm] (QInst user) in
         let _q := if groups
                   then Q_or _q (Q_leaf [group_perm_ _perm; "user"] (QInst user))
                   else _q in
         Q_and q _q)
      perms Q_empty in
  q <-- related_clauses
          (fun q field perm =>
             let _perm := lower perm in
             let _q := Q_leaf [field; user_perm_ _perm] (QInst user) in
             let _q := if groups
                       then Q_or _q (Q_leaf [field; group_perm_ _perm; "user"]
                                            (QInst user))
                       else _q in
             Q_and q _q)
          related q ;;
  cls <-- as_model_class model ;;
  filter_objects_related st cls q.

Definition group_get_objects_all_perms (group : Z) (model : pyval)
  (perms : list string) (related : list (string * list string))
  (st : State) : result (list Z) :=
  perms <-- effective_perms perms model st ;;
  let q :=
    fold_left
      (fun q perm =>
         let _perm := lower perm in
         Q_and q (Q_leaf [group_perm_ _perm] (QInst group)))
      perms Q_empty in
  q <-- related_clauses
          (fun q field perm =>
             let _perm := lower perm in
             Q_and q (Q_leaf [field; group_perm_ _perm] (QInst group)))
          related q ;;
  cls <-- as_model_class model ;;
  filter_objects_related st cls q.

(** The two dictionaries from each registered class to its objects. *)
Definition user_get_all_objects_any_perms (user : Z) (groups : bool)
  (st : State) : result (list (Model * list Z)) :=
  collect
    (fun cls =>
       objs <-- user_get_objects_any_perms user (VClass cls) [] groups [] st ;;
       Ok (cls, objs))
    (registered st).

Definition group_get_all_objects_any_perms (group : Z) (st : State)
  : result (list (Model * list Z)) :=
  collect
    (fun cls =>
       objs <-- group_get_objects_any_perms group (VClass cls) [] [] st ;;
       Ok (cls, objs))
    (registered st).

(** The deprecated entry points. *)
Definition filter_on_perms (user : Z) (model : pyval) (perms : list string)
  (groups : bool) : M (list Z) :=
  warn (WDeprecated "user.filter_on_perms()" "user.get_objects_any_perms()") ;;;
  query (user_get_objects_any_perms user model perms groups []).

Definition filter_on_group_perms (group : Z) (model : pyval)
  (perms : list string) : M (list Z) :=
  warn (WDeprecated "group.filter_on_perms()" "group.get_objects_any_perms()") ;;;
  query (group_get_objects_any_perms group model perms []).
End Related.

Definition perms_on_any (user : Z) (model : pyval) (perms : list string)
  (groups : bool) : M bool :=
  warn (WDeprecated "user.perms_on_any()" "user.has_any_perms()") ;;;
  query (user_has_any_perms user model perms groups).

(** [get_group_permissions] of the backend: the query of its loop is built
    from the name [user], which is bound nowhere, so the first turn raises
    [NameError]. *)
Definition get_group_permissions (self : ObjectPermBackend) (user_obj : UserObj)
  (obj : pyval) (st : State) : result (list string) :=
  let user :=
    match user_obj with
    | AuthUser pk => Some pk
    | AnonymousUser => anonymous self
    end in
  match user with
  | None => Ok []
  | Some user_obj =>
      if negb (is_model_instance obj) then Ok []
      else
        let model := class_of obj in
        perms <-- get_model_perms model st ;;
        fold_left
          (fun acc perm => group_perms <-- acc ;; Raise NameError)
          (keys perms) (Ok [])
  end.

(** One turn of the loop of [_register_delayed]. *)
Definition attempt (args : PermDict * Model * string) : M unit :=
  let '(params, model, app_label) := args in
  _register params model app_label.

(** A restaurant class that declares a field of its own under the name
    [user_perm_note], registered with the permissions of the docstring of
    [register]. *)
Definition plain_field_state : State :=
  populate
    (snd (register (ParamsSeq ["eat"; "order"; "pay"]) Restaurant (Some "app")
            (set_fields [mkField Restaurant "user_perm_note" Plain] initial))).

(** ** Facts about the basic operations *)

Unset Implicit Arguments.

Lemma Model_eqb_refl (m : Model) : Model_eqb m m = true.
Proof.
  unfold Model_eqb. now rewrite !String.eqb_refl.
Qed.

Lemma Model_eqb_eq (a b : Model) : Model_eqb a b = true <-> a = b.
Proof.
  unfold Model_eqb. destruct a as [ma na], b as [mb nb]; simpl.
  rewrite andb_true_iff, !String.eqb_eq. split.
  - intros [-> ->]. reflexivity.
  - intros H. injection H as -> ->. split; reflexivity.
Qed.

Lemma mem_string_In (x : string) (l : list string) :
  mem_string x l = true <-> In x l.
Proof.
  unfold mem_string. rewrite existsb_exists. split.
  - intros [y [Hy E]]. apply String.eqb_eq in E. now subst.
  - intros H. exists x. split; [assumption | apply String.eqb_refl].
Qed.

Lemma mem_model_In (m : Model) (l : list Model) :
  mem_model m l = true <-> In m l.
Proof.
  unfold mem_model. rewrite existsb_exists. split.
  - intros [y [Hy E]]. apply Model_eqb_eq in E. now subst.
  - intros H. exists m. split; [assumption | apply Model_eqb_refl].
Qed.

Lemma in_manager_eq (manager : Manager) (pk : Z) (r : Row) :
  in_manager manager pk r = true <->
  r = mkRow (mgr_model manager) (mgr_field manager) (mgr_obj manager) pk.
Proof.
  unfold in_manager. destruct r as [m f o p]; simpl.
  rewrite !andb_true_iff, Model_eqb_eq, String.eqb_eq, !Z.eqb_eq. split.
  - intros [[[-> ->] ->] ->]. reflexivity.
  - intros H. injection H as -> -> -> ->. repeat split.
Qed.

Lemma has_row_In (st : State) (model : Model) (f : string) (o p : Z) :
  has_row st model f o p = true <-> In (mkRow model f o p) (m2m_rows st).
Proof.
  unfold has_row. rewrite existsb_exists. split.
  - intros [r [Hr E]]. apply in_manager_eq in E. simpl in E. now subst.
  - intros H. eexists. split; [exact H |]. now apply in_manager_eq.
Qed.

Lemma exists_filter {A : Type} (f : A -> bool) (l : list A) :
  exists_ (filter f l) = existsb f l.
Proof.
  induction l as [| x l IH]; simpl; [reflexivity |].
  destruct (f x); simpl; [reflexivity | exact IH].
Qed.

Lemma count_zero_has_row (st : State) (manager : Manager) (pk : Z) :
  (length (filter (in_manager manager pk) (m2m_rows st)) =? 0)%nat
  = negb (existsb (in_manager manager pk) (m2m_rows st)).
Proof.
  induction (m2m_rows st) as [| r l IH]; simpl; [reflexivity |].
  destruct (in_manager manager pk r); simpl; [reflexivity | exact IH].
Qed.

Lemma count_pos_has_row (st : State) (manager : Manager) (pk : Z) :
  (0 <? length (filter (in_manager manager pk) (m2m_rows st)))%nat
  = existsb (in_manager manager pk) (m2m_rows st).
Proof.
  induction (m2m_rows st) as [| r l IH]; simpl; [reflexivity |].
  destruct (in_manager manager pk r); simpl; [reflexivity | exact IH].
Qed.

Lemma unique_rows_count (st : State) (manager : Manager) (pk : Z) :
  unique_rows st ->
  (length (filter (in_manager manager pk) (m2m_rows st)) <= 1)%nat.
Proof.
  unfold unique_rows. induction (m2m_rows st) as [| r l IH]; simpl; intros ND.
  - lia.
  - inversion ND as [| ? ? Hnotin ND']; subst.
    destruct (in_manager manager pk r) eqn:E; simpl; [| now apply IH].
    apply in_manager_eq in E.
    assert (Hnil : filter (in_manager manager pk) l = []).
    { destruct (filter (in_manager manager pk) l) as [| r' l'] eqn:F; [reflexivity |].
      assert (Hin : In r' (filter (in_manager manager pk) l))
        by (rewrite F; now left).
      apply filter_In in Hin. destruct Hin as [Hin E'].
      apply in_manager_eq in E'. subst. contradiction. }
    rewrite Hnil. simpl. lia.
Qed.

(** ** The grant store *)

Lemma grant_absent (st : State) (user : Z) (perm : string) (cls : Model)
  (pk : Z) (to : Target) (rn : string) :
  lookup_field st cls (user_perm_ (lower perm)) = Some (ManyToMany to rn) ->
  has_row st cls (user_perm_ (lower perm)) pk user = false ->
  grant user perm (VInstance cls pk) st =
  (Ok tt,
   set_signals (signals st ++ [granted (PUser user) perm (VInstance cls pk)])
     (set_m2m_rows (m2m_rows st ++ [mkRow cls (user_perm_ (lower perm)) pk user])
        st)).
Proof.
  intros Hf Hrow. unfold grant, try_except, query, bind, getattr.
  rewrite Hf. unfold filter_pk_count, gets.
  rewrite count_zero_has_row. fold (has_row st cls (user_perm_ (lower perm)) pk user).
  rewrite Hrow. simpl. unfold has_row in Hrow. rewrite Hrow. reflexivity.
Qed.

Lemma grant_present (st : State) (user : Z) (perm : string) (cls : Model)
  (pk : Z) (to : Target) (rn : string) :
  lookup_field st cls (user_perm_ (lower perm)) = Some (ManyToMany to rn) ->
  has_row st cls (user_perm_ (lower perm)) pk user = true ->
  grant user perm (VInstance cls pk) st = (Ok tt, st).
Proof.
  intros Hf Hrow. unfold grant, try_except, query, bind, getattr.
  rewrite Hf. unfold filter_pk_count, gets.
  rewrite count_zero_has_row. fold (has_row st cls (user_perm_ (lower perm)) pk user).
  rewrite Hrow. reflexivity.
Qed.

Lemma existsb_app_true {A : Type} (f : A -> bool) (l : list A) (x : A) :
  f x = true -> existsb f (l ++ [x]) = true.
Proof.
  intros H. rewrite existsb_app. simpl. rewrite H. apply orb_true_iff. right. reflexivity.
Qed.

(** C7. Grant idempotence: on a permission whose junction relation exists,
    two calls of [grant] with the same user, permission and object both
    return; they leave exactly one edge; the second call changes nothing, so
    it adds no edge and sends no signal; and the only signal sent is the one
    [granted] of the call that inserted the edge (none when the edge was
    already held before the first call). *)
Theorem grant_idempotent (st : State) (user : Z) (perm : string) (cls : Model)
  (pk : Z) (to : Target) (rn : string) :
  unique_rows st ->
  lookup_field st cls (user_perm_ (lower perm)) = Some (ManyToMany to rn) ->
  let obj := VInstance cls pk in
  let st1 := snd (grant user perm obj st) in
  let st2 := snd (grant user perm obj st1) in
  fst (grant user perm obj st) = Ok tt
  /\ fst (grant user perm obj st1) = Ok tt
  /\ edges st2 cls (user_perm_ (lower perm)) pk user = 1%nat
  /\ st2 = st1
  /\ signals st2 =
     signals st ++
     (if has_row st cls (user_perm_ (lower perm)) pk user then []
      else [granted (PUser user) perm obj]).
Proof.
  intros Huniq Hf obj st1 st2. subst obj st1 st2.
  destruct (has_row st cls (user_perm_ (lower perm)) pk user) eqn:Hrow.
  - rewrite (@grant_present st user perm cls pk to rn Hf Hrow). simpl.
    rewrite (@grant_present st user perm cls pk to rn Hf Hrow). simpl.
    repeat split; try reflexivity.
    + pose proof (@unique_rows_count st
                    (mkManager cls (user_perm_ (lower perm)) pk) user Huniq) as Hle.
      unfold edges.
      pose proof (count_pos_has_row st
                    (mkManager cls (user_perm_ (lower perm)) pk) user) as Hpos.
      unfold has_row in Hrow. rewrite Hrow in Hpos.
      apply Nat.ltb_lt in Hpos. lia.
    + now rewrite app_nil_r.
  - rewrite (@grant_absent st user perm cls pk to rn Hf Hrow). simpl.
    set (st1 := set_signals _ _).
    assert (Hrow' : has_row st1 cls (user_perm_ (lower perm)) pk user = true).
    { unfold has_row. simpl. apply existsb_app_true. now apply in_manager_eq. }
    rewrite (@grant_present st1 user perm cls pk to rn Hf Hrow'). simpl.
    repeat split; try reflexivity.
    unfold edges. simpl. rewrite filter_app. simpl.
    assert (Hnil : filter (in_manager (mkManager cls (user_perm_ (lower perm)) pk) user)
                     (m2m_rows st) = []).
    { pose proof (count_zero_has_row st
                    (mkManager cls (user_perm_ (lower perm)) pk) user) as Hz.
      unfold has_row in Hrow. rewrite Hrow in Hz. simpl in Hz.
      apply Nat.eqb_eq in Hz. now apply length_zero_iff_nil. }
    rewrite Hnil. simpl.
    assert (E : in_manager (mkManager cls (user_perm_ (lower perm)) pk) user
                  (mkRow cls (user_perm_ (lower perm)) pk user) = true)
      by now apply in_manager_eq.
    rewrite E. reflexivity.
Qed.

Lemma grant_idempotent_witness :
  edges (snd (grant 1 "eat" O1 (snd (grant 1 "eat" O1 restaurant_state))))
        Restaurant (user_perm_ (lower "eat")) 100 1 = 1%nat.
Proof.
  pose proof (@grant_idempotent restaurant_state 1 "eat" Restaurant 100 ToUser
                "perm_eat_restaurant_set") as H.
  destruct H as (_ & _ & H & _).
  - unfold unique_rows. simpl. constructor.
  - reflexivity.
  - exact H.
Defined.

(** ** Which operations raise [UnknownPermissionException] *)

Section NeverRaises.
Variable e : exn.

Lemma never_raises_ret {A : Type} (a : A) : never_raises e (ret a).
Proof. intros st. discriminate. Qed.

Lemma never_raises_gets {A : Type} (f : State -> A) : never_raises e (gets f).
Proof. intros st. discriminate. Qed.

Lemma never_raises_modify (f : State -> State) : never_raises e (modify f).
Proof. intros st. discriminate. Qed.

Lemma never_raises_bind {A B : Type} (c : M A) (k : A -> M B) :
  never_raises e c -> (forall a, never_raises e (k a)) ->
  never_raises e (bind c k).
Proof.
  intros Hc Hk st. unfold bind. specialize (Hc st).
  destruct (c st) as [[a | e'] st']; simpl in *.
  - apply Hk.
  - intros E. apply Hc. now injection E as ->.
Qed.

Lemma never_raises_for_each {A : Type} (l : list A) (body : A -> M unit) :
  (forall x, never_raises e (body x)) -> never_raises e (for_each l body).
Proof.
  intros Hb. induction l as [| x l IH]; simpl.
  - apply never_raises_ret.
  - apply never_raises_bind; [apply Hb | intros _; exact IH].
Qed.

Lemma never_raises_query {A : Type} (f : State -> result A) :
  cannot_raise e f -> never_raises e (query f).
Proof. intros Hf st. apply Hf. Qed.

Lemma never_raises_try_except {A : Type} (c : M A) (e' : exn) (h : M A) :
  never_raises e c -> never_raises e h -> never_raises e (try_except c e' h).
Proof.
  intros Hc Hh st. unfold try_except. specialize (Hc st).
  destruct (c st) as [[a | e''] st']; simpl in *.
  - discriminate.
  - destruct (exn_eqb e' e''); [apply Hh | exact Hc].
Qed.

Lemma never_raises_try_finally {A : Type} (c : M A) (f : M unit) :
  never_raises e c -> never_raises e (try_finally c f).
Proof.
  intros Hc st. unfold try_finally. specialize (Hc st).
  destruct (c st) as [r st']; simpl in *. exact Hc.
Qed.

Lemma never_raises_except_reraise {A : Type} (c : M A) (h : M unit) :
  never_raises e c -> never_raises e (except_reraise c h).
Proof.
  intros Hc st. unfold except_reraise. specialize (Hc st).
  destruct (c st) as [[a | e''] st']; simpl in *; [discriminate | exact Hc].
Qed.

Lemma rbind_cannot_raise {A B : Type} (r : result A) (k : A -> result B) :
  r <> Raise e -> (forall a, k a <> Raise e) -> rbind r k <> Raise e.
Proof.
  intros Hr Hk. destruct r as [a | e']; simpl; [apply Hk |].
  intros E. apply Hr. now injection E as ->.
Qed.

Lemma fold_left_cannot_raise {A B : Type} (f : result B -> A -> result B)
  (l : list A) (init : result B) :
  (forall acc x, acc <> Raise e -> f acc x <> Raise e) ->
  init <> Raise e -> fold_left f l init <> Raise e.
Proof.
  intros Hf. revert init. induction l as [| x l IH]; simpl; intros init Hi.
  - exact Hi.
  - apply IH. now apply Hf.
Qed.

Lemma collect_cannot_raise {A B : Type} (f : A -> result B) (l : list A) :
  (forall x, f x <> Raise e) -> collect f l <> Raise e.
Proof.
  intros Hf. induction l as [| x l IH]; simpl; [discriminate |].
  apply rbind_cannot_raise; [apply Hf | intros y].
  apply rbind_cannot_raise; [exact IH | discriminate].
Qed.

Lemma keep_if_cannot_raise {A : Type} (good : A -> result bool) (l : list A) :
  (forall x, good x <> Raise e) -> keep_if good l <> Raise e.
Proof.
  intros Hf. induction l as [| x l IH]; simpl; [discriminate |].
  apply rbind_cannot_raise; [apply Hf | intros y].
  apply rbind_cannot_raise; [exact IH | discriminate].
Qed.
End NeverRaises.

Local Abbreviation UPE := UnknownPermissionException.

Create HintDb no_unknown.

Ltac no_raise_step :=
  match goal with
  | |- cannot_raise _ _ => intros ?
  | |- Ok _ <> Raise _ => discriminate
  | |- Raise _ <> Raise _ => discriminate
  | H : ?r <> Raise ?e |- ?r <> Raise ?e => exact H
  | |- rbind _ _ <> Raise _ => apply rbind_cannot_raise; [| intros ?]
  | |- fold_left _ _ _ <> Raise _ =>
      apply fold_left_cannot_raise; [intros ? ? ? |]
  | |- collect _ _ <> Raise _ => apply collect_cannot_raise; intros ?
  | |- keep_if _ _ <> Raise _ => apply keep_if_cannot_raise; intros ?
  | |- (if ?b then _ else _) <> Raise _ => destruct b
  | |- (match ?x with _ => _ end) <> Raise _ => destruct x
  end.

Ltac no_raise := repeat (cbv zeta; no_raise_step).

Lemma get_model_perms_no_unknown (model : pyval) :
  cannot_raise UPE (get_model_perms model).
Proof. unfold get_model_perms. no_raise. Qed.

Lemma getattr_no_unknown (obj : pyval) (name : string) :
  cannot_raise UPE (getattr obj name).
Proof. unfold getattr. no_raise. Qed.

Lemma resolve_model_no_unknown st model key value :
  resolve_model st model key value <> Raise UPE.
Proof. unfold resolve_model. no_raise. Qed.

Lemma resolve_user_no_unknown st key value :
  resolve_user st key value <> Raise UPE.
Proof. unfold resolve_user. no_raise. Qed.

Lemma compileQ_no_unknown {R : Type}
  (resolve : list string -> qvalue -> result (R -> bool)) (q : Q) :
  (forall key value, resolve key value <> Raise UPE) ->
  compileQ resolve q <> Raise UPE.
Proof.
  intros Hr. induction q as [| key value | a IHa b IHb | a IHa b IHb]; simpl.
  - discriminate.
  - no_raise. apply Hr.
  - no_raise.
  - no_raise.
Qed.

Lemma filter_objects_no_unknown st model q :
  filter_objects st model q <> Raise UPE.
Proof.
  unfold filter_objects. no_raise.
  apply compileQ_no_unknown. apply resolve_model_no_unknown.
Qed.

Lemma filter_users_no_unknown st q : filter_users st q <> Raise UPE.
Proof.
  unfold filter_users. no_raise.
  apply compileQ_no_unknown. apply resolve_user_no_unknown.
Qed.

Lemma effective_perms_no_unknown perms model :
  cannot_raise UPE (effective_perms perms model).
Proof.
  unfold effective_perms. intros st.
  destruct perms; no_raise; apply get_model_perms_no_unknown.
Qed.

Lemma as_model_class_no_unknown model : as_model_class model <> Raise UPE.
Proof. unfold as_model_class. no_raise. Qed.

Lemma pk_of_no_unknown obj : pk_of obj <> Raise UPE.
Proof. unfold pk_of. no_raise. Qed.

#[local] Hint Extern 1 (_ <> Raise _) =>
  first [ apply get_model_perms_no_unknown | apply getattr_no_unknown
        | apply filter_objects_no_unknown | apply filter_users_no_unknown
        | apply effective_perms_no_unknown | apply as_model_class_no_unknown
        | apply pk_of_no_unknown ] : no_unknown.

Ltac no_unknown := no_raise; auto with no_unknown.

Lemma get_user_perms_no_unknown user obj groups :
  cannot_raise UPE (get_user_perms user obj groups).
Proof. unfold get_user_perms. no_unknown. Qed.

Lemma user_has_perm_no_unknown user perm obj groups :
  cannot_raise UPE (user_has_perm user perm obj groups).
Proof.
  unfold user_has_perm. intros st. cbv zeta.
  pose proof (@get_model_perms_no_unknown (class_of obj) st) as H.
  destruct (get_model_perms (class_of obj) st) as [perms | e'].
  - no_unknown.
  - destruct e'; try discriminate. contradiction.
Qed.

Lemma group_has_perm_no_unknown group perm obj :
  cannot_raise UPE (group_has_perm group perm obj).
Proof.
  unfold group_has_perm. intros st. cbv zeta.
  pose proof (@get_model_perms_no_unknown (class_of obj) st) as H.
  destruct (get_model_perms (class_of obj) st) as [perms | e'].
  - no_unknown.
  - destruct e'; try discriminate. contradiction.
Qed.

Lemma user_has_any_perms_no_unknown user obj perms groups :
  cannot_raise UPE (user_has_any_perms user obj perms groups).
Proof. unfold user_has_any_perms. no_unknown. Qed.

Lemma user_has_all_perms_no_unknown user obj perms groups :
  cannot_raise UPE (user_has_all_perms user obj perms groups).
Proof. unfold user_has_all_perms. no_unknown. Qed.

Lemma related_pks_no_unknown st to k principal :
  related_pks st to k principal <> Raise UPE.
Proof. unfold related_pks. no_raise. Qed.

Lemma instances_for_no_unknown st groups u k :
  instances_for st groups u k <> Raise UPE.
Proof.
  unfold instances_for, iter_manager. no_raise;
    try apply related_pks_no_unknown.
Qed.

Lemma get_users_all_no_unknown obj perms groups :
  cannot_raise UPE (get_users_all obj perms groups).
Proof.
  unfold get_users_all. no_unknown; apply instances_for_no_unknown.
Qed.

Lemma has_perm_no_unknown self user_obj perm obj :
  cannot_raise UPE (has_perm self user_obj perm obj).
Proof.
  unfold has_perm. intros st. cbv zeta.
  destruct (match user_obj with AuthUser pk => Some pk | AnonymousUser => anonymous self end);
    [| discriminate].
  destruct obj; try discriminate; apply user_has_perm_no_unknown.
Qed.

Lemma get_all_permissions_no_unknown self user_obj obj :
  cannot_raise UPE (get_all_permissions self user_obj obj).
Proof. unfold get_all_permissions. no_unknown. Qed.

Lemma filter_pk_count_no_unknown a pk : never_raises UPE (filter_pk_count a pk).
Proof. destruct a; intros st; discriminate. Qed.

Lemma manager_add_no_unknown a pk : never_raises UPE (manager_add a pk).
Proof. destruct a; intros st; discriminate. Qed.

Lemma manager_remove_no_unknown a pk : never_raises UPE (manager_remove a pk).
Proof. destruct a; intros st; discriminate. Qed.

Lemma send_no_unknown s : never_raises UPE (send s).
Proof. intros st; discriminate. Qed.

Lemma warn_no_unknown w : never_raises UPE (warn w).
Proof. intros st; discriminate. Qed.

Lemma raise_no_unknown {A : Type} (e : exn) :
  e <> UPE -> never_raises UPE (@raise A e).
Proof. intros H st E. simpl in E. apply H. now injection E. Qed.

Lemma contribute_to_class_no_unknown model name kind :
  never_raises UPE (contribute_to_class model name kind).
Proof.
  intros st. unfold contribute_to_class.
  destruct (mem_model model (schema_unavailable st)); discriminate.
Qed.

Ltac no_unknown_m :=
  repeat first
    [ apply never_raises_bind; [| intros ?]
    | apply never_raises_for_each; intros ?
    | apply never_raises_ret
    | apply never_raises_gets
    | apply never_raises_modify
    | apply never_raises_query; solve [auto with no_unknown]
    | apply filter_pk_count_no_unknown
    | apply manager_add_no_unknown
    | apply manager_remove_no_unknown
    | apply send_no_unknown
    | apply warn_no_unknown
    | apply contribute_to_class_no_unknown
    | apply raise_no_unknown; discriminate
    | match goal with
      | |- never_raises _ (if ?b then _ else _) => destruct b
      | |- never_raises _ (match ?x with _ => _ end) => destruct x
      | |- never_raises _ (let _ := _ in _) => cbv zeta
      end ].

#[local] Hint Extern 1 (cannot_raise _ _) =>
  first [ apply get_model_perms_no_unknown | apply getattr_no_unknown ]
  : no_unknown.

Lemma revoke_step_no_unknown (principal : Z) (s : Signal) manager :
  never_raises UPE
    (n <- filter_pk_count manager principal ;;
     if (0 <? n)%nat
     then manager_remove manager principal ;;; send s
     else ret tt).
Proof. no_unknown_m. Qed.

Lemma revoke_no_unknown user perm obj : never_raises UPE (revoke user perm obj).
Proof.
  intros st. unfold revoke. cbv zeta.
  pose proof (@getattr_no_unknown obj (user_perm_ (lower perm)) st) as H.
  destruct (getattr obj (user_perm_ (lower perm)) st) as [manager | e'].
  - apply revoke_step_no_unknown.
  - destruct e'; try discriminate. contradiction.
Qed.

Lemma revoke_group_no_unknown group perm obj :
  never_raises UPE (revoke_group group perm obj).
Proof.
  intros st. unfold revoke_group. cbv zeta.
  pose proof (@getattr_no_unknown obj (group_perm_ (lower perm)) st) as H.
  destruct (getattr obj (group_perm_ (lower perm)) st) as [manager | e'].
  - apply revoke_step_no_unknown.
  - destruct e'; try discriminate. contradiction.
Qed.

Lemma revoke_all_no_unknown user obj : never_raises UPE (revoke_all user obj).
Proof. unfold revoke_all. no_unknown_m. Qed.

Lemma revoke_all_group_no_unknown group obj :
  never_raises UPE (revoke_all_group group obj).
Proof. unfold revoke_all_group. no_unknown_m. Qed.

Lemma set_user_perms_no_unknown user perms obj :
  never_raises UPE (set_user_perms user perms obj).
Proof.
  unfold set_user_perms. no_unknown_m.
  unfold set_user_perms_step. destruct x as [perm wanted]. no_unknown_m.
Qed.

Lemma set_group_perms_no_unknown group perms obj :
  never_raises UPE (set_group_perms group perms obj).
Proof.
  unfold set_group_perms. no_unknown_m.
Qed.

Lemma _register_no_unknown params model app_label :
  never_raises UPE (_register params model app_label).
Proof.
  unfold _register. apply never_raises_try_finally, never_raises_except_reraise.
  no_unknown_m.
Qed.

Lemma register_no_unknown params model app_label :
  never_raises UPE (register params model app_label).
Proof.
  unfold register. no_unknown_m.
  all: apply never_raises_try_except;
    [apply _register_no_unknown | apply never_raises_modify].
Qed.

Lemma _register_delayed_no_unknown : never_raises UPE _register_delayed.
Proof.
  unfold _register_delayed. apply never_raises_try_except; no_unknown_m.
  all: apply _register_no_unknown.
Qed.

Lemma get_class_no_unknown class_name :
  cannot_raise UPE (get_class class_name).
Proof. unfold get_class. no_raise. Qed.

Lemma get_group_perms_no_unknown group obj groups :
  cannot_raise UPE (get_group_perms group obj groups).
Proof. unfold get_group_perms. no_unknown. Qed.

Lemma get_user_perms_any_no_unknown user klass groups :
  cannot_raise UPE (get_user_perms_any user klass groups).
Proof. unfold get_user_perms_any. no_unknown. Qed.

Lemma get_group_perms_any_no_unknown group klass :
  cannot_raise UPE (get_group_perms_any group klass).
Proof.
  unfold get_group_perms_any. no_unknown; apply related_pks_no_unknown.
Qed.

Lemma resolve_group_no_unknown st key value :
  resolve_group st key value <> Raise UPE.
Proof. unfold resolve_group. no_raise. Qed.

Lemma filter_groups_no_unknown st q : filter_groups st q <> Raise UPE.
Proof.
  unfold filter_groups. no_raise.
  apply compileQ_no_unknown. apply resolve_group_no_unknown.
Qed.

Lemma group_has_any_perms_no_unknown group obj perms :
  cannot_raise UPE (group_has_any_perms group obj perms).
Proof.
  unfold group_has_any_perms. no_unknown; apply filter_groups_no_unknown.
Qed.

Lemma group_has_all_perms_no_unknown group obj perms :
  cannot_raise UPE (group_has_all_perms group obj perms).
Proof. unfold group_has_all_perms. no_unknown. Qed.

Lemma get_users_any_no_unknown obj perms groups :
  cannot_raise UPE (get_users_any obj perms groups).
Proof. unfold get_users_any. no_unknown. Qed.

Lemma get_users_no_unknown obj groups : cannot_raise UPE (get_users obj groups).
Proof. unfold get_users. apply get_users_any_no_unknown. Qed.

Lemma get_groups_any_no_unknown obj perms :
  cannot_raise UPE (get_groups_any obj perms).
Proof.
  unfold get_groups_any. no_unknown; apply filter_groups_no_unknown.
Qed.

Lemma get_groups_no_unknown obj : cannot_raise UPE (get_groups obj).
Proof. unfold get_groups. apply get_groups_any_no_unknown. Qed.

Lemma get_groups_all_no_unknown obj perms :
  cannot_raise UPE (get_groups_all obj perms).
Proof.
  unfold get_groups_all. no_unknown;
    first [apply filter_groups_no_unknown | apply related_pks_no_unknown].
Qed.

Lemma get_group_permissions_no_unknown self user_obj obj :
  cannot_raise UPE (get_group_permissions self user_obj obj).
Proof. unfold get_group_permissions. no_unknown. Qed.

Section RelatedNeverRaises.
Variable follow : State -> Model -> string -> option (Model * (Z -> list Z)).

Lemma resolve_related_no_unknown st model key value :
  resolve_related follow st model key value <> Raise UPE.
Proof.
  unfold resolve_related. no_raise; apply resolve_model_no_unknown.
Qed.

Lemma filter_objects_related_no_unknown st model q :
  filter_objects_related follow st model q <> Raise UPE.
Proof.
  unfold filter_objects_related. no_raise.
  apply compileQ_no_unknown. apply resolve_related_no_unknown.
Qed.

Lemma related_clauses_no_unknown extend related q :
  related_clauses extend related q <> Raise UPE.
Proof. unfold related_clauses. no_raise. Qed.

Lemma user_get_objects_any_perms_no_unknown user model perms groups related :
  cannot_raise UPE
    (user_get_objects_any_perms follow user model perms groups related).
Proof.
  unfold user_get_objects_any_perms. no_unknown;
    first [apply related_clauses_no_unknown
          | apply filter_objects_related_no_unknown].
Qed.

Lemma group_get_objects_any_perms_no_unknown group model perms related :
  cannot_raise UPE (group_get_objects_any_perms follow group model perms related).
Proof.
  unfold group_get_objects_any_perms. no_unknown;
    first [apply related_clauses_no_unknown
          | apply filter_objects_related_no_unknown].
Qed.

Lemma user_get_objects_all_perms_no_unknown user model perms groups related :
  cannot_raise UPE
    (user_get_objects_all_perms follow user model perms groups related).
Proof.
  unfold user_get_objects_all_perms. no_unknown;
    first [apply related_clauses_no_unknown
          | apply filter_objects_related_no_unknown].
Qed.

Lemma group_get_objects_all_perms_no_unknown group model perms related :
  cannot_raise UPE (group_get_objects_all_perms follow group model perms related).
Proof.
  unfold group_get_objects_all_perms. no_unknown;
    first [apply related_clauses_no_unknown
          | apply filter_objects_related_no_unknown].
Qed.

Lemma user_get_all_objects_any_perms_no_unknown user groups :
  cannot_raise UPE (user_get_all_objects_any_perms follow user groups).
Proof.
  unfold user_get_all_objects_any_perms. no_raise.
  apply user_get_objects_any_perms_no_unknown.
Qed.

Lemma group_get_all_objects_any_perms_no_unknown group :
  cannot_raise UPE (group_get_all_objects_any_perms follow group).
Proof.
  unfold group_get_all_objects_any_perms. no_raise.
  apply group_get_objects_any_perms_no_unknown.
Qed.

Lemma filter_on_perms_no_unknown user model perms groups :
  never_raises UPE (filter_on_perms follow user model perms groups).
Proof.
  unfold filter_on_perms. apply never_raises_bind; [apply warn_no_unknown |].
  intros _. apply never_raises_query, user_get_objects_any_perms_no_unknown.
Qed.

Lemma filter_on_group_perms_no_unknown group model perms :
  never_raises UPE (filter_on_group_perms follow group model perms).
Proof.
  unfold filter_on_group_perms. apply never_raises_bind; [apply warn_no_unknown |].
  intros _. apply never_raises_query, group_get_objects_any_perms_no_unknown.
Qed.
End RelatedNeverRaises.

Lemma perms_on_any_no_unknown user model perms groups :
  never_raises UPE (perms_on_any user model perms groups).
Proof.
  unfold perms_on_any. apply never_raises_bind; [apply warn_no_unknown |].
  intros _. apply never_raises_query, user_has_any_perms_no_unknown.
Qed.

(** What [grant] does with a name, by what the type carries under the
    lower-cased name: nothing, a field of its own, or the junction
    relation. *)
Lemma grant_unknown_iff (st : State) (user : Z) (perm : string) (cls : Model)
  (pk : Z) :
  lookup_field st cls (user_perm_ (lower perm)) = None <->
  grant user perm (VInstance cls pk) st = (Raise UPE, st).
Proof.
  unfold grant, try_except, query, bind, getattr. cbv zeta.
  destruct (lookup_field st cls (user_perm_ (lower perm))) as [[| to rn] |]; simpl.
  - split; discriminate.
  - unfold gets.
    destruct (length _ =? 0)%nat; simpl; split; discriminate.
  - split; reflexivity.
Qed.

Lemma grant_group_unknown_iff (st : State) (group : Z) (perm : string)
  (cls : Model) (pk : Z) :
  lookup_field st cls (group_perm_ (lower perm)) = None <->
  grant_group group perm (VInstance cls pk) st = (Raise UPE, st).
Proof.
  unfold grant_group, try_except, query, bind, getattr. cbv zeta.
  destruct (lookup_field st cls (group_perm_ (lower perm))) as [[| to rn] |]; simpl.
  - split; discriminate.
  - unfold gets.
    destruct (length _ =? 0)%nat; simpl; split; discriminate.
  - split; reflexivity.
Qed.

Lemma grant_plain_field (st : State) (user : Z) (perm : string) (cls : Model)
  (pk : Z) :
  lookup_field st cls (user_perm_ (lower perm)) = Some Plain ->
  grant user perm (VInstance cls pk) st = (Raise AttributeError, st).
Proof.
  intros H. unfold grant, try_except, query, bind, getattr. cbv zeta.
  now rewrite H.
Qed.

Lemma grant_group_plain_field (st : State) (group : Z) (perm : string)
  (cls : Model) (pk : Z) :
  lookup_field st cls (group_perm_ (lower perm)) = Some Plain ->
  grant_group group perm (VInstance cls pk) st = (Raise AttributeError, st).
Proof.
  intros H. unfold grant_group, try_except, query, bind, getattr. cbv zeta.
  now rewrite H.
Qed.

Lemma grant_group_returns (st : State) (group : Z) (perm : string)
  (cls : Model) (pk : Z) (to : Target) (rn : string) :
  lookup_field st cls (group_perm_ (lower perm)) = Some (ManyToMany to rn) ->
  fst (grant_group group perm (VInstance cls pk) st) = Ok tt.
Proof.
  intros H. unfold grant_group, try_except, query, bind, getattr. cbv zeta.
  rewrite H. unfold filter_pk_count, gets.
  destruct (length _ =? 0)%nat; reflexivity.
Qed.

Lemma grant_relation_returns (st : State) (user : Z) (perm : string)
  (cls : Model) (pk : Z) (to : Target) (rn : string) :
  lookup_field st cls (user_perm_ (lower perm)) = Some (ManyToMany to rn) ->
  fst (grant user perm (VInstance cls pk) st) = Ok tt.
Proof.
  intros H. unfold grant, try_except, query, bind, getattr. cbv zeta.
  rewrite H. unfold filter_pk_count, gets.
  destruct (length _ =? 0)%nat; reflexivity.
Qed.

Lemma user_has_perm_unregistered_name (st : State) (user : Z) (perm : string)
  (obj : pyval) (groups : bool) (perms : PermDict) :
  get_model_perms (class_of obj) st = Ok perms ->
  ~ In perm (keys perms) ->
  user_has_perm user perm obj groups st = Ok false.
Proof.
  intros Hp Hn. unfold user_has_perm. rewrite Hp.
  destruct (mem_string perm (keys perms)) eqn:E; [| reflexivity].
  apply mem_string_In in E. contradiction.
Qed.




(** ** The authorization backend *)

Lemma user_has_perm_no_registration_error user perm obj groups :
  cannot_raise RegistrationException (user_has_perm user perm obj groups).
Proof.
  intros st. unfold user_has_perm. cbv zeta.
  destruct (get_model_perms (class_of obj) st) as [perms | e'].
  - destruct (negb (mem_string perm (keys perms))); [discriminate |].
    destruct (as_model_class (class_of obj)) as [cls | e1] eqn:E1; simpl.
    2: { destruct (class_of obj); simpl in E1; try discriminate;
         injection E1 as <-; discriminate. }
    destruct (pk_of obj) as [pk | e2] eqn:E2; simpl.
    2: { destruct obj; simpl in E2; try discriminate;
         injection E2 as <-; discriminate. }
    unfold filter_users.
    match goal with |- context [compileQ ?r ?q] =>
      destruct (compileQ r q) as [p | e3] eqn:E3 end; simpl; [discriminate |].
    intros E. injection E as ->.
    revert E3. simpl. unfold resolve_user.
    repeat match goal with
           | |- context [if ?b then _ else _] => destruct b; simpl
           | |- context [match reverse_lookup ?a ?b ?c with _ => _ end] =>
               destruct (reverse_lookup a b c) as [[? ?] |]; simpl
           end; discriminate.
  - destruct e'; discriminate.
Qed.

(** [has_perm] degrades to false: it never propagates
    [RegistrationException], and it answers false for an absent object, for
    an instance of an unregistered model, and for an anonymous visitor when
    no anonymous user is configured. *)
Lemma has_perm_degrades (self : ObjectPermBackend) (user_obj : UserObj)
  (perm : string) (st : State) :
  (forall obj, has_perm self user_obj perm obj st <> Raise RegistrationException)
  /\ has_perm self user_obj perm VNone st = Ok false
  /\ (forall cls pk, ~ In cls (registered st) ->
        has_perm self user_obj perm (VInstance cls pk) st = Ok false)
  /\ (anonymous self = None ->
      forall obj, has_perm self AnonymousUser perm obj st = Ok false).
Proof.
  repeat split.
  - intros obj. unfold has_perm.
    destruct (match user_obj with AuthUser pk => Some pk | AnonymousUser => anonymous self end);
      [| discriminate].
    destruct obj; try discriminate; apply user_has_perm_no_registration_error.
  - unfold has_perm. now destruct (match user_obj with AuthUser pk => Some pk | AnonymousUser => anonymous self end).
  - intros cls pk Hn. unfold has_perm.
    destruct (match user_obj with AuthUser pk => Some pk | AnonymousUser => anonymous self end);
      [| reflexivity].
    unfold user_has_perm. simpl.
    destruct (mem_model cls (registered st)) eqn:E; [| reflexivity].
    apply mem_model_In in E. contradiction.
  - intros Ha obj. unfold has_perm. now rewrite Ha.
Qed.

(** [get_all_permissions] answers the empty list for an absent object, for
    a value that is not a model instance, and for an anonymous visitor when
    no anonymous user is configured. *)
Lemma get_all_permissions_degrades (self : ObjectPermBackend)
  (user_obj : UserObj) (st : State) :
  get_all_permissions self user_obj VNone st = Ok []
  /\ get_all_permissions self user_obj VOtherObj st = Ok []
  /\ (forall cls, get_all_permissions self user_obj (VClass cls) st = Ok [])
  /\ (anonymous self = None ->
      forall obj, get_all_permissions self AnonymousUser obj st = Ok []).
Proof.
  unfold get_all_permissions. repeat split.
  - now destruct (match user_obj with AuthUser pk => Some pk | AnonymousUser => anonymous self end).
  - now destruct (match user_obj with AuthUser pk => Some pk | AnonymousUser => anonymous self end).
  - intros cls. now destruct (match user_obj with AuthUser pk => Some pk | AnonymousUser => anonymous self end).
  - intros Ha obj. now rewrite Ha.
Qed.

(** On an instance of an unregistered model, [get_all_permissions] lets the
    [RegistrationException] of [get_model_perms] through. *)
Lemma get_all_permissions_unregistered (self : ObjectPermBackend) (user : Z)
  (cls : Model) (pk : Z) (st : State) :
  ~ In cls (registered st) ->
  get_all_permissions self (AuthUser user) (VInstance cls pk) st
  = Raise RegistrationException.
Proof.
  intros Hn. unfold get_all_permissions. simpl.
  destruct (mem_model cls (registered st)) eqn:E; [| reflexivity].
  apply mem_model_In in E. contradiction.
Qed.

(** C1 at its failing input: [Unregistered] was never registered; on one of
    its instances [has_perm] answers false, but [get_all_permissions]
    raises [RegistrationException] instead of returning the empty list. *)
Theorem get_all_permissions_propagates_registration_error :
  mem_model Unregistered (registered restaurant_state) = false
  /\ has_perm (mkBackend None) (AuthUser 1) "eat" (VInstance Unregistered 1)
       restaurant_state = Ok false
  /\ get_all_permissions (mkBackend None) (AuthUser 1) (VInstance Unregistered 1)
       restaurant_state = Raise RegistrationException.
Proof. repeat split. Qed.

(** C5 at its failing input: the test model is registered with ["Perm1"],
    whose relations are provisioned under the lower-cased key; the resolver
    reads them through that key, but [get_all_permissions] builds its lookup
    from the name as registered, which no field carries, and the query fails
    with [FieldError]. *)
Theorem get_all_permissions_skips_lower :
  lookup_field test_model_state TestModel "user_perm_perm1"
  = Some (ManyToMany ToUser "perm_perm1_testmodel_set")
  /\ lookup_field test_model_state TestModel "group_perm_perm1"
     = Some (ManyToMany ToGroup "perm_perm1_testmodel_set")
  /\ lookup_field test_model_state TestModel "user_perm_Perm1" = None
  /\ get_user_perms 1 (VInstance TestModel 1) true test_model_state = Ok []
  /\ get_all_permissions (mkBackend None) (AuthUser 1) (VInstance TestModel 1)
       test_model_state = Raise FieldError.
Proof. repeat split. Qed.

(** ** The resolver *)

Lemma exists_filter_In {A : Type} (f : A -> bool) (l : list A) (x : A) :
  In x l -> f x = true -> exists_ (filter f l) = true.
Proof.
  intros Hin Hf. rewrite exists_filter. apply existsb_exists. now exists x.
Qed.

(** When none of the requested names is registered the query of
    [user_has_any_perms] is left with [pk=user.pk] alone, which every stored
    user satisfies. *)
Lemma user_has_any_perms_nothing_effective (st : State) (user : Z)
  (cls : Model) (pk : Z) (perms : list string) (groups : bool) :
  In user (auth_user st) ->
  effective_perms perms (VClass cls) st = Ok [] ->
  user_has_any_perms user (VInstance cls pk) perms groups st = Ok true.
Proof.
  intros Hu He. unfold user_has_any_perms. simpl. rewrite He. simpl.
  f_equal. apply exists_filter_In with (x := user); [assumption |].
  simpl. now rewrite Z.eqb_refl.
Qed.

(** C9 at its failing input: ["bogus"] is not registered for restaurants,
    so the effective permission set is empty; user 2 holds no permission on
    the restaurant, directly or through a group; the check returns true. *)
Theorem user_has_any_perms_empty_effective_set :
  effective_perms ["bogus"] (VClass Restaurant) granted_state = Ok []
  /\ get_user_perms 2 O1 true granted_state = Ok []
  /\ user_has_any_perms 2 O1 ["bogus"] true granted_state = Ok true.
Proof. repeat split. Qed.

(** With [groups] set, [instances_for] never returns: past the lookup of
    the reverse accessor it iterates over a manager. *)
Lemma instances_for_groups_raises (st : State) (u : Z) (k : string) :
  instances_for st true u k = Raise TypeError
  \/ instances_for st true u k = Raise AttributeError.
Proof.
  unfold instances_for, related_pks, iter_manager.
  destruct (reverse_lookup st ToUser k) as [[model f] |]; simpl; auto.
Qed.

(** C3 at its failing input: user 1 holds ["eat"] on a restaurant.  Asked
    for the users holding ["eat"] on some restaurant, with group
    inheritance (the default), [get_users_all] raises [TypeError]; without
    it, it returns the user. *)
Theorem get_users_all_type_level_raises :
  get_users_all (VClass Restaurant) ["eat"] false granted_state = Ok [1%Z]
  /\ get_users_all (VClass Restaurant) ["eat"] true granted_state
     = Raise TypeError.
Proof. repeat split. Qed.

Lemma groups_of_In (st : State) (user group : Z) :
  In group (groups_of st user) <-> is_member st user group.
Proof.
  unfold groups_of, is_member. rewrite in_map_iff. split.
  - intros [[u g] [E Hin]]. simpl in E. subst g.
    apply filter_In in Hin. destruct Hin as [Hin Hu]. simpl in Hu.
    apply Z.eqb_eq in Hu. now subst.
  - intros Hin. exists (user, group). split; [reflexivity |].
    apply filter_In. split; [assumption | apply Z.eqb_refl].
Qed.

Lemma get_model_perms_registered (st : State) (cls : Model) (perms : PermDict) :
  registered_with st cls perms ->
  get_model_perms (VClass cls) st = Ok perms.
Proof.
  intros (Hin & Hd & _). unfold get_model_perms.
  apply mem_model_In in Hin. now rewrite Hin, Hd.
Qed.

Lemma perm_set_not_pk (p m : string) : String.eqb (perm_set_ p m) "pk" = false.
Proof. reflexivity. Qed.

Lemma user_perm_not_pk (p : string) : String.eqb (user_perm_ p) "pk" = false.
Proof. reflexivity. Qed.

(** The value of [user_has_perm] on a registered permission. *)
Lemma user_has_perm_value (st : State) (user : Z) (perm : string) (cls : Model)
  (pk : Z) (perms : PermDict) (groups : bool) :
  registered_with st cls perms -> In perm (keys perms) ->
  user_has_perm user perm (VInstance cls pk) groups st =
  Ok (existsb
        (fun u =>
           existsb
             (fun g =>
                (if groups
                 then has_row st cls (user_perm_ (lower perm)) pk u
                      || match g with
                         | Some grp => has_row st cls (group_perm_ (lower perm)) pk grp
                         | None => false
                         end
                 else has_row st cls (user_perm_ (lower perm)) pk u)
                && Z.eqb u user)
             (None :: map Some (groups_of st u)))
        (auth_user st)).
Proof.
  intros Hreg Hin. unfold user_has_perm. simpl class_of.
  rewrite (get_model_perms_registered _ _ _ Hreg).
  apply mem_string_In in Hin. rewrite Hin. simpl negb. cbv iota.
  destruct Hreg as (_ & _ & Hprov). apply mem_string_In in Hin.
  destruct (Hprov perm Hin) as (_ & _ & Hru & Hrg).
  cbv zeta. simpl as_model_class. simpl pk_of. unfold rbind at 1 2.
  unfold filter_users.
  destruct groups; simpl compileQ; unfold resolve_user;
    rewrite ?perm_set_not_pk, ?Hru, ?Hrg; simpl; rewrite exists_filter;
    reflexivity.
Qed.

(** C4. Group inheritance in the single-permission check: for a stored
    user, a permission registered for the type of the object, and group
    inheritance enabled, [user_has_perm] returns true exactly when the user
    holds the user edge for the permission on the object or is a member of a
    group that holds the group edge; with group inheritance disabled it
    returns true exactly when the user holds the user edge, so a permission
    that comes only through a group is not seen. *)
Theorem user_has_perm_group_inheritance (st : State) (user : Z) (perm : string)
  (cls : Model) (pk : Z) (perms : PermDict) :
  registered_with st cls perms -> In perm (keys perms) ->
  In user (auth_user st) ->
  let obj := VInstance cls pk in
  (exists b, user_has_perm user perm obj true st = Ok b
             /\ (b = true <->
                 user_edge st cls perm pk user
                 \/ exists group, is_member st user group
                                  /\ group_edge st cls perm pk group))
  /\ (exists b, user_has_perm user perm obj false st = Ok b
                /\ (b = true <-> user_edge st cls perm pk user)).
Proof.
  intros Hreg Hin Hu obj. subst obj. split.
  - eexists. split; [apply (@user_has_perm_value st user perm cls pk perms true Hreg Hin) |].
    rewrite existsb_exists. split.
    + intros [u [_ H]]. apply existsb_exists in H. destruct H as [g [Hg H]].
      apply andb_true_iff in H. destruct H as [H E]. apply Z.eqb_eq in E. subst u.
      apply orb_true_iff in H. destruct H as [H | H].
      * left. now apply has_row_In.
      * right. destruct g as [grp |]; [| discriminate].
        exists grp. split; [| now apply has_row_In].
        destruct Hg as [Hg | Hg]; [discriminate |].
        apply in_map_iff in Hg. destruct Hg as [g' [E Hg]].
        injection E as ->. now apply groups_of_In.
    + intros [H | [grp [Hm H]]].
      * exists user. split; [assumption |]. apply existsb_exists.
        exists None. split; [now left |].
        apply has_row_In in H. rewrite H. simpl. apply Z.eqb_refl.
      * exists user. split; [assumption |]. apply existsb_exists.
        exists (Some grp). split.
        -- right. apply in_map. now apply groups_of_In.
        -- apply has_row_In in H. rewrite H, orb_true_r. simpl. apply Z.eqb_refl.
  - eexists. split; [apply (@user_has_perm_value st user perm cls pk perms false Hreg Hin) |].
    rewrite existsb_exists. split.
    + intros [u [_ H]]. apply existsb_exists in H. destruct H as [g [Hg H]].
      apply andb_true_iff in H. destruct H as [H E]. apply Z.eqb_eq in E. subst u.
      now apply has_row_In.
    + intros H. exists user. split; [assumption |]. apply existsb_exists.
      exists None. split; [now left |].
      apply has_row_In in H. rewrite H. simpl. apply Z.eqb_refl.
Qed.

Lemma restaurant_registered :
  registered_with granted_state Restaurant
    [("eat", no_meta); ("order", no_meta); ("pay", no_meta)].
Proof.
  split; [now left |]. split; [reflexivity |].
  intros perm [<- | [<- | [<- | []]]]; repeat split.
Qed.

Lemma user_has_perm_group_inheritance_witness :
  exists b, user_has_perm 1 "pay" O1 false granted_state = Ok b
            /\ (b = true <-> user_edge granted_state Restaurant "pay" 100 1).
Proof.
  apply (@user_has_perm_group_inheritance granted_state 1 "pay" Restaurant 100
           [("eat", no_meta); ("order", no_meta); ("pay", no_meta)]).
  - exact restaurant_registered.
  - simpl. right. right. left. reflexivity.
  - simpl. left. reflexivity.
Defined.

Lemma mem_string_set_of (x : string) (l : list string) :
  mem_string x (set_of l) = mem_string x l.
Proof.
  induction l as [| y l IH]; simpl; [reflexivity |].
  destruct (mem_string y l) eqn:E; simpl.
  - rewrite IH. destruct (String.eqb x y) eqn:Exy; [| reflexivity].
    apply String.eqb_eq in Exy. subst. now rewrite E.
  - now rewrite IH.
Qed.

Lemma effective_perms_pair (st : State) (cls : Model) (perms : PermDict)
  (a b : string) :
  registered_with st cls perms -> In a (keys perms) -> In b (keys perms) ->
  a <> b ->
  effective_perms [a; b] (VClass cls) st = Ok [a; b].
Proof.
  intros Hreg Ha Hb Hab. unfold effective_perms.
  rewrite (get_model_perms_registered _ _ _ Hreg). simpl.
  apply String.eqb_neq in Hab. rewrite Hab. simpl.
  rewrite !mem_string_set_of.
  apply mem_string_In in Ha, Hb. now rewrite Ha, Hb.
Qed.

Lemma objects_In (st : State) (cls : Model) (o : Z) :
  In o (map snd (filter (fun row => Model_eqb (fst row) cls) (tables st)))
  <-> In (cls, o) (tables st).
Proof.
  rewrite in_map_iff. split.
  - intros [[m o'] [E Hin]]. simpl in E. subst o'.
    apply filter_In in Hin. destruct Hin as [Hin Hm]. simpl in Hm.
    apply Model_eqb_eq in Hm. now subst.
  - intros Hin. exists (cls, o). split; [reflexivity |].
    apply filter_In. split; [assumption | apply Model_eqb_refl].
Qed.

Lemma holds_perm_b_spec (st : State) (cls : Model) (perm : string) (user : Z)
  (groups : bool) (obj : Z) :
  holds_perm_b st cls perm user groups obj = true <->
  holds_perm st cls perm user groups obj.
Proof.
  unfold holds_perm_b, holds_perm. destruct groups.
  - rewrite orb_true_iff, has_row_In, existsb_exists. split.
    + intros [H | [g [Hg H]]]; [now left | right].
      split; [reflexivity |]. exists g.
      split; [now apply groups_of_In | now apply has_row_In].
    + intros [H | [_ [g [Hg H]]]]; [now left | right].
      exists g. split; [now apply groups_of_In | now apply has_row_In].
  - rewrite has_row_In. split.
    + intros H. now left.
    + intros [H | [H _]]; [assumption | discriminate].
Qed.

(** The value of the type-level check on two registered permissions. *)
Lemma user_has_all_perms_value (st : State) (user : Z) (cls : Model)
  (perms : PermDict) (a b : string) (groups : bool) :
  registered_with st cls perms -> In a (keys perms) -> In b (keys perms) ->
  a <> b ->
  user_has_all_perms user (VClass cls) [a; b] groups st =
  Ok (existsb (fun o => holds_perm_b st cls a user groups o
                        && holds_perm_b st cls b user groups o)
        (map snd (filter (fun row => Model_eqb (fst row) cls) (tables st)))).
Proof.
  intros Hreg Ha Hb Hab. unfold user_has_all_perms. simpl is_model_instance.
  cbv iota. cbv zeta.
  rewrite (effective_perms_pair _ _ _ _ _ Hreg Ha Hb Hab).
  destruct Hreg as (_ & _ & Hprov).
  destruct (Hprov a Ha) as (Hua & Hga & _ & _).
  destruct (Hprov b Hb) as (Hub & Hgb & _ & _).
  unfold rbind at 1 2. simpl as_model_class. unfold rbind at 1.
  unfold filter_objects, holds_perm_b.
  destruct groups; simpl compileQ; unfold resolve_model;
    rewrite ?user_perm_not_pk, ?Hua, ?Hga, ?Hub, ?Hgb; simpl;
    rewrite exists_filter; reflexivity.
Qed.

(** C2. Type-level "all" semantics of the boolean check: for a type
    registered with the two distinct permissions [a] and [b], if the user
    holds [a] on object [o1] only and [b] on object [o2] only, with [o1] and
    [o2] distinct, then [user_has_all_perms] on the type with [a] and [b] is
    false; if the user holds both on one stored object [o1], it is true. *)
Theorem user_has_all_perms_type_level (st : State) (user : Z) (cls : Model)
  (perms : PermDict) (a b : string) (groups : bool) (o1 o2 : Z) :
  registered_with st cls perms -> In a (keys perms) -> In b (keys perms) ->
  a <> b ->
  ((forall o, holds_perm st cls a user groups o <-> o = o1) ->
   (forall o, holds_perm st cls b user groups o <-> o = o2) ->
   o1 <> o2 ->
   user_has_all_perms user (VClass cls) [a; b] groups st = Ok false)
  /\ (In (cls, o1) (tables st) ->
      holds_perm st cls a user groups o1 ->
      holds_perm st cls b user groups o1 ->
      user_has_all_perms user (VClass cls) [a; b] groups st = Ok true).
Proof.
  intros Hreg Ha Hb Hab.
  rewrite (@user_has_all_perms_value st user cls perms a b groups Hreg Ha Hb Hab).
  split.
  - intros Honly1 Honly2 Hne. f_equal.
    apply not_true_is_false. intros H.
    apply existsb_exists in H. destruct H as [o [_ H]].
    apply andb_true_iff in H. destruct H as [H1 H2].
    apply holds_perm_b_spec in H1, H2.
    apply Honly1 in H1. apply Honly2 in H2. congruence.
  - intros Hin H1 H2. f_equal. apply existsb_exists. exists o1. split.
    + now apply objects_In.
    + apply andb_true_iff. split; now apply holds_perm_b_spec.
Qed.

Lemma user_has_all_perms_type_level_witness :
  user_has_all_perms 1 (VClass Restaurant) ["eat"; "order"] true granted_state
  = Ok false
  /\ user_has_all_perms 1 (VClass Restaurant) ["eat"; "pay"] true granted_state
     = Ok true.
Proof.
  split.
  - apply (@user_has_all_perms_type_level granted_state 1 Restaurant
             [("eat", no_meta); ("order", no_meta); ("pay", no_meta)]
             "eat" "order" true 100 101).
    + exact restaurant_registered.
    + simpl. left. reflexivity.
    + simpl. right. left. reflexivity.
    + discriminate.
    + intros o. split.
      * intros [H | [_ [g [_ H]]]].
        -- destruct H as [H | [H | [H | []]]]; inversion H; reflexivity.
        -- destruct H as [H | [H | [H | []]]]; inversion H.
      * intros ->. left. left. reflexivity.
    + intros o. split.
      * intros [H | [_ [g [_ H]]]].
        -- destruct H as [H | [H | [H | []]]]; inversion H; reflexivity.
        -- destruct H as [H | [H | [H | []]]]; inversion H.
      * intros ->. left. right. left. reflexivity.
    + discriminate.
  - apply (@user_has_all_perms_type_level granted_state 1 Restaurant
             [("eat", no_meta); ("order", no_meta); ("pay", no_meta)]
             "eat" "pay" true 100 100).
    + exact restaurant_registered.
    + simpl. left. reflexivity.
    + simpl. right. right. left. reflexivity.
    + discriminate.
    + simpl. left. reflexivity.
    + left. left. reflexivity.
    + right. split; [reflexivity |]. exists 10%Z. split.
      * left. reflexivity.
      * right. right. left. reflexivity.
Defined.

(** ** Reconciliation by [set_user_perms] *)

Lemma flat_map_ext_In {A B : Type} (f g : A -> list B) (l : list A) :
  (forall a, In a l -> f a = g a) -> flat_map f l = flat_map g l.
Proof.
  induction l as [| x l IH]; simpl; intros H; [reflexivity |].
  rewrite (H x (or_introl eq_refl)), IH; [reflexivity |].
  intros a Ha. apply H. now right.
Qed.

Lemma for_each_cons_ok {A : Type} (body : A -> M unit) (x : A) (l : list A)
  (st st1 : State) :
  body x st = (Ok tt, st1) ->
  for_each (x :: l) body st = for_each l body st1.
Proof. intros H. simpl. unfold bind. now rewrite H. Qed.

Lemma for_each_cons_raise {A : Type} (body : A -> M unit) (x : A) (l : list A)
  (st st1 : State) (e : exn) :
  body x st = (Raise e, st1) ->
  for_each (x :: l) body st = (Raise e, st1).
Proof. intros H. simpl. unfold bind. now rewrite H. Qed.

Section Reconcile.
Variables (user : Z) (cls : Model) (pk : Z).

Lemma user_row_inj (p q : string) :
  user_row cls pk user p = user_row cls pk user q -> lower p = lower q.
Proof.
  unfold user_row, user_perm_. intros H. injection H as H'.
  simpl in H'. now repeat injection H' as H'.
Qed.

Lemma In_filter_not_manager (manager : Manager) (u : Z) (rows : list Row) (r : Row) :
  In r (filter (fun r => negb (in_manager manager u r)) rows) <->
  In r rows
  /\ r <> mkRow (mgr_model manager) (mgr_field manager) (mgr_obj manager) u.
Proof.
  rewrite filter_In, negb_true_iff. split; intros [H1 H2]; split; try assumption.
  - intros E. apply in_manager_eq in E. congruence.
  - destruct (in_manager manager u r) eqn:E; [| reflexivity].
    apply in_manager_eq in E. contradiction.
Qed.

(** One turn of the loop: it returns, touches nothing but the rows and the
    signals, makes the presence of the edge agree with [wanted], leaves
    every other row as it was, and sends the signal of the change. *)
Lemma set_user_perms_step_spec (st : State) (perm : string) (wanted : bool)
  (to : Target) (rn : string) :
  lookup_field st cls (user_perm_ (lower perm)) = Some (ManyToMany to rn) ->
  exists st',
    set_user_perms_step user (VInstance cls pk) (perm, wanted) st = (Ok tt, st')
    /\ fields st' = fields st
    /\ registered st' = registered st
    /\ permissions_for_model st' = permissions_for_model st
    /\ (In (user_row cls pk user perm) (m2m_rows st') <-> wanted = true)
    /\ (forall r, r <> user_row cls pk user perm ->
          (In r (m2m_rows st') <-> In r (m2m_rows st)))
    /\ signals st' =
       signals st ++ reconcile_signal st cls pk user (perm, wanted).
Proof.
  intros Hf. unfold set_user_perms_step, query, bind, getattr. rewrite Hf.
  unfold filter_pk_count, gets. rewrite count_pos_has_row, count_zero_has_row.
  unfold reconcile_signal.
  fold (has_row st cls (user_perm_ (lower perm)) pk user).
  destruct (has_row st cls (user_perm_ (lower perm)) pk user) eqn:Hrow;
    destruct wanted; simpl.
  - exists st. rewrite app_nil_r.
    do 4 (split; [reflexivity |]). split; [| split; [| reflexivity]].
    + split; [reflexivity |]. intros _. now apply has_row_In.
    + intros r _. reflexivity.
  - eexists. do 4 (split; [reflexivity |]). simpl.
    split; [| split; [| reflexivity]].
    + split; [| discriminate].
      intros H. apply In_filter_not_manager in H. simpl in H.
      destruct H as [_ H]. now contradiction H.
    + intros r Hr. rewrite In_filter_not_manager. simpl. tauto.
  - unfold has_row in Hrow. rewrite Hrow.
    eexists. do 4 (split; [reflexivity |]). simpl.
    split; [| split; [| reflexivity]].
    + split; [reflexivity |]. intros _. apply in_or_app. right. now left.
    + intros r Hr. rewrite in_app_iff. simpl. split; [| tauto].
      intros [H | [H | []]]; [assumption |]. symmetry in H. contradiction.
  - exists st. rewrite app_nil_r.
    do 4 (split; [reflexivity |]). split; [| split; [| reflexivity]].
    + split; [| discriminate].
      intros H. apply has_row_In in H. unfold user_row in H. congruence.
    + intros r _. reflexivity.
Qed.

(** The whole loop, over entries whose lower-cased names are pairwise
    distinct. *)
Lemma set_user_perms_loop_spec (l : list (string * bool)) :
  forall st : State,
  NoDup (map (fun entry => lower (fst entry)) l) ->
  (forall entry, In entry l ->
     exists to rn,
       lookup_field st cls (user_perm_ (lower (fst entry)))
       = Some (ManyToMany to rn)) ->
  exists st',
    for_each l (set_user_perms_step user (VInstance cls pk)) st = (Ok tt, st')
    /\ fields st' = fields st
    /\ registered st' = registered st
    /\ permissions_for_model st' = permissions_for_model st
    /\ (forall entry, In entry l ->
          (In (user_row cls pk user (fst entry)) (m2m_rows st')
           <-> snd entry = true))
    /\ (forall r, (forall entry, In entry l ->
                     r <> user_row cls pk user (fst entry)) ->
          (In r (m2m_rows st') <-> In r (m2m_rows st)))
    /\ signals st' =
       signals st ++ flat_map (reconcile_signal st cls pk user) l.
Proof.
  induction l as [| [perm wanted] l IH]; intros st Hnd Hfields.
  - exists st. simpl. rewrite app_nil_r. repeat split; auto; contradiction.
  - simpl in Hnd. inversion Hnd as [| ? ? Hnotin Hnd']; subst.
    destruct (Hfields (perm, wanted) (or_introl eq_refl)) as (to & rn & Hf).
    simpl in Hf.
    destruct (@set_user_perms_step_spec st perm wanted to rn Hf)
      as (st1 & Hstep & Hfl1 & Hreg1 & Hpm1 & Hrow1 & Hframe1 & Hsig1).
    assert (Hdiff : forall entry, In entry l ->
              user_row cls pk user (fst entry) <> user_row cls pk user perm).
    { intros entry Hin E. apply user_row_inj in E. apply Hnotin.
      rewrite <- E. apply in_map_iff. now exists entry. }
    destruct (IH st1 Hnd') as (st' & Hloop & Hfl & Hreg & Hpm & Hrows & Hframe & Hsig).
    { intros entry Hin. unfold lookup_field. rewrite Hfl1.
      apply Hfields. now right. }
    exists st'. rewrite (for_each_cons_ok _ _ l _ _ Hstep).
    split; [exact Hloop |].
    split; [congruence |]. split; [congruence |]. split; [congruence |].
    split; [| split].
    + intros entry [<- | Hin]; simpl.
      * rewrite <- Hrow1. apply Hframe.
        intros entry Hin E. now apply (Hdiff entry Hin).
      * now apply Hrows.
    + intros r Hr. rewrite Hframe.
      * apply Hframe1. apply (Hr (perm, wanted)). now left.
      * intros entry Hin. apply Hr. now right.
    + rewrite Hsig, Hsig1, <- app_assoc. f_equal. simpl. f_equal.
      apply flat_map_ext_In.
      intros [p w] Hin. unfold reconcile_signal.
      assert (E : has_row st1 cls (user_perm_ (lower p)) pk user
                  = has_row st cls (user_perm_ (lower p)) pk user).
      { apply eq_true_iff_eq. rewrite !has_row_In.
        apply Hframe1. apply (Hdiff (p, w) Hin). }
      now rewrite E.
Qed.
End Reconcile.

Lemma for_each_map {A B : Type} (g : A -> B) (body : B -> M unit) (l : list A) :
  for_each (map g l) body = for_each l (fun x => body (g x)).
Proof.
  induction l as [| x l IH]; simpl; [reflexivity | now rewrite IH].
Qed.

Lemma flat_map_map {A B C : Type} (g : A -> B) (f : B -> list C) (l : list A) :
  flat_map f (map g l) = flat_map (fun x => f (g x)) l.
Proof.
  induction l as [| x l IH]; simpl; [reflexivity | now rewrite IH].
Qed.

(** [revoke_all] runs the loop of [set_user_perms] with no name wanted. *)
Lemma revoke_all_as_reconcile (user : Z) (obj : pyval) (ks : list string) :
  for_each ks (revoke_all_step user obj)
  = for_each (map (fun p => (p, false)) ks) (set_user_perms_step user obj).
Proof. now rewrite for_each_map. Qed.

(** Setting a registered name in [all_perms] keeps the order of the keys. *)
Lemma dict_set_present (ks : list string) (x : string) :
  NoDup ks -> In x ks ->
  dict_set String.eqb (map (fun p => (p, false)) ks) x true
  = map (fun p => (p, String.eqb x p)) ks.
Proof.
  induction ks as [| k ks IH]; intros Hnd Hin; [contradiction |].
  inversion Hnd as [| ? ? Hnotin Hnd']; subst. simpl.
  destruct (String.eqb x k) eqn:E.
  - apply String.eqb_eq in E. subst k. f_equal.
    apply map_ext_in. intros p Hp.
    destruct (String.eqb x p) eqn:E'; [| reflexivity].
    apply String.eqb_eq in E'. subst. contradiction.
  - f_equal. apply IH; [assumption |].
    destruct Hin as [-> | Hin]; [| assumption].
    now rewrite String.eqb_refl in E.
Qed.

Lemma lower_keys_nodup (ks : list string) :
  Permutation ks ["eat"; "order"; "pay"] -> NoDup ks /\ NoDup (map lower ks).
Proof.
  intros Hp. split.
  - apply (Permutation_NoDup (Permutation_sym Hp)).
    repeat constructor; simpl; intuition discriminate.
  - apply (Permutation_NoDup (Permutation_sym (Permutation_map lower Hp))).
    repeat constructor; simpl; intuition discriminate.
Qed.

(** C6. Reconciliation by [set_user_perms]: on a type registered with the
    permissions eat, order and pay (in whatever order the registry iterates
    over them), for a user who holds exactly order on an object,
    [set_user_perms] with eat leaves the user holding exactly eat and sends
    exactly two signals, one [granted] for eat and one [revoked] for order
    (none for pay); and [set_user_perms] with no permission does what
    [revoke_all] does, after which the user holds none of the registered
    permissions on the object. *)
Theorem set_user_perms_reconciles (st : State) (user : Z) (cls : Model)
  (pk : Z) (perms : PermDict) :
  registered_with st cls perms ->
  Permutation (keys perms) ["eat"; "order"; "pay"] ->
  user_edge st cls "order" pk user ->
  ~ user_edge st cls "eat" pk user ->
  ~ user_edge st cls "pay" pk user ->
  let obj := VInstance cls pk in
  (exists st' sent,
      set_user_perms user ["eat"] obj st = (Ok ["eat"], st')
      /\ (forall perm, In perm (keys perms) ->
            (user_edge st' cls perm pk user <-> perm = "eat"))
      /\ signals st' = signals st ++ sent
      /\ Permutation sent
           [granted (PUser user) "eat" obj; revoked (PUser user) "order" obj])
  /\ (exists st',
         revoke_all user obj st = (Ok tt, st')
         /\ set_user_perms user [] obj st = (Ok [], st')
         /\ forall perm, In perm (keys perms) -> ~ user_edge st' cls perm pk user).
Proof.
  intros Hreg Hperm Horder Heat Hpay obj. subst obj.
  destruct (lower_keys_nodup _ Hperm) as [Hnd Hndl].
  pose proof (get_model_perms_registered _ _ _ Hreg) as Hgm.
  assert (Hfields : forall wanted : string -> bool,
            forall entry, In entry (map (fun p => (p, wanted p)) (keys perms)) ->
            exists to rn,
              lookup_field st cls (user_perm_ (lower (fst entry)))
              = Some (ManyToMany to rn)).
  { intros wanted entry Hin. apply in_map_iff in Hin.
    destruct Hin as [p [<- Hp]]. simpl.
    destruct Hreg as (_ & _ & Hprov). destruct (Hprov p Hp) as (Hu & _).
    eauto. }
  assert (Hmapl : forall wanted : string -> bool,
            map (fun entry : string * bool => lower (fst entry))
                (map (fun p => (p, wanted p)) (keys perms))
            = map lower (keys perms)).
  { intros wanted. rewrite map_map. reflexivity. }
  split.
  - destruct (set_user_perms_loop_spec user cls pk
                (map (fun p => (p, String.eqb "eat" p)) (keys perms)) st)
      as (st' & Hloop & _ & _ & _ & Hrows & _ & Hsig).
    { now rewrite Hmapl. }
    { apply Hfields. }
    exists st', (flat_map (reconcile_signal st cls pk user)
                   (map (fun p => (p, String.eqb "eat" p)) (keys perms))).
    split; [| split; [| split; [exact Hsig |]]].
    + unfold set_user_perms, bind, query. simpl class_of. rewrite Hgm.
      unfold desired. simpl fold_left.
      rewrite dict_set_present;
        [| assumption
         | apply (Permutation_in _ (Permutation_sym Hperm)); now left].
      rewrite Hloop. reflexivity.
    + intros perm Hin. unfold user_edge.
      rewrite (Hrows (perm, String.eqb "eat" perm)); cbn [fst snd].
      * rewrite String.eqb_eq. split; congruence.
      * apply in_map_iff. now exists perm.
    + rewrite flat_map_map.
      rewrite (Permutation_flat_map _ Hperm). simpl.
      apply has_row_In in Horder.
      assert (Heat' : has_row st cls (user_perm_ (lower "eat")) pk user = false).
      { apply not_true_is_false. intros H. apply Heat. now apply has_row_In. }
      assert (Hpay' : has_row st cls (user_perm_ (lower "pay")) pk user = false).
      { apply not_true_is_false. intros H. apply Hpay. now apply has_row_In. }
      simpl in Horder, Heat', Hpay'. rewrite Horder, Heat', Hpay'.
      apply Permutation_refl.
  - destruct (set_user_perms_loop_spec user cls pk
                (map (fun p => (p, false)) (keys perms)) st)
      as (st' & Hloop & _ & _ & _ & Hrows & _ & _).
    { now rewrite (Hmapl (fun _ => false)). }
    { apply (Hfields (fun _ => false)). }
    assert (Hrev : revoke_all user (VInstance cls pk) st = (Ok tt, st')).
    { unfold revoke_all, bind, query. simpl class_of. rewrite Hgm.
      rewrite revoke_all_as_reconcile. exact Hloop. }
    exists st'. split; [exact Hrev |]. split.
    + unfold set_user_perms, bind. now rewrite Hrev.
    + intros perm Hin H. unfold user_edge in H.
      apply (Hrows (perm, false)) in H; [discriminate |].
      apply in_map_iff. now exists perm.
Qed.

Lemma set_user_perms_reconciles_witness :
  exists st' sent,
    set_user_perms 1 ["eat"] O2 granted_state = (Ok ["eat"], st')
    /\ (forall perm,
          In perm (keys [("eat", no_meta); ("order", no_meta); ("pay", no_meta)]) ->
          (user_edge st' Restaurant perm 101 1 <-> perm = "eat"))
    /\ signals st' = signals granted_state ++ sent
    /\ Permutation sent
         [granted (PUser 1) "eat" O2; revoked (PUser 1) "order" O2].
Proof.
  apply (set_user_perms_reconciles granted_state 1 Restaurant 101
           [("eat", no_meta); ("order", no_meta); ("pay", no_meta)]).
  - exact restaurant_registered.
  - apply Permutation_refl.
  - right. left. reflexivity.
  - intros [H | [H | [H | []]]]; discriminate.
  - intros [H | [H | [H | []]]]; discriminate.
Defined.

(** ** Registration and the delayed queue *)

Lemma extends_refl (st : State) : extends st st.
Proof. repeat split; auto. Qed.

Lemma extends_trans (a b c : State) : extends a b -> extends b c -> extends a c.
Proof.
  intros (Hd1 & Hp1 & Hs1 & Hr1 & Hg1 & Hm1) (Hd2 & Hp2 & Hs2 & Hr2 & Hg2 & Hm2).
  repeat split; try congruence.
  - apply Hm2, Hm1, H.
  - destruct (Hm1 m H) as (Hin & E1 & _). destruct (Hm2 m Hin) as (_ & E2 & _).
    congruence.
  - destruct (Hm1 m H) as (Hin & _ & E1). destruct (Hm2 m Hin) as (_ & _ & E2).
    congruence.
Qed.

Lemma dict_get_set_other {V : Type} (d : list (Model * V)) (k k' : Model) (v : V) :
  k <> k' -> dict_get Model_eqb (dict_set Model_eqb d k v) k' = dict_get Model_eqb d k'.
Proof.
  intros Hne. induction d as [| [k0 v0] d IH]; simpl.
  - destruct (Model_eqb k' k) eqn:E; [| reflexivity].
    apply Model_eqb_eq in E. congruence.
  - destruct (Model_eqb k k0) eqn:E; simpl.
    + apply Model_eqb_eq in E. subst k0.
      destruct (Model_eqb k' k) eqn:E'; [| reflexivity].
      apply Model_eqb_eq in E'. congruence.
    + destruct (Model_eqb k' k0); [reflexivity | exact IH].
Qed.

Lemma dict_get_set_same {V : Type} (d : list (Model * V)) (k : Model) (v : V) :
  dict_get Model_eqb (dict_set Model_eqb d k v) k = Some v.
Proof.
  induction d as [| [k0 v0] d IH]; simpl.
  - now rewrite Model_eqb_refl.
  - destruct (Model_eqb k k0) eqn:E; simpl; rewrite E; [reflexivity | exact IH].
Qed.

(** [_register] without its transaction wrappers, which change nothing. *)
Lemma _register_unfold (params : PermDict) (model : Model) (app_label : string)
  (st : State) :
  _register params model app_label st =
  (is_registered <- gets (fun st => mem_model model (registered st)) ;;
   if is_registered
   then warn (WDoubleRegister model)
   else
     for_each (keys params) (_register_perm params model) ;;;
     modify (fun st => set_registered (registered st ++ [model]) st) ;;;
     modify (fun st =>
       set_permissions_for_model
         (dict_set Model_eqb (permissions_for_model st) model params) st) ;;;
     modify (fun st =>
       set_params_for_model
         (dict_set Model_eqb (params_for_model st) model params) st) ;;;
     modify (fun st =>
       set_class_names
         (dict_set String.eqb (class_names st) (cls_name model) model) st)) st.
Proof.
  unfold _register, try_finally, except_reraise, transaction_rollback,
    transaction_commit, ret.
  match goal with |- (let (r, st') := match ?c with _ => _ end in _) = _ =>
    destruct c as [[u | e] st1] end; reflexivity.
Qed.

(** One permission of [_register]: whatever the outcome, only fields of
    [model] are added, in front of the others. *)
Lemma _register_perm_fields (params : PermDict) (model : Model) (perm : string)
  (st : State) :
  let st' := snd (_register_perm params model perm st) in
  st' = set_fields (fields st') st
  /\ exists added, fields st' = added ++ fields st
                   /\ Forall (fun f => f_model f = model) added.
Proof.
  unfold _register_perm, bind, gets, raise, contribute_to_class. cbv zeta.
  destruct st as [rg pm pa cn dl ps fl su au ag ug tb rows sg wn]. simpl.
  repeat match goal with
         | |- context [if ?b then _ else _] => destruct b eqn:?; simpl
         end;
    (split; [reflexivity |]);
    first [ exists []; split; [reflexivity | constructor]
          | eexists [_]; split; [reflexivity | repeat constructor]
          | eexists [_; _]; split; [reflexivity | repeat constructor] ].
Qed.

Lemma _register_loop_fields (params : PermDict) (model : Model) (l : list string) :
  forall st : State,
  let st' := snd (for_each l (_register_perm params model) st) in
  st' = set_fields (fields st') st
  /\ exists added, fields st' = added ++ fields st
                   /\ Forall (fun f => f_model f = model) added.
Proof.
  induction l as [| perm l IH]; intros st; simpl.
  - split; [now destruct st |]. exists []. split; [reflexivity | constructor].
  - pose proof (_register_perm_fields params model perm st) as H1.
    unfold bind. destruct (_register_perm params model perm st) as [[u | e] st1];
      simpl in H1 |- *.
    + destruct H1 as (E1 & a1 & F1 & A1).
      destruct (IH st1) as (E2 & a2 & F2 & A2).
      set (st2 := snd (for_each l (_register_perm params model) st1)) in *.
      split.
      * rewrite E2. rewrite E1. reflexivity.
      * exists (a2 ++ a1). split.
        -- now rewrite F2, F1, app_assoc.
        -- apply Forall_app. now split.
    + exact H1.
Qed.

Lemma field_names_added (model m : Model) (added fl : list Field) :
  Forall (fun f => f_model f = model) added -> m <> model ->
  map f_name (filter (fun f => Model_eqb (f_model f) m) (added ++ fl))
  = map f_name (filter (fun f => Model_eqb (f_model f) m) fl).
Proof.
  intros Ha Hne. rewrite filter_app.
  assert (E : filter (fun f => Model_eqb (f_model f) m) added = []).
  { induction Ha as [| f added Hf _ IH]; simpl; [reflexivity |].
    destruct (Model_eqb (f_model f) m) eqn:E; [| exact IH].
    apply Model_eqb_eq in E. congruence. }
  now rewrite E.
Qed.

(** The state [_register] leaves once the loop over the permissions has
    returned. *)
Lemma _register_cases (params : PermDict) (model : Model) (app_label : string)
  (st : State) :
  (mem_model model (registered st) = true
   /\ _register params model app_label st
      = (Ok tt, set_warnings (warnings st ++ [WDoubleRegister model]) st))
  \/ (mem_model model (registered st) = false
      /\ exists st1,
           (for_each (keys params) (_register_perm params model) st = (Ok tt, st1)
            /\ _register params model app_label st
               = (Ok tt,
                  set_class_names
                    (dict_set String.eqb (class_names st1) (cls_name model) model)
                    (set_params_for_model
                       (dict_set Model_eqb (params_for_model st1) model params)
                       (set_permissions_for_model
                          (dict_set Model_eqb (permissions_for_model st1) model params)
                          (set_registered (registered st1 ++ [model]) st1)))))
           \/ (exists e,
                 for_each (keys params) (_register_perm params model) st
                 = (Raise e, st1)
                 /\ _register params model app_label st = (Raise e, st1))).
Proof.
  rewrite _register_unfold.
  match goal with |- context [bind ?c ?k st] => set (run := bind c k st) end.
  assert (E : run =
              if mem_model model (registered st)
              then (Ok tt, set_warnings (warnings st ++ [WDoubleRegister model]) st)
              else match for_each (keys params) (_register_perm params model) st with
                   | (Ok _, st1) =>
                       (Ok tt,
                        set_class_names
                          (dict_set String.eqb (class_names st1) (cls_name model) model)
                          (set_params_for_model
                             (dict_set Model_eqb (params_for_model st1) model params)
                             (set_permissions_for_model
                                (dict_set Model_eqb (permissions_for_model st1)
                                   model params)
                                (set_registered (registered st1 ++ [model]) st1))))
                   | (Raise e, st1) => (Raise e, st1)
                   end).
  { subst run. unfold bind at 1, gets. cbv beta iota.
    destruct (mem_model model (registered st)); [reflexivity |].
    unfold bind at 1.
    destruct (for_each (keys params) (_register_perm params model) st)
      as [[[] | e] st1]; reflexivity. }
  rewrite E. clear E run.
  destruct (mem_model model (registered st)) eqn:Hreg.
  - left. split; reflexivity.
  - right. split; [reflexivity |].
    destruct (for_each (keys params) (_register_perm params model) st)
      as [[[] | e] st1]; exists st1.
    + left. split; reflexivity.
    + right. exists e. split; reflexivity.
Qed.

(** A registration attempt, whatever its outcome, extends the state. *)
Lemma _register_extends (params : PermDict) (model : Model) (app_label : string)
  (st : State) :
  extends st (snd (_register params model app_label st)).
Proof.
  destruct (_register_cases params model app_label st)
    as [[Hreg ->] | [Hreg [st1 [[Hloop ->] | [e [Hloop ->]]]]]].
  - simpl. repeat split; auto.
  - assert (Hne : forall m, In m (registered st) -> m <> model).
    { intros m Hin ->. apply mem_model_In in Hin. congruence. }
    pose proof (_register_loop_fields params model (keys params) st) as H.
    rewrite Hloop in H. simpl in H. destruct H as (E & added & F & A).
    rewrite E. simpl. repeat split; auto.
    + apply in_or_app. now left.
    + apply dict_get_set_other. intros ->. now apply (Hne m).
    + unfold get_all_field_names. simpl. rewrite F.
      apply field_names_added with (model := model); auto.
  - assert (Hne : forall m, In m (registered st) -> m <> model).
    { intros m Hin ->. apply mem_model_In in Hin. congruence. }
    pose proof (_register_loop_fields params model (keys params) st) as H.
    rewrite Hloop in H. simpl in H. destruct H as (E & added & F & A).
    rewrite E. simpl. repeat split; auto.
    unfold get_all_field_names. simpl. rewrite F.
    apply field_names_added with (model := model); auto.
Qed.

(** A registration attempt that returns leaves the model registered; one
    that raises leaves it unregistered. *)
Lemma _register_outcome (params : PermDict) (model : Model) (app_label : string)
  (st : State) :
  match fst (_register params model app_label st) with
  | Ok _ => In model (registered (snd (_register params model app_label st)))
  | Raise _ =>
      ~ In model (registered (snd (_register params model app_label st)))
  end.
Proof.
  destruct (_register_cases params model app_label st)
    as [[Hreg ->] | [Hreg [st1 [[Hloop ->] | [e [Hloop ->]]]]]]; simpl.
  - now apply mem_model_In.
  - apply in_or_app. right. now left.
  - pose proof (_register_loop_fields params model (keys params) st) as H.
    rewrite Hloop in H. simpl in H. destruct H as (E & _).
    rewrite E. simpl. intros Hin. apply mem_model_In in Hin. congruence.
Qed.

(** The loop of [_register_delayed] over a queue: the entries before the
    first failure are registered, the failing entry is not. *)
Lemma drain_loop (queue : list (PermDict * Model * string)) :
  forall st : State,
  let body := fun args : PermDict * Model * string =>
                let '(params, model, app_label) := args in
                _register params model app_label in
  let r := fst (for_each queue body st) in
  let st' := snd (for_each queue body st) in
  extends st st'
  /\ exists done rest,
       queue = done ++ rest
       /\ (forall entry, In entry done -> In (delayed_model entry) (registered st'))
       /\ match rest with
          | [] => r = Ok tt
          | entry :: _ =>
              (exists e, r = Raise e)
              /\ ~ In (delayed_model entry) (registered st')
          end.
Proof.
  induction queue as [| [[params model] app_label] queue IH]; intros st; simpl.
  - split; [apply extends_refl |]. exists [], []. repeat split. contradiction.
  - pose proof (_register_extends params model app_label st) as Hext.
    pose proof (_register_outcome params model app_label st) as Hout.
    unfold bind.
    destruct (_register params model app_label st) as [[[] | e] st1];
      simpl in Hext, Hout |- *.
    + destruct (IH st1) as (Hext' & done & rest & -> & Hdone & Hrest).
      split; [now apply extends_trans with (b := st1) |].
      exists ((params, model, app_label) :: done), rest.
      split; [reflexivity |]. split; [| exact Hrest].
      intros entry [<- | Hin]; [| now apply Hdone].
      now apply Hext'.
    + split; [exact Hext |].
      exists [], ((params, model, app_label) :: queue).
      split; [reflexivity |]. split; [contradiction |].
      split; [now exists e | exact Hout].
Qed.

Lemma _register_delayed_unfold (st : State) :
  _register_delayed st =
  match for_each (_DELAYED st)
          (fun args : PermDict * Model * string =>
             let '(params, model, app_label) := args in
             _register params model app_label) st with
  | (Ok _, st1) => (Ok tt, set_post_syncdb_connected false st1)
  | (Raise e, st1) =>
      if exn_eqb DatabaseError e then (Ok tt, st1) else (Raise e, st1)
  end.
Proof.
  unfold _register_delayed, try_except. unfold bind at 1, gets. cbv beta iota.
  unfold bind at 1.
  destruct (for_each (_DELAYED st) _ st) as [[[] | e] st1]; reflexivity.
Qed.

(** The loop of [_register_delayed], turn by turn: the entries attempted
    are a prefix of the queue; the loop ends with the queue or with the
    first attempt that raises, in the state that attempt left. *)
Lemma drain_trace (queue : list (PermDict * Model * string)) :
  forall st : State,
  let r := fst (for_each queue attempt st) in
  let st' := snd (for_each queue attempt st) in
  extends st st'
  /\ exists done rest st_done,
       queue = done ++ rest
       /\ for_each done attempt st = (Ok tt, st_done)
       /\ (forall entry, In entry done -> In (delayed_model entry) (registered st'))
       /\ match rest with
          | [] => r = Ok tt /\ st' = st_done
          | entry :: _ =>
              exists e,
                attempt entry st_done = (Raise e, st')
                /\ r = Raise e
                /\ ~ In (delayed_model entry) (registered st')
          end.
Proof.
  induction queue as [| [[params model] app_label] queue IH]; intros st; simpl.
  - split; [apply extends_refl |]. exists [], [], st.
    split; [reflexivity |]. split; [reflexivity |].
    split; [contradiction | split; reflexivity].
  - pose proof (_register_extends params model app_label st) as Hext.
    pose proof (_register_outcome params model app_label st) as Hout.
    unfold bind.
    destruct (_register params model app_label st) as [[[] | e] st1] eqn:Hreg;
      simpl in Hext, Hout |- *.
    + destruct (IH st1) as (Hext' & done & rest & st_done & -> & Hloop & Hdone & Hrest).
      split; [now apply extends_trans with (b := st1) |].
      exists ((params, model, app_label) :: done), rest, st_done.
      split; [reflexivity |]. split.
      { simpl. unfold bind. now rewrite Hreg. }
      split; [| exact Hrest].
      intros entry [<- | Hin]; [| now apply Hdone].
      now apply Hext'.
    + split; [exact Hext |].
      exists [], ((params, model, app_label) :: queue), st.
      split; [reflexivity |]. split; [reflexivity |].
      split; [contradiction |].
      exists e. split; [exact Hreg |]. split; [reflexivity | exact Hout].
Qed.

(** An attempt on a model that is already registered only warns. *)
Lemma attempt_registered (entry : PermDict * Model * string) (st : State) :
  In (delayed_model entry) (registered st) ->
  attempt entry st
  = (Ok tt,
     set_warnings (warnings st ++ [WDoubleRegister (delayed_model entry)]) st).
Proof.
  destruct entry as [[params model] app_label]. unfold delayed_model. simpl.
  intros Hin.
  destruct (_register_cases params model app_label st)
    as [[_ E] | [Hm _]]; [exact E |].
  apply mem_model_In in Hin. congruence.
Qed.

(** C10, as the code has it.  A drain attempts the queued registrations in
    order and stops at the first that raises: the entries before it have
    been attempted and have returned, the state the drain ends in is the
    state that failing attempt left, and no later entry is attempted.  An
    attempt on a model that is already registered is skipped with a
    warning.  The drain never removes (or adds) a queue entry, so an entry
    that fails again stays queued, and so does one that is registered; it
    never lets a schema-unavailable error through, and lets every other
    error through; it drops no registered model and changes neither the
    permissions nor the fields of a model that is already registered, which
    makes a repeated drain safe.  The entries before the first failure are
    registered afterwards; when no entry fails the hook is disconnected;
    the entry that fails is left unregistered. *)
Theorem drain_keeps_queue (st : State) :
  let r := fst (_register_delayed st) in
  let st' := snd (_register_delayed st) in
  _DELAYED st' = _DELAYED st
  /\ r <> Raise DatabaseError
  /\ (forall m, In m (registered st) ->
        In m (registered st')
        /\ dict_get Model_eqb (permissions_for_model st') m
           = dict_get Model_eqb (permissions_for_model st) m
        /\ get_all_field_names m st' = get_all_field_names m st)
  /\ (exists done rest st_done,
        _DELAYED st = done ++ rest
        /\ for_each done attempt st = (Ok tt, st_done)
        /\ (forall entry, In entry done ->
              In (delayed_model entry) (registered st'))
        /\ match rest with
           | [] =>
               r = Ok tt
               /\ post_syncdb_connected st' = false
               /\ st' = set_post_syncdb_connected false st_done
           | entry :: _ =>
               ~ In (delayed_model entry) (registered st')
               /\ exists e,
                    attempt entry st_done = (Raise e, st')
                    /\ r = (if exn_eqb DatabaseError e then Ok tt else Raise e)
           end)
  /\ (forall entry s,
        In (delayed_model entry) (registered s) ->
        attempt entry s
        = (Ok tt,
           set_warnings (warnings s ++ [WDoubleRegister (delayed_model entry)]) s)).
Proof.
  intros r st'. subst r st'. rewrite _register_delayed_unfold.
  split; [| split; [| split; [| split]]]; [| | | | exact attempt_registered].
  all: destruct (drain_trace (_DELAYED st) st)
    as ((Hd & Hp & Hs & Hr & Hg & Hm) & done & rest & st_done
        & Hq & Hloop & Hdone & Hrest);
    cbv zeta in Hd, Hp, Hs, Hr, Hg, Hm, Hdone, Hrest;
    change (fun args : PermDict * Model * string =>
              let '(params, model, app_label) := args in
              _register params model app_label) with attempt;
    destruct (for_each (_DELAYED st) attempt st) as [[[] | e] st1];
    cbn [fst snd] in Hd, Hp, Hs, Hr, Hg, Hm, Hdone, Hrest |- *.
  - exact Hd.
  - destruct e; exact Hd.
  - discriminate.
  - destruct e; simpl; discriminate.
  - exact Hm.
  - destruct e; exact Hm.
  - exists done, rest, st_done. split; [exact Hq |]. split; [exact Hloop |].
    split; [exact Hdone |].
    destruct rest as [| entry rest].
    + destruct Hrest as [_ ->]. split; [reflexivity |]. split; reflexivity.
    + destruct Hrest as [e [_ [He _]]]. discriminate.
  - exists done, rest, st_done. split; [exact Hq |]. split; [exact Hloop |].
    assert (Hsnd : snd (if exn_eqb DatabaseError e
                        then (@Ok unit tt, st1) else (Raise e, st1)) = st1)
      by (destruct (exn_eqb DatabaseError e); reflexivity).
    rewrite Hsnd. split; [exact Hdone |].
    destruct rest as [| entry rest].
    + destruct Hrest as [He _]. discriminate.
    + destruct Hrest as [e' [Ha [He Hn]]]. injection He as <-.
      split; [exact Hn |]. exists e. split; [exact Ha |].
      destruct (exn_eqb DatabaseError e); reflexivity.
Qed.

(** C10, as stated, fails: the restaurant was queued while its tables were
    missing; once they exist the drain registers it and disconnects the
    hook, and the entry is still in the queue. *)
Lemma drain_counterexample :
  registered after_syncdb = []
  /\ _DELAYED after_syncdb
     = [([("eat", no_meta); ("order", no_meta); ("pay", no_meta)], Restaurant, "app")]
  /\ fst (_register_delayed after_syncdb) = Ok tt
  /\ registered (snd (_register_delayed after_syncdb)) = [Restaurant]
  /\ post_syncdb_connected (snd (_register_delayed after_syncdb)) = false
  /\ _DELAYED (snd (_register_delayed after_syncdb))
     = [([("eat", no_meta); ("order", no_meta); ("pay", no_meta)], Restaurant, "app")]
  /\ _DELAYED (snd (_register_delayed after_syncdb)) <> [].
Proof. repeat split. discriminate. Qed.

(** While the tables are missing the drain leaves the entry queued and
    unregistered, and the hook connected. *)
Lemma drain_before_syncdb :
  fst (_register_delayed before_syncdb) = Ok tt
  /\ registered (snd (_register_delayed before_syncdb)) = []
  /\ post_syncdb_connected (snd (_register_delayed before_syncdb)) = true
  /\ _DELAYED (snd (_register_delayed before_syncdb)) = _DELAYED before_syncdb.
Proof. repeat split. Qed.

Lemma lookup_field_names (st : State) (model : Model) (name : string)
  (kind : FieldKind) :
  lookup_field st model name = Some kind ->
  mem_string name (get_all_field_names model st) = true.
Proof.
  unfold lookup_field, get_all_field_names. intros H.
  destruct (find _ (fields st)) as [f |] eqn:E; [| discriminate].
  apply find_some in E. destruct E as [Hin Hf].
  apply andb_true_iff in Hf. destruct Hf as [Hm Hn].
  apply mem_string_In. apply in_map_iff. exists f.
  apply String.eqb_eq in Hn. split; [assumption |].
  apply filter_In. now split.
Qed.

(** One permission of [_register], when it returns: both names were free,
    and the two fields are now in front. *)
Lemma _register_perm_ok (params : PermDict) (model : Model) (perm : string)
  (st st' : State) :
  _register_perm params model perm st = (Ok tt, st') ->
  mem_string (user_perm_ (lower perm)) (get_all_field_names model st) = false
  /\ mem_string (group_perm_ (lower perm)) (get_all_field_names model st) = false
  /\ st' =
     set_fields
       (mkField model (group_perm_ (lower perm))
          (ManyToMany ToGroup (perm_set_ (lower perm) (lower (cls_name model))))
        :: mkField model (user_perm_ (lower perm))
             (ManyToMany ToUser (perm_set_ (lower perm) (lower (cls_name model))))
        :: fields st) st.
Proof.
  unfold _register_perm, bind, gets, raise, contribute_to_class. cbv zeta.
  cbn [fst snd].
  destruct (mem_string (user_perm_ (lower perm)) (get_all_field_names model st));
    [discriminate |].
  destruct (mem_string (group_perm_ (lower perm)) (get_all_field_names model st));
    [discriminate |].
  destruct (mem_model model (schema_unavailable st)) eqn:E; [discriminate |].
  simpl. rewrite E. intros H. injection H as <-. repeat split.
Qed.

Lemma lookup_field_head (st : State) (model : Model) (name : string)
  (f : Field) (rest : list Field) :
  lookup_field (set_fields (f :: rest) st) model name =
  if Model_eqb (f_model f) model && String.eqb (f_name f) name
  then Some (f_kind f)
  else lookup_field (set_fields rest st) model name.
Proof.
  unfold lookup_field. simpl.
  now destruct (Model_eqb (f_model f) model && String.eqb (f_name f) name).
Qed.

Lemma set_fields_same (st : State) : set_fields (fields st) st = st.
Proof. now destruct st. Qed.

(** A field that is there stays there, under the same name, through the
    registration of one more permission. *)
Lemma _register_perm_keeps (params : PermDict) (model : Model) (perm : string)
  (st st' : State) (m : Model) (name : string) (kind : FieldKind) :
  _register_perm params model perm st = (Ok tt, st') ->
  lookup_field st m name = Some kind ->
  lookup_field st' m name = Some kind.
Proof.
  intros Hok Hl. destruct (_register_perm_ok _ _ _ _ _ Hok) as (Hu & Hg & ->).
  rewrite !lookup_field_head. cbn [f_model f_name f_kind].
  rewrite set_fields_same.
  destruct (Model_eqb model m) eqn:Em; [| exact Hl].
  apply Model_eqb_eq in Em. subst m.
  pose proof (lookup_field_names _ _ _ _ Hl) as Hn. cbn [andb].
  destruct (String.eqb (group_perm_ (lower perm)) name) eqn:E1.
  { apply String.eqb_eq in E1. subst name. congruence. }
  destruct (String.eqb (user_perm_ (lower perm)) name) eqn:E2.
  { apply String.eqb_eq in E2. subst name. congruence. }
  exact Hl.
Qed.

Lemma for_each_cons_inv {A : Type} (body : A -> M unit) (x : A) (l : list A)
  (st st' : State) :
  for_each (x :: l) body st = (Ok tt, st') ->
  exists st1, body x st = (Ok tt, st1) /\ for_each l body st1 = (Ok tt, st').
Proof.
  simpl. unfold bind. destruct (body x st) as [[[] | e] st1]; intros H.
  - now exists st1.
  - discriminate.
Qed.

Lemma group_perm_not_user_perm (p : string) :
  String.eqb (group_perm_ p) (user_perm_ p) = false.
Proof. reflexivity. Qed.

(** The loop of [_register], when it returns: every field that was there is
    still found, and every permission of the loop has its two relations,
    under the lower-cased name. *)
Lemma _register_loop_provisions (params : PermDict) (model : Model)
  (l : list string) :
  forall st st' : State,
  for_each l (_register_perm params model) st = (Ok tt, st') ->
  (forall m name kind,
      lookup_field st m name = Some kind -> lookup_field st' m name = Some kind)
  /\ forall perm, In perm l ->
       lookup_field st' model (user_perm_ (lower perm))
       = Some (ManyToMany ToUser (perm_set_ (lower perm) (lower (cls_name model))))
       /\ lookup_field st' model (group_perm_ (lower perm))
          = Some (ManyToMany ToGroup (perm_set_ (lower perm) (lower (cls_name model)))).
Proof.
  induction l as [| p l IH]; intros st st' Hloop.
  - simpl in Hloop. injection Hloop as <-. split; [auto | contradiction].
  - apply for_each_cons_inv in Hloop. destruct Hloop as (st1 & Hstep & Hloop).
    destruct (IH st1 st' Hloop) as (Hkeep & Hl). split.
    + intros m name kind H. apply Hkeep.
      now apply (_register_perm_keeps _ _ _ _ _ _ _ _ Hstep).
    + intros perm [<- | Hin]; [| now apply Hl].
      destruct (_register_perm_ok _ _ _ _ _ Hstep) as (_ & _ & E).
      split; apply Hkeep; rewrite E, !lookup_field_head;
        cbn [f_model f_name f_kind]; rewrite Model_eqb_refl; cbn [andb].
      * rewrite group_perm_not_user_perm. now rewrite String.eqb_refl.
      * now rewrite String.eqb_refl.
Qed.

(** Registration derives the storage keys from the lower-cased name: when
    [_register] returns for a model that was not registered, the model is
    registered with the permissions given, and each of them has its
    junction relations at [user_perm_<lower-cased name>] and
    [group_perm_<lower-cased name>]. *)
Lemma _register_provisions (params : PermDict) (model : Model)
  (app_label : string) (st st' : State) :
  ~ In model (registered st) ->
  _register params model app_label st = (Ok tt, st') ->
  In model (registered st')
  /\ dict_get Model_eqb (permissions_for_model st') model = Some params
  /\ forall perm, In perm (keys params) ->
       lookup_field st' model (user_perm_ (lower perm))
       = Some (ManyToMany ToUser (perm_set_ (lower perm) (lower (cls_name model))))
       /\ lookup_field st' model (group_perm_ (lower perm))
          = Some (ManyToMany ToGroup (perm_set_ (lower perm) (lower (cls_name model)))).
Proof.
  intros Hn Hreg.
  destruct (_register_cases params model app_label st)
    as [[Hm _] | [_ [st1 [[Hloop E] | [e [_ E]]]]]].
  - apply mem_model_In in Hm. contradiction.
  - rewrite E in Hreg. injection Hreg as <-.
    destruct (_register_loop_provisions _ _ _ _ _ Hloop) as (_ & Hl).
    split; [| split].
    + simpl. apply in_or_app. right. now left.
    + simpl. apply dict_get_set_same.
    + exact Hl.
  - rewrite E in Hreg. discriminate.
Qed.

(** ** The type-level listing of [get_users_all] *)

Lemma keep_if_never_true {A : Type} (good : A -> result bool) (l kept : list A) :
  (forall x, good x <> Ok true) -> keep_if good l = Ok kept -> kept = [].
Proof.
  intros Hg. revert kept. induction l as [| x l IH]; simpl; intros kept H.
  - now injection H as <-.
  - specialize (Hg x). destruct (good x) as [[] | e]; simpl in H;
      [contradiction | | discriminate].
    destruct (keep_if good l) as [kept' | e]; simpl in H; [| discriminate].
    injection H as <-. now apply IH.
Qed.

(** With group inheritance the type-level listing never names a user: it
    either raises or returns the empty list. *)
Lemma get_users_all_groups_lists_nobody (st : State) (cls : Model)
  (perms : list string) (users : list Z) :
  get_users_all (VClass cls) perms true st = Ok users -> users = [].
Proof.
  unfold get_users_all. simpl is_model_instance. cbv iota zeta.
  destruct (effective_perms perms (VClass cls) st) as [eff | e]; simpl;
    [| discriminate].
  match goal with |- context [fold_left ?f eff ?i] =>
    destruct (fold_left f eff i) as [q | e] end; simpl; [| discriminate].
  destruct (filter_users st q) as [candidates | e]; simpl; [| discriminate].
  apply keep_if_never_true. intros u.
  destruct eff as [| perm eff]; simpl; [discriminate |].
  destruct (instances_for_groups_raises st u
              (perm_set_ (lower perm) (lower (cls_name cls)))) as [-> | ->];
    discriminate.
Qed.

Lemma keep_if_filter {A : Type} (good : A -> result bool) (g : A -> bool)
  (l : list A) :
  (forall x, good x = Ok (g x)) -> keep_if good l = Ok (filter g l).
Proof.
  intros Hg. induction l as [| x l IH]; simpl; [reflexivity |].
  rewrite Hg, IH. simpl. now destruct (g x).
Qed.

Lemma collect_map {A B : Type} (f : A -> result B) (g : A -> B) (l : list A) :
  (forall x, In x l -> f x = Ok (g x)) -> collect f l = Ok (map g l).
Proof.
  induction l as [| x l IH]; simpl; intros H; [reflexivity |].
  rewrite (H x (or_introl eq_refl)), IH; [reflexivity |].
  intros y Hy. apply H. now right.
Qed.

Lemma In_inter_pks (a b : list Z) (o : Z) :
  In o (inter_pks a b) <-> In o a /\ In o b.
Proof.
  unfold inter_pks. rewrite filter_In, existsb_exists. split.
  - intros [Ha [y [Hy E]]]. apply Z.eqb_eq in E. subst. now split.
  - intros [Ha Hb]. split; [assumption |]. exists o. split; [assumption |].
    apply Z.eqb_refl.
Qed.

Lemma In_fold_inter (ls : list (list Z)) :
  forall (first : list Z) (o : Z),
  In o (fold_left inter_pks ls first) <-> In o first /\ Forall (In o) ls.
Proof.
  induction ls as [| l ls IH]; intros first o; simpl.
  - split; [intros H; split; [assumption | constructor] | tauto].
  - rewrite IH, In_inter_pks. split.
    + intros [[H1 H2] H3]. split; [assumption | now constructor].
    + intros [H1 H2]. inversion H2; subst. tauto.
Qed.

Lemma In_linked_objs (st : State) (cls : Model) (f : string) (u o : Z) :
  In o (linked_objs st cls f u) <-> In (mkRow cls f o u) (m2m_rows st).
Proof.
  unfold linked_objs. rewrite in_map_iff. split.
  - intros [[m f' o' u'] [E Hin]]. simpl in E. subst o'.
    apply filter_In in Hin. destruct Hin as [Hin H]. simpl in H.
    apply andb_true_iff in H. destruct H as [H Hu].
    apply andb_true_iff in H. destruct H as [Hm Hf].
    apply Model_eqb_eq in Hm. apply String.eqb_eq in Hf. apply Z.eqb_eq in Hu.
    now subst.
  - intros Hin. exists (mkRow cls f o u). split; [reflexivity |].
    apply filter_In. split; [assumption |]. simpl.
    now rewrite Model_eqb_refl, String.eqb_refl, Z.eqb_refl.
Qed.

Lemma nonempty_exists {A : Type} (l : list A) :
  (0 <? length l)%nat = true <-> exists x, In x l.
Proof.
  destruct l as [| x l]; simpl.
  - split; [discriminate | intros [x []]].
  - split; [intros _; exists x; now left | reflexivity].
Qed.

Lemma effective_perms_registered (st : State) (cls : Model) (perms : PermDict)
  (requested eff : list string) :
  registered_with st cls perms ->
  effective_perms requested (VClass cls) st = Ok eff ->
  forall p, In p eff -> In p (keys perms).
Proof.
  intros Hreg. unfold effective_perms.
  rewrite (get_model_perms_registered _ _ _ Hreg).
  destruct requested as [| r requested]; simpl; intros H; injection H as <-.
  - auto.
  - intros p Hp. apply filter_In in Hp. destruct Hp as [_ Hp].
    rewrite mem_string_set_of in Hp. now apply mem_string_In.
Qed.

(** The pre-filter of the type-level listing without group inheritance:
    one [__isnull=False] conjunct per effective permission. *)
Lemma type_level_prefilter (st : State) (cls : Model) (eff : list string)
  (f : result Q -> string -> result Q) :
  (forall acc p,
      f acc p =
      (q <-- acc ;;
       Ok (Q_and q (Q_leaf [perm_set_ (lower p) (lower (cls_name cls)); "isnull"]
                           (QBool false))))) ->
  (forall p, In p eff ->
     reverse_lookup st ToUser (perm_set_ (lower p) (lower (cls_name cls)))
     = Some (cls, user_perm_ (lower p))) ->
  forall q0 c0, compileQ (resolve_user st) q0 = Ok c0 ->
  exists q c,
    fold_left f eff (Ok q0) = Ok q
    /\ compileQ (resolve_user st) q = Ok c
    /\ forall r, holds c r =
                 holds c0 r
                 && forallb (fun p =>
                      (0 <? length (linked_objs st cls (user_perm_ (lower p)) (fst r)))%nat)
                      eff.
Proof.
  intros Hf. induction eff as [| p eff IH]; intros Hrev q0 c0 Hc0; simpl.
  - exists q0, c0. repeat split; auto. intros r. now rewrite andb_true_r.
  - rewrite Hf. simpl rbind.
    destruct (IH (fun p' Hp' => Hrev p' (or_intror Hp'))
                 (Q_and q0 (Q_leaf [perm_set_ (lower p) (lower (cls_name cls)); "isnull"]
                                   (QBool false)))
                 (q_combine andb c0
                    (Some (fun r : Z * option Z =>
                       negb (Nat.eqb (length (linked_objs st cls (user_perm_ (lower p))
                                                (fst r))) 0)))))
      as (q & c & Hq & Hc & Hholds).
    { simpl. rewrite Hc0. simpl. unfold resolve_user. simpl String.eqb.
      rewrite (Hrev p (or_introl eq_refl)). reflexivity. }
    exists q, c. split; [exact Hq |]. split; [exact Hc |].
    intros r. rewrite Hholds, andb_assoc. f_equal.
    assert (E : forall n : nat, negb (Nat.eqb n 0) = (0 <? n)%nat)
      by (intros [| n]; reflexivity).
    destruct c0 as [f0 |]; simpl; now rewrite E.
Qed.

(** Without group inheritance the type-level listing does what C3 says: it
    returns the stored users who hold every effective permission on one
    common object. *)
Lemma get_users_all_direct (st : State) (cls : Model) (perms : PermDict)
  (requested eff : list string) :
  registered_with st cls perms ->
  effective_perms requested (VClass cls) st = Ok eff ->
  eff <> [] ->
  exists users,
    get_users_all (VClass cls) requested false st = Ok users
    /\ forall u, In u users <->
                 In u (auth_user st)
                 /\ exists o, forall p, In p eff -> user_edge st cls p o u.
Proof.
  intros Hreg Heff Hne.
  assert (Hrev : forall p, In p eff ->
            reverse_lookup st ToUser (perm_set_ (lower p) (lower (cls_name cls)))
            = Some (cls, user_perm_ (lower p))).
  { intros p Hp. pose proof (effective_perms_registered _ _ _ _ _ Hreg Heff p Hp) as Hk.
    destruct Hreg as (_ & _ & Hprov). now destruct (Hprov p Hk) as (_ & _ & H & _). }
  unfold get_users_all. simpl is_model_instance. cbv iota zeta.
  rewrite Heff. simpl rbind.
  match goal with |- context [fold_left ?f eff (Ok Q_empty)] =>
    destruct (type_level_prefilter st cls eff f) with (q0 := Q_empty)
                                                        (c0 := @None (Z * option Z -> bool))
      as (q & c & Hq & Hc & Hholds)
  end.
  { intros [acc | e] p; reflexivity. }
  { exact Hrev. }
  { reflexivity. }
  rewrite Hq. simpl rbind. unfold filter_users. rewrite Hc. simpl rbind.
  set (good := fun u : Z =>
         match map (fun p => linked_objs st cls (user_perm_ (lower p)) u) eff with
         | first :: others => (0 <? length (fold_left inter_pks others first))%nat
         | [] => false
         end).
  rewrite keep_if_filter with (g := good).
  2: { intros u. rewrite collect_map
         with (g := fun k => match reverse_lookup st ToUser k with
                             | Some (m, f) => linked_objs st m f u
                             | None => []
                             end).
       - simpl rbind. rewrite map_map. unfold good.
         rewrite (map_ext_in _ (fun p => linked_objs st cls (user_perm_ (lower p)) u)).
         + now destruct (map _ eff).
         + intros p Hp. now rewrite (Hrev p Hp).
       - intros k Hk. apply in_map_iff in Hk. destruct Hk as [p [<- Hp]].
         unfold instances_for, related_pks. now rewrite (Hrev p Hp). }
  eexists. split; [reflexivity |].
  intros u. rewrite !filter_In.
  assert (Hgood : good u = true <->
                  exists o, forall p, In p eff -> user_edge st cls p o u).
  { unfold good. destruct eff as [| p0 eff0]; [contradiction |]. simpl map.
    rewrite nonempty_exists. split.
    - intros [o Ho]. exists o. apply In_fold_inter in Ho. destruct Ho as [H0 Hall].
      intros p [<- | Hp]; [now apply In_linked_objs |].
      rewrite Forall_forall in Hall. apply In_linked_objs, Hall.
      apply in_map_iff. now exists p.
    - intros [o Ho]. exists o. apply In_fold_inter. split.
      + apply In_linked_objs. apply Ho. now left.
      + apply Forall_forall. intros l Hl. apply in_map_iff in Hl.
        destruct Hl as [p [<- Hp]]. apply In_linked_objs. apply Ho. now right. }
  rewrite Hgood. split.
  - intros [[Hu _] Hg]. now split.
  - intros [Hu Hg]. split; [split; [assumption |] | assumption].
    simpl. rewrite Hholds. simpl. apply orb_true_iff. left.
    apply forallb_forall. intros p Hp. apply nonempty_exists.
    destruct Hg as [o Ho]. exists o. now apply In_linked_objs, Ho.
Qed.

(** ** What registration establishes *)

Lemma append_length (a b : string) :
  String.length (a ++ b) = (String.length a + String.length b)%nat.
Proof. induction a as [| c a IH]; simpl; [reflexivity | now rewrite IH]. Qed.

Lemma append_cancel_r (a b s : string) :
  (a ++ s)%string = (b ++ s)%string -> a = b.
Proof.
  revert b. induction a as [| c a IH]; intros [| d b] H; simpl in H.
  - reflexivity.
  - apply (f_equal String.length) in H. simpl in H. rewrite append_length in H. lia.
  - apply (f_equal String.length) in H. simpl in H. rewrite append_length in H. lia.
  - injection H as -> H. f_equal. now apply IH.
Qed.

Lemma perm_set_inj (p q m : string) : perm_set_ p m = perm_set_ q m -> p = q.
Proof.
  unfold perm_set_. simpl. intros H. repeat injection H as H.
  now apply append_cancel_r in H.
Qed.

(** The fields the loop of [_register] has added: the two relations of
    each permission of the loop, and nothing else. *)
Lemma _register_loop_added (params : PermDict) (model : Model) (l : list string) :
  forall st st' : State,
  for_each l (_register_perm params model) st = (Ok tt, st') ->
  exists added,
    fields st' = added ++ fields st
    /\ forall f, In f added <->
         exists perm, In perm l
           /\ (f = mkField model (user_perm_ (lower perm))
                     (ManyToMany ToUser (perm_set_ (lower perm) (lower (cls_name model))))
               \/ f = mkField model (group_perm_ (lower perm))
                        (ManyToMany ToGroup
                           (perm_set_ (lower perm) (lower (cls_name model))))).
Proof.
  induction l as [| p l IH]; intros st st' Hloop.
  - simpl in Hloop. injection Hloop as <-. exists []. split; [reflexivity |].
    intros f. split; [contradiction | intros [perm [[] _]]].
  - apply for_each_cons_inv in Hloop. destruct Hloop as (st1 & Hstep & Hloop).
    destruct (_register_perm_ok _ _ _ _ _ Hstep) as (_ & _ & E).
    destruct (IH st1 st' Hloop) as (added & Hf & Hadded).
    eexists (added ++ [_; _]). split.
    + rewrite Hf, E. simpl. now rewrite <- app_assoc.
    + intros f. rewrite in_app_iff, Hadded. simpl. split.
      * intros [[perm [Hin H]] | [<- | [<- | []]]].
        -- exists perm. split; [now right | exact H].
        -- exists p. split; [now left | now right].
        -- exists p. split; [now left | now left].
      * intros [perm [[<- | Hin] H]].
        -- right. destruct H as [-> | ->]; auto.
        -- left. now exists perm.
Qed.

(** When [_register] returns for a model that was not registered, and no
    field of the state already answers to the reverse accessors it is about
    to use, the model is registered with the permissions given and each of
    them is provisioned. *)
Lemma _register_registered_with (params : PermDict) (model : Model)
  (app_label : string) (st st' : State) :
  ~ In model (registered st) ->
  (forall f perm to,
      In f (fields st) -> In perm (keys params) ->
      f_kind f <> ManyToMany to (perm_set_ (lower perm) (lower (cls_name model)))) ->
  _register params model app_label st = (Ok tt, st') ->
  registered_with st' model params.
Proof.
  intros Hn Hfresh Hreg.
  destruct (_register_provisions _ _ _ _ _ Hn Hreg) as (Hin & Hd & Hfw).
  split; [exact Hin |]. split; [exact Hd |].
  intros perm Hp. destruct (Hfw perm Hp) as (Hu & Hg).
  split; [exact Hu |]. split; [exact Hg |].
  destruct (_register_cases params model app_label st)
    as [[Hm _] | [_ [st1 [[Hloop E] | [e [_ E]]]]]].
  { apply mem_model_In in Hm. contradiction. }
  2: { rewrite E in Hreg. discriminate. }
  rewrite E in Hreg. injection Hreg as <-.
  destruct (_register_loop_added _ _ _ _ _ Hloop) as (added & Hf & Hadded).
  assert (Hrev : forall to name,
            (name = user_perm_ (lower perm) /\ to = ToUser)
            \/ (name = group_perm_ (lower perm) /\ to = ToGroup) ->
            reverse_lookup
              (set_class_names
                 (dict_set String.eqb (class_names st1) (cls_name model) model)
                 (set_params_for_model
                    (dict_set Model_eqb (params_for_model st1) model params)
                    (set_permissions_for_model
                       (dict_set Model_eqb (permissions_for_model st1) model params)
                       (set_registered (registered st1 ++ [model]) st1))))
              to (perm_set_ (lower perm) (lower (cls_name model)))
            = Some (model, name)).
  { intros to name Hcase. unfold reverse_lookup. simpl fields.
    set (pred := fun f : Field =>
           match f_kind f with
           | ManyToMany to' related_name =>
               Target_eqb to to'
               && String.eqb related_name
                    (perm_set_ (lower perm) (lower (cls_name model)))
           | Plain => false
           end).
    destruct (find pred (fields st1)) as [f |] eqn:Efind.
    - apply find_some in Efind. destruct Efind as [Hfin Hpred].
      rewrite Hf in Hfin. apply in_app_or in Hfin.
      unfold pred in Hpred. destruct (f_kind f) as [| to' rn] eqn:Ek; [discriminate |].
      apply andb_true_iff in Hpred. destruct Hpred as [Hto Hrn].
      apply String.eqb_eq in Hrn. subst rn.
      destruct Hfin as [Hfin | Hfin].
      + apply Hadded in Hfin. destruct Hfin as [p' [_ [-> | ->]]];
          simpl in Ek; injection Ek as <- Ek;
          first [apply perm_set_inj in Ek | apply append_cancel_r in Ek];
          rewrite Ek; simpl;
          destruct Hcase as [[-> ->] | [-> ->]]; try discriminate; reflexivity.
      + exfalso. apply (Hfresh f perm to' Hfin Hp). exact Ek.
    - exfalso.
      assert (Hex : exists f, In f (fields st1) /\ pred f = true).
      { destruct Hcase as [[-> ->] | [-> ->]].
        - eexists. split.
          + rewrite Hf. apply in_or_app. left. apply Hadded.
            exists perm. split; [exact Hp | left; reflexivity].
          + unfold pred. simpl. apply String.eqb_refl.
        - eexists. split.
          + rewrite Hf. apply in_or_app. left. apply Hadded.
            exists perm. split; [exact Hp | right; reflexivity].
          + unfold pred. simpl. apply String.eqb_refl. }
      destruct Hex as [f [Hfin Hpred]].
      now rewrite (find_none _ _ Efind f Hfin) in Hpred. }
  split; apply Hrev; auto.
Qed.

(** ** The unique constraint is kept *)

Lemma manager_add_unique (a : attr) (pk : Z) (st : State) :
  unique_rows st -> unique_rows (snd (manager_add a pk st)).
Proof.
  unfold unique_rows. intros Hu. destruct a as [manager |]; simpl; [| exact Hu].
  destruct (existsb (in_manager manager pk) (m2m_rows st)) eqn:E; [exact Hu |].
  simpl. apply NoDup_app; [exact Hu | repeat constructor; intros [] |].
  intros r Hin [<- | []].
  assert (H : existsb (in_manager manager pk) (m2m_rows st) = true).
  { apply existsb_exists. eexists. split; [exact Hin |]. now apply in_manager_eq. }
  congruence.
Qed.

Lemma manager_remove_unique (a : attr) (pk : Z) (st : State) :
  unique_rows st -> unique_rows (snd (manager_remove a pk st)).
Proof.
  unfold unique_rows. intros Hu. destruct a as [manager |]; simpl; [| exact Hu].
  now apply NoDup_filter.
Qed.

(** [grant] and [revoke] keep the junction tables free of repeated rows. *)
Lemma grant_unique_rows (user : Z) (perm : string) (obj : pyval) (st : State) :
  unique_rows st -> unique_rows (snd (grant user perm obj st)).
Proof.
  intros Hu. unfold grant, try_except, query, bind. cbv zeta.
  destruct (getattr obj (user_perm_ (lower perm)) st) as [a | e]; simpl.
  - destruct a as [manager |]; simpl; [| exact Hu].
    destruct (length _ =? 0)%nat; simpl; [| exact Hu].
    apply (manager_add_unique (AManager manager) user st Hu).
  - destruct e; exact Hu.
Qed.

Lemma revoke_unique_rows (user : Z) (perm : string) (obj : pyval) (st : State) :
  unique_rows st -> unique_rows (snd (revoke user perm obj st)).
Proof.
  intros Hu. unfold revoke. cbv zeta.
  destruct (getattr obj (user_perm_ (lower perm)) st) as [a | e]; simpl.
  - unfold bind. destruct a as [manager |]; simpl; [| exact Hu].
    destruct (0 <? length _)%nat; simpl; [| exact Hu].
    apply (manager_remove_unique (AManager manager) user st Hu).
  - destruct e; exact Hu.
Qed.

(** * Further properties of the code *)

(** ** [revoke], and [grant] followed by [revoke] *)

Lemma filter_not_manager_app (manager : Manager) (u : Z) (rows : list Row) :
  existsb (in_manager manager u) rows = false ->
  filter (fun r => negb (in_manager manager u r))
    (rows ++ [mkRow (mgr_model manager) (mgr_field manager) (mgr_obj manager) u])
  = rows.
Proof.
  intros H. rewrite filter_app. simpl.
  assert (E : in_manager manager u
                (mkRow (mgr_model manager) (mgr_field manager) (mgr_obj manager) u)
              = true) by now apply in_manager_eq.
  rewrite E. simpl. rewrite app_nil_r.
  induction rows as [| r rows IH]; simpl in *; [reflexivity |].
  apply orb_false_iff in H. destruct H as [H1 H2].
  rewrite H1. simpl. now rewrite IH.
Qed.

Lemma revoke_present (st : State) (user : Z) (perm : string) (cls : Model)
  (pk : Z) (to : Target) (rn : string) :
  lookup_field st cls (user_perm_ (lower perm)) = Some (ManyToMany to rn) ->
  has_row st cls (user_perm_ (lower perm)) pk user = true ->
  revoke user perm (VInstance cls pk) st =
  (Ok tt,
   set_signals (signals st ++ [revoked (PUser user) perm (VInstance cls pk)])
     (set_m2m_rows
        (filter (fun r => negb (in_manager
                                  (mkManager cls (user_perm_ (lower perm)) pk) user r))
                (m2m_rows st))
        st)).
Proof.
  intros Hf Hrow. unfold revoke, getattr. rewrite Hf.
  unfold bind, filter_pk_count, gets. rewrite count_pos_has_row.
  unfold has_row in Hrow. rewrite Hrow. reflexivity.
Qed.

Lemma revoke_absent (st : State) (user : Z) (perm : string) (cls : Model)
  (pk : Z) (to : Target) (rn : string) :
  lookup_field st cls (user_perm_ (lower perm)) = Some (ManyToMany to rn) ->
  has_row st cls (user_perm_ (lower perm)) pk user = false ->
  revoke user perm (VInstance cls pk) st = (Ok tt, st).
Proof.
  intros Hf Hrow. unfold revoke, getattr. rewrite Hf.
  unfold bind, filter_pk_count, gets. rewrite count_pos_has_row.
  unfold has_row in Hrow. rewrite Hrow. reflexivity.
Qed.

(** X1. [revoke] on a permission whose junction relation exists returns,
    leaves the user without the edge, leaves every other row as it was, and
    sends one [revoked] signal when the edge was there and none when it was
    not. *)
Theorem revoke_removes_edge (st : State) (user : Z) (perm : string) (cls : Model)
  (pk : Z) (to : Target) (rn : string) :
  lookup_field st cls (user_perm_ (lower perm)) = Some (ManyToMany to rn) ->
  let obj := VInstance cls pk in
  let st' := snd (revoke user perm obj st) in
  fst (revoke user perm obj st) = Ok tt
  /\ ~ user_edge st' cls perm pk user
  /\ (forall r, r <> user_row cls pk user perm ->
        (In r (m2m_rows st') <-> In r (m2m_rows st)))
  /\ signals st' =
     signals st ++
     (if has_row st cls (user_perm_ (lower perm)) pk user
      then [revoked (PUser user) perm obj] else []).
Proof.
  intros Hf obj st'. subst obj st'.
  destruct (has_row st cls (user_perm_ (lower perm)) pk user) eqn:Hrow.
  - rewrite (revoke_present _ _ _ _ _ _ _ Hf Hrow). simpl.
    split; [reflexivity |]. split; [| split; [| reflexivity]].
    + unfold user_edge. intros H. apply In_filter_not_manager in H.
      destruct H as [_ H]. now apply H.
    + intros r Hr. rewrite In_filter_not_manager. simpl. unfold user_row in Hr. tauto.
  - rewrite (revoke_absent _ _ _ _ _ _ _ Hf Hrow). simpl.
    split; [reflexivity |]. split; [| split; [| now rewrite app_nil_r]].
    + unfold user_edge. intros H. apply has_row_In in H. congruence.
    + intros r _. reflexivity.
Qed.

Lemma revoke_removes_edge_witness :
  ~ user_edge (snd (revoke 1 "eat" O1 granted_state)) Restaurant "eat" 100 1.
Proof.
  pose proof (revoke_removes_edge granted_state 1 "eat" Restaurant 100 ToUser
                "perm_eat_restaurant_set") as H.
  destruct H as (_ & H & _).
  - reflexivity.
  - exact H.
Defined.

(** X2. [revoke] fails silently: when the object has no attribute under the
    lower-cased name (a permission that does not exist for its type, or an
    object that is no model instance), it returns without raising, changes
    nothing and sends no signal -- where [grant] raises
    [UnknownPermissionException]. *)
Theorem revoke_unknown_is_silent (st : State) (user : Z) (perm : string)
  (obj : pyval) :
  getattr obj (user_perm_ (lower perm)) st = Raise AttributeError ->
  revoke user perm obj st = (Ok tt, st)
  /\ grant user perm obj st = (Raise UnknownPermissionException, st).
Proof.
  intros H. unfold revoke, grant, try_except, query, bind. cbv zeta.
  rewrite H. split; reflexivity.
Qed.

Lemma revoke_unknown_is_silent_witness :
  revoke 1 "bogus" O1 granted_state = (Ok tt, granted_state)
  /\ grant 1 "bogus" O1 granted_state
     = (Raise UnknownPermissionException, granted_state).
Proof.
  apply (revoke_unknown_is_silent granted_state 1 "bogus" O1). reflexivity.
Defined.

(** X3. [grant] followed by [revoke] is a round trip on the store: from a
    state where the user does not hold the edge, both calls return, the
    junction rows end exactly as they started, and the two signals sent are
    [granted] then [revoked]. *)
Theorem grant_revoke_round_trip (st : State) (user : Z) (perm : string)
  (cls : Model) (pk : Z) (to : Target) (rn : string) :
  lookup_field st cls (user_perm_ (lower perm)) = Some (ManyToMany to rn) ->
  ~ user_edge st cls perm pk user ->
  let obj := VInstance cls pk in
  let st1 := snd (grant user perm obj st) in
  let st2 := snd (revoke user perm obj st1) in
  fst (grant user perm obj st) = Ok tt
  /\ user_edge st1 cls perm pk user
  /\ fst (revoke user perm obj st1) = Ok tt
  /\ m2m_rows st2 = m2m_rows st
  /\ signals st2 =
     signals st ++ [granted (PUser user) perm obj; revoked (PUser user) perm obj].
Proof.
  intros Hf Hno obj st1 st2. subst obj st1 st2.
  assert (Hrow : has_row st cls (user_perm_ (lower perm)) pk user = false).
  { apply not_true_is_false. intros H. apply Hno. now apply has_row_In. }
  rewrite (grant_absent st user perm cls pk to rn Hf Hrow). cbn [fst snd].
  set (st1 := set_signals _ _).
  assert (Hrow1 : has_row st1 cls (user_perm_ (lower perm)) pk user = true).
  { unfold has_row. simpl. apply existsb_app_true. now apply in_manager_eq. }
  rewrite (revoke_present st1 user perm cls pk to rn Hf Hrow1). cbn [fst snd].
  split; [reflexivity |]. split; [now apply has_row_In |].
  split; [reflexivity |]. split.
  - simpl. apply (filter_not_manager_app
                    (mkManager cls (user_perm_ (lower perm)) pk) user (m2m_rows st)).
    exact Hrow.
  - simpl. now rewrite <- app_assoc.
Qed.

Lemma grant_revoke_round_trip_witness :
  m2m_rows (snd (revoke 2 "pay" O1 (snd (grant 2 "pay" O1 granted_state))))
  = m2m_rows granted_state.
Proof.
  pose proof (grant_revoke_round_trip granted_state 2 "pay" Restaurant 100 ToUser
                "perm_pay_restaurant_set") as H.
  destruct H as (_ & _ & _ & H & _).
  - reflexivity.
  - intros [H | [H | [H | []]]]; discriminate.
  - exact H.
Defined.

(** ** The unique constraint as an invariant of the grant store *)

Lemma for_each_invariant {A : Type} (P : State -> Prop) (body : A -> M unit)
  (l : list A) :
  (forall x st, P st -> P (snd (body x st))) ->
  forall st, P st -> P (snd (for_each l body st)).
Proof.
  intros Hb. induction l as [| x l IH]; intros st HP; simpl; [exact HP |].
  unfold bind. specialize (Hb x st HP).
  destruct (body x st) as [[[] | e] st1]; simpl in Hb |- *; [now apply IH | exact Hb].
Qed.

Lemma reconcile_step_unique (principal : Z) (a : attr) (wanted : bool)
  (s1 s2 : Signal) (st : State) :
  unique_rows st ->
  unique_rows
    (snd ((n <- filter_pk_count a principal ;;
           if negb wanted && (0 <? n)%nat
           then manager_remove a principal ;;; send s1
           else if wanted && (n =? 0)%nat
           then manager_add a principal ;;; send s2
           else ret tt) st)).
Proof.
  intros Hu. unfold bind. destruct a as [manager |]; simpl; [| exact Hu].
  destruct (negb wanted && (0 <? length _)%nat); simpl.
  - apply (manager_remove_unique (AManager manager) principal st Hu).
  - destruct (wanted && (length _ =? 0)%nat); simpl; [| exact Hu].
    apply (manager_add_unique (AManager manager) principal st Hu).
Qed.

Lemma set_user_perms_step_unique (user : Z) (obj : pyval) (entry : string * bool)
  (st : State) :
  unique_rows st -> unique_rows (snd (set_user_perms_step user obj entry st)).
Proof.
  intros Hu. destruct entry as [perm wanted]. unfold set_user_perms_step.
  cbv zeta. unfold bind at 1, query.
  destruct (getattr obj (user_perm_ (lower perm)) st) as [a | e]; [| exact Hu].
  now apply reconcile_step_unique.
Qed.

Lemma revoke_all_unique_rows (user : Z) (obj : pyval) (st : State) :
  unique_rows st -> unique_rows (snd (revoke_all user obj st)).
Proof.
  intros Hu. unfold revoke_all. cbv zeta. unfold bind at 1, query.
  destruct (get_model_perms (class_of obj) st) as [perms | e]; [| exact Hu].
  rewrite revoke_all_as_reconcile.
  apply for_each_invariant; [| exact Hu].
  intros x s. apply set_user_perms_step_unique.
Qed.

Lemma set_user_perms_unique_rows (user : Z) (perms : list string) (obj : pyval)
  (st : State) :
  unique_rows st -> unique_rows (snd (set_user_perms user perms obj st)).
Proof.
  intros Hu. unfold set_user_perms. unfold bind at 1.
  destruct perms as [| p perms].
  - pose proof (revoke_all_unique_rows user obj st Hu) as H.
    destruct (revoke_all user obj st) as [[[] | e] st1]; exact H.
  - cbv zeta. unfold bind at 1, query.
    destruct (get_model_perms (class_of obj) st) as [registered_perms | e];
      [| exact Hu].
    pose proof (for_each_invariant unique_rows (set_user_perms_step user obj)
                  (desired registered_perms (p :: perms))
                  (fun x s => set_user_perms_step_unique user obj x s) st Hu) as H.
    destruct (for_each _ _ st) as [[[] | e] st1]; exact H.
Qed.

Lemma grant_group_unique_rows (group : Z) (perm : string) (obj : pyval)
  (st : State) :
  unique_rows st -> unique_rows (snd (grant_group group perm obj st)).
Proof.
  intros Hu. unfold grant_group, try_except, query, bind. cbv zeta.
  destruct (getattr obj (group_perm_ (lower perm)) st) as [a | e]; simpl.
  - destruct a as [manager |]; simpl; [| exact Hu].
    destruct (length _ =? 0)%nat; simpl; [| exact Hu].
    apply (manager_add_unique (AManager manager) group st Hu).
  - destruct e; exact Hu.
Qed.

Lemma revoke_group_unique_rows (group : Z) (perm : string) (obj : pyval)
  (st : State) :
  unique_rows st -> unique_rows (snd (revoke_group group perm obj st)).
Proof.
  intros Hu. unfold revoke_group. cbv zeta.
  destruct (getattr obj (group_perm_ (lower perm)) st) as [a | e]; simpl.
  - unfold bind. destruct a as [manager |]; simpl; [| exact Hu].
    destruct (0 <? length _)%nat; simpl; [| exact Hu].
    apply (manager_remove_unique (AManager manager) group st Hu).
  - destruct e; exact Hu.
Qed.



(** ** [set_user_perms] and [revoke_all] on any registered type *)

Lemma dict_set_map (f : string -> bool) (ks : list string) (x : string) :
  NoDup ks -> In x ks ->
  dict_set String.eqb (map (fun p => (p, f p)) ks) x true
  = map (fun p => (p, String.eqb x p || f p)) ks.
Proof.
  induction ks as [| k ks IH]; intros Hnd Hin; [contradiction |].
  inversion Hnd as [| ? ? Hnotin Hnd']; subst. simpl.
  destruct (String.eqb x k) eqn:E.
  - apply String.eqb_eq in E. subst k. simpl. f_equal.
    apply map_ext_in. intros p Hp.
    destruct (String.eqb x p) eqn:E'; [| reflexivity].
    apply String.eqb_eq in E'. subst. contradiction.
  - simpl. f_equal. apply IH; [assumption |].
    destruct Hin as [-> | Hin]; [| assumption].
    now rewrite String.eqb_refl in E.
Qed.

Lemma desired_fold (ks : list string) (requested : list string) :
  NoDup ks -> (forall p, In p requested -> In p ks) ->
  forall f : string -> bool,
  fold_left (fun d perm => dict_set String.eqb d perm true) requested
            (map (fun p => (p, f p)) ks)
  = map (fun p => (p, mem_string p requested || f p)) ks.
Proof.
  intros Hnd. induction requested as [| x requested IH]; intros Hsub f; simpl.
  - reflexivity.
  - rewrite dict_set_map; [| assumption | apply Hsub; now left].
    rewrite IH; [| intros p Hp; apply Hsub; now right].
    apply map_ext. intros p. rewrite (String.eqb_sym x p).
    destruct (String.eqb p x), (mem_string p requested), (f p); reflexivity.
Qed.

(** [all_perms] when every requested name is registered: the registered
    names in their order, each with whether it was requested. *)
Lemma desired_registered (perms : PermDict) (requested : list string) :
  NoDup (keys perms) -> (forall p, In p requested -> In p (keys perms)) ->
  desired perms requested
  = map (fun p => (p, mem_string p requested)) (keys perms).
Proof.
  intros Hnd Hsub. unfold desired.
  rewrite (desired_fold (keys perms) requested Hnd Hsub (fun _ => false)).
  apply map_ext. intros p. now rewrite orb_false_r.
Qed.

Lemma NoDup_map_lower (ks : list string) : NoDup (map lower ks) -> NoDup ks.
Proof.
  induction ks as [| k ks IH]; simpl; intros H; [constructor |].
  inversion H as [| ? ? Hnotin Hnd]; subst. constructor; [| now apply IH].
  intros Hin. apply Hnotin. now apply in_map.
Qed.

Lemma registered_fields (st : State) (cls : Model) (perms : PermDict)
  (wanted : string -> bool) :
  registered_with st cls perms ->
  forall entry, In entry (map (fun p => (p, wanted p)) (keys perms)) ->
  exists to rn,
    lookup_field st cls (user_perm_ (lower (fst entry))) = Some (ManyToMany to rn).
Proof.
  intros (_ & _ & Hprov) entry Hin. apply in_map_iff in Hin.
  destruct Hin as [p [<- Hp]]. simpl. destruct (Hprov p Hp) as (Hu & _). eauto.
Qed.

(** X5. [set_user_perms] sets the user's permissions to exactly the
    requested ones: on an instance of a registered type whose names are
    distinct once lower-cased, and for a non-empty request of registered
    names, it returns the request; afterwards the user holds a registered
    permission on the object exactly when it was requested; no row of
    another user, object or field is touched; and the signals sent are one
    [granted] per requested permission that was not held and one [revoked]
    per held permission that was not requested, and no other.  The loop
    runs over the fresh dictionary [all_perms], whose iteration order the
    source does not fix: in whatever order its entries are visited, the loop
    returns, leaves the same edges and the same frame, and sends those
    signals in the order of the visit. *)
Theorem set_user_perms_sets_exactly (st : State) (user : Z) (cls : Model)
  (pk : Z) (perms : PermDict) (requested : list string) :
  registered_with st cls perms ->
  NoDup (map lower (keys perms)) ->
  requested <> [] ->
  (forall p, In p requested -> In p (keys perms)) ->
  (exists st' sent,
      set_user_perms user requested (VInstance cls pk) st = (Ok requested, st')
      /\ (forall p, In p (keys perms) ->
            (user_edge st' cls p pk user <-> In p requested))
      /\ (forall r, (forall p, In p (keys perms) -> r <> user_row cls pk user p) ->
            (In r (m2m_rows st') <-> In r (m2m_rows st)))
      /\ signals st' = signals st ++ sent
      /\ Permutation sent
           (flat_map (fun p => reconcile_signal st cls pk user
                                 (p, mem_string p requested))
                     (keys perms)))
  /\ (forall order,
        Permutation order (desired perms requested) ->
        exists st',
          for_each order (set_user_perms_step user (VInstance cls pk)) st
          = (Ok tt, st')
          /\ (forall p, In p (keys perms) ->
                (user_edge st' cls p pk user <-> In p requested))
          /\ (forall r, (forall p, In p (keys perms) ->
                           r <> user_row cls pk user p) ->
                (In r (m2m_rows st') <-> In r (m2m_rows st)))
          /\ signals st' =
             signals st ++ flat_map (reconcile_signal st cls pk user) order).
Proof.
  intros Hreg Hndl Hne Hsub.
  pose proof (NoDup_map_lower _ Hndl) as Hnd.
  pose proof (desired_registered perms requested Hnd Hsub) as Hdes.
  assert (Hany : forall order,
             Permutation order (desired perms requested) ->
             exists st',
               for_each order (set_user_perms_step user (VInstance cls pk)) st
               = (Ok tt, st')
               /\ (forall p, In p (keys perms) ->
                     (user_edge st' cls p pk user <-> In p requested))
               /\ (forall r, (forall p, In p (keys perms) ->
                                r <> user_row cls pk user p) ->
                     (In r (m2m_rows st') <-> In r (m2m_rows st)))
               /\ signals st' =
                  signals st ++ flat_map (reconcile_signal st cls pk user) order).
  { intros order Hperm. rewrite Hdes in Hperm.
    destruct (set_user_perms_loop_spec user cls pk order st)
      as (st' & Hloop & _ & _ & _ & Hrows & Hframe & Hsig).
    { apply (Permutation_NoDup
               (Permutation_sym
                  (Permutation_map (fun entry => lower (fst entry)) Hperm))).
      now rewrite map_map. }
    { intros entry Hin.
      apply (registered_fields st cls perms (fun p => mem_string p requested) Hreg).
      exact (Permutation_in entry Hperm Hin). }
    exists st'. split; [exact Hloop |]. split; [| split; [| exact Hsig]].
    - intros p Hp. unfold user_edge.
      rewrite (Hrows (p, mem_string p requested)); cbn [fst snd].
      + apply mem_string_In.
      + apply (Permutation_in _ (Permutation_sym Hperm)).
        apply in_map_iff. now exists p.
    - intros r Hr. apply Hframe. intros entry Hin.
      apply (Permutation_in entry Hperm) in Hin. apply in_map_iff in Hin.
      destruct Hin as [p [<- Hp]]. now apply Hr. }
  split; [| exact Hany].
  destruct (Hany (desired perms requested) (Permutation_refl _))
    as (st' & Hloop & Hrows & Hframe & Hsig).
  exists st', (flat_map (reconcile_signal st cls pk user) (desired perms requested)).
  split; [| split; [exact Hrows | split; [exact Hframe | split; [exact Hsig |]]]].
  - destruct requested as [| x requested]; [contradiction |].
    unfold set_user_perms, bind, query. simpl class_of.
    rewrite (get_model_perms_registered _ _ _ Hreg).
    now rewrite Hloop.
  - rewrite Hdes, flat_map_map. apply Permutation_refl.
Qed.

Lemma set_user_perms_sets_exactly_witness :
  exists st',
    set_user_perms 1 ["pay"; "eat"] O2 granted_state = (Ok ["pay"; "eat"], st')
    /\ (forall p, In p ["eat"; "order"; "pay"] ->
          (user_edge st' Restaurant p 101 1 <-> In p ["pay"; "eat"])).
Proof.
  destruct (set_user_perms_sets_exactly granted_state 1 Restaurant 101
              [("eat", no_meta); ("order", no_meta); ("pay", no_meta)]
              ["pay"; "eat"]) as ((st' & sent & H1 & H2 & _) & _).
  - exact restaurant_registered.
  - simpl. repeat constructor; simpl; intuition discriminate.
  - discriminate.
  - simpl. intuition.
  - exists st'. split; [exact H1 | exact H2].
Defined.

(** X6. [revoke_all] on an instance of a registered type whose names are
    distinct once lower-cased returns; afterwards the user holds none of
    the registered permissions on the object; no other row is touched (in
    particular no group's, so a permission inherited from a group stays);
    and one [revoked] signal is sent per permission that was held, in
    registry order. *)
Theorem revoke_all_revokes_everything (st : State) (user : Z) (cls : Model)
  (pk : Z) (perms : PermDict) :
  registered_with st cls perms ->
  NoDup (map lower (keys perms)) ->
  exists st',
    revoke_all user (VInstance cls pk) st = (Ok tt, st')
    /\ (forall p, In p (keys perms) -> ~ user_edge st' cls p pk user)
    /\ (forall r, (forall p, In p (keys perms) -> r <> user_row cls pk user p) ->
          (In r (m2m_rows st') <-> In r (m2m_rows st)))
    /\ signals st' =
       signals st ++
       flat_map (fun p =>
                   if has_row st cls (user_perm_ (lower p)) pk user
                   then [revoked (PUser user) p (VInstance cls pk)] else [])
                (keys perms).
Proof.
  intros Hreg Hndl.
  destruct (set_user_perms_loop_spec user cls pk
              (map (fun p => (p, false)) (keys perms)) st)
    as (st' & Hloop & _ & _ & _ & Hrows & Hframe & Hsig).
  { now rewrite map_map. }
  { now apply registered_fields with (perms := perms) (wanted := fun _ => false). }
  exists st'. split; [| split; [| split]].
  - unfold revoke_all, bind, query. simpl class_of.
    rewrite (get_model_perms_registered _ _ _ Hreg).
    rewrite revoke_all_as_reconcile. exact Hloop.
  - intros p Hp H. unfold user_edge in H.
    apply (Hrows (p, false)) in H; [discriminate |].
    apply in_map_iff. now exists p.
  - intros r Hr. apply Hframe. intros entry Hin. apply in_map_iff in Hin.
    destruct Hin as [p [<- Hp]]. now apply Hr.
  - rewrite Hsig. now rewrite flat_map_map.
Qed.

Lemma revoke_all_revokes_everything_witness :
  exists st',
    revoke_all 1 O1 granted_state = (Ok tt, st')
    /\ signals st' = signals granted_state ++ [revoked (PUser 1) "eat" O1].
Proof.
  destruct (revoke_all_revokes_everything granted_state 1 Restaurant 100
              [("eat", no_meta); ("order", no_meta); ("pay", no_meta)])
    as (st' & H1 & _ & _ & H2).
  - exact restaurant_registered.
  - simpl. repeat constructor; simpl; intuition discriminate.
  - exists st'. split; [exact H1 | exact H2].
Defined.

(** ** Checks after [grant] and [revoke] *)

Lemma registered_with_frame (st st' : State) (cls : Model) (perms : PermDict) :
  registered st' = registered st ->
  permissions_for_model st' = permissions_for_model st ->
  fields st' = fields st ->
  registered_with st cls perms -> registered_with st' cls perms.
Proof.
  intros Hr Hp Hf (Hin & Hd & Hprov).
  unfold registered_with, provisioned, lookup_field, reverse_lookup in *.
  rewrite Hr, Hp, Hf. auto.
Qed.

Lemma user_has_perm_with_edge (st : State) (user : Z) (perm : string)
  (cls : Model) (pk : Z) (perms : PermDict) (groups : bool) :
  registered_with st cls perms -> In perm (keys perms) ->
  In user (auth_user st) ->
  user_edge st cls perm pk user ->
  user_has_perm user perm (VInstance cls pk) groups st = Ok true.
Proof.
  intros Hreg Hin Hu He.
  rewrite (user_has_perm_value st user perm cls pk perms groups Hreg Hin).
  f_equal. apply existsb_exists. exists user. split; [assumption |].
  apply existsb_exists. exists None. split; [now left |].
  apply has_row_In in He. rewrite Z.eqb_refl.
  destruct groups; rewrite He; reflexivity.
Qed.

Lemma user_has_perm_without_edge (st : State) (user : Z) (perm : string)
  (cls : Model) (pk : Z) (perms : PermDict) :
  registered_with st cls perms -> In perm (keys perms) ->
  ~ user_edge st cls perm pk user ->
  user_has_perm user perm (VInstance cls pk) false st = Ok false.
Proof.
  intros Hreg Hin He.
  rewrite (user_has_perm_value st user perm cls pk perms false Hreg Hin).
  f_equal. apply not_true_is_false. intros H.
  apply existsb_exists in H. destruct H as [u [_ H]].
  apply existsb_exists in H. destruct H as [g [_ H]].
  apply andb_true_iff in H. destruct H as [H E]. apply Z.eqb_eq in E. subst u.
  apply He. now apply has_row_In.
Qed.

(** X7. What [grant] writes the checks read back: for a stored user and a
    permission registered for the type of the object, [user_has_perm] is
    true after [grant], with or without group inheritance, and false without
    group inheritance after [revoke]. *)
Theorem grant_then_user_has_perm (st : State) (user : Z) (perm : string)
  (cls : Model) (pk : Z) (perms : PermDict) (groups : bool) :
  registered_with st cls perms -> In perm (keys perms) ->
  In user (auth_user st) ->
  let obj := VInstance cls pk in
  user_has_perm user perm obj groups (snd (grant user perm obj st)) = Ok true
  /\ user_has_perm user perm obj false (snd (revoke user perm obj st)) = Ok false.
Proof.
  intros Hreg Hin Hu obj. subst obj.
  assert (Hf : lookup_field st cls (user_perm_ (lower perm))
               = Some (ManyToMany ToUser
                         (perm_set_ (lower perm) (lower (cls_name cls))))).
  { destruct Hreg as (_ & _ & Hprov). now destruct (Hprov perm Hin). }
  split.
  - destruct (has_row st cls (user_perm_ (lower perm)) pk user) eqn:Hrow.
    + rewrite (grant_present _ _ _ _ _ _ _ Hf Hrow). cbn [snd].
      apply user_has_perm_with_edge with (perms := perms);
        [exact Hreg | exact Hin | exact Hu | now apply has_row_In].
    + rewrite (grant_absent _ _ _ _ _ _ _ Hf Hrow). cbn [snd].
      apply user_has_perm_with_edge with (perms := perms);
        [| exact Hin | exact Hu |].
      * now apply registered_with_frame with (st := st).
      * unfold user_edge. simpl. apply in_or_app. right. now left.
  - destruct (has_row st cls (user_perm_ (lower perm)) pk user) eqn:Hrow.
    + rewrite (revoke_present _ _ _ _ _ _ _ Hf Hrow). cbn [snd].
      apply user_has_perm_without_edge with (perms := perms); [| exact Hin |].
      * now apply registered_with_frame with (st := st).
      * unfold user_edge. simpl. intros H. apply In_filter_not_manager in H.
        destruct H as [_ H]. now apply H.
    + rewrite (revoke_absent _ _ _ _ _ _ _ Hf Hrow). cbn [snd].
      apply user_has_perm_without_edge with (perms := perms);
        [exact Hreg | exact Hin |].
      intros H. apply has_row_In in H. congruence.
Qed.

Lemma grant_then_user_has_perm_witness :
  user_has_perm 2 "order" O1 true (snd (grant 2 "order" O1 granted_state)) = Ok true
  /\ user_has_perm 2 "order" O1 false (snd (revoke 2 "order" O1 granted_state))
     = Ok false.
Proof.
  apply (grant_then_user_has_perm granted_state 2 "order" Restaurant 100
           [("eat", no_meta); ("order", no_meta); ("pay", no_meta)] true).
  - exact restaurant_registered.
  - simpl. right. left. reflexivity.
  - simpl. right. left. reflexivity.
Defined.

(** ** An unregistered model *)

Lemma get_model_perms_unregistered (st : State) (cls : Model) :
  ~ In cls (registered st) ->
  get_model_perms (VClass cls) st = Raise RegistrationException.
Proof.
  intros Hn. unfold get_model_perms.
  destruct (mem_model cls (registered st)) eqn:E; [| reflexivity].
  apply mem_model_In in E. contradiction.
Qed.

Lemma effective_perms_unregistered (st : State) (cls : Model)
  (perms : list string) :
  ~ In cls (registered st) ->
  effective_perms perms (VClass cls) st = Raise RegistrationException.
Proof.
  intros Hn. unfold effective_perms.
  rewrite (get_model_perms_unregistered st cls Hn). now destruct perms.
Qed.

(** X8. Only the single-permission checks treat an unregistered model as
    "no permission".  On an instance of a model that is not registered,
    [user_has_perm] and [group_has_perm] return false; [user_has_any_perms],
    [user_has_all_perms], [get_users_all], [get_user_perms], [revoke_all]
    and [set_user_perms] raise [RegistrationException], the last two without
    changing the state. *)
Theorem unregistered_model_checks_and_errors (st : State) (principal : Z)
  (cls : Model) (pk : Z) (perm : string) (perms : list string) (groups : bool) :
  ~ In cls (registered st) ->
  let obj := VInstance cls pk in
  user_has_perm principal perm obj groups st = Ok false
  /\ group_has_perm principal perm obj st = Ok false
  /\ user_has_any_perms principal obj perms groups st = Raise RegistrationException
  /\ user_has_all_perms principal obj perms groups st = Raise RegistrationException
  /\ user_has_any_perms principal (VClass cls) perms groups st
     = Raise RegistrationException
  /\ user_has_all_perms principal (VClass cls) perms groups st
     = Raise RegistrationException
  /\ get_users_all obj perms groups st = Raise RegistrationException
  /\ get_user_perms principal obj groups st = Raise RegistrationException
  /\ revoke_all principal obj st = (Raise RegistrationException, st)
  /\ set_user_perms principal perms obj st = (Raise RegistrationException, st).
Proof.
  intros Hn obj. subst obj.
  pose proof (get_model_perms_unregistered st cls Hn) as Hg.
  pose proof (effective_perms_unregistered st cls perms Hn) as He.
  repeat split.
  - unfold user_has_perm. cbv zeta. cbn [class_of]. now rewrite Hg.
  - unfold group_has_perm. cbv zeta. cbn [class_of]. now rewrite Hg.
  - unfold user_has_any_perms. cbv zeta. cbn [class_of is_model_instance].
    now rewrite He.
  - unfold user_has_all_perms. cbv zeta. cbn [class_of is_model_instance].
    now rewrite He.
  - unfold user_has_any_perms. cbv zeta. cbn [class_of is_model_instance].
    now rewrite He.
  - unfold user_has_all_perms. cbv zeta. cbn [class_of is_model_instance].
    now rewrite He.
  - unfold get_users_all. cbv zeta. cbn [class_of is_model_instance].
    now rewrite He.
  - unfold get_user_perms. cbv zeta. cbn [class_of]. now rewrite Hg.
  - unfold revoke_all, bind, query. cbv zeta. cbn [class_of]. now rewrite Hg.
  - unfold set_user_perms, revoke_all, bind, query. cbv zeta. cbn [class_of].
    destruct perms; now rewrite Hg.
Qed.

Lemma unregistered_model_checks_and_errors_witness :
  user_has_perm 1 "eat" (VInstance Unregistered 1) true granted_state = Ok false
  /\ user_has_any_perms 1 (VInstance Unregistered 1) ["eat"] true granted_state
     = Raise RegistrationException.
Proof.
  pose proof (unregistered_model_checks_and_errors granted_state 1 Unregistered 1
                "eat" ["eat"] true) as H.
  destruct H as (H1 & _ & H2 & _).
  - intros [H | []]. discriminate.
  - split; [exact H1 | exact H2].
Defined.

(** ** [register] *)

Lemma register_unfold (perms : PermsValue) (model : Model) (app_label : string)
  (st : State) :
  no_reserved_name perms ->
  register (ParamsDict perms) model (Some app_label) st =
  try_except (_register (repacked perms) model app_label) DatabaseError
    (modify (fun st =>
       set_DELAYED (_DELAYED st ++ [(repacked perms, model, app_label)]) st)) st.
Proof.
  unfold no_reserved_name, register. intros H.
  unfold bind, ret. cbv beta iota zeta. rewrite H. cbv beta iota.
  reflexivity.
Qed.

(** X9. [register] rejects a reserved name before it does anything else:
    when one of the names is in [forbidden] it raises
    [RegistrationException], whether the permissions come as a dictionary or
    as a plain sequence, and the registry, the queue and the fields of every
    model are as they were. *)
Theorem register_rejects_reserved_names (st : State) (perms : PermsValue)
  (model : Model) (app_label : option string) (name : string) :
  In name (perm_names perms) -> In name forbidden ->
  forall params,
    params = ParamsDict perms \/ params = ParamsSeq (perm_names perms) ->
    let st' := snd (register params model app_label st) in
    fst (register params model app_label st) = Raise RegistrationException
    /\ registered st' = registered st
    /\ permissions_for_model st' = permissions_for_model st
    /\ fields st' = fields st
    /\ _DELAYED st' = _DELAYED st.
Proof.
  intros Hin Hf params Hparams.
  assert (E : existsb (fun perm => mem_string perm forbidden) (perm_names perms)
              = true).
  { apply existsb_exists. exists name. split; [assumption | now apply mem_string_In]. }
  destruct Hparams as [-> | ->]; unfold register;
    destruct app_label as [a |];
    unfold bind, ret, warn, modify, raise; cbv beta iota zeta;
    cbn [perm_names]; rewrite E; cbv beta iota; repeat split.
Qed.

Lemma register_rejects_reserved_names_witness :
  fst (register (ParamsSeq ["eat"; "save"]) Restaurant (Some "app") initial)
  = Raise RegistrationException.
Proof.
  pose proof (register_rejects_reserved_names initial (PermsSeq ["eat"; "save"])
                Restaurant (Some "app") "save") as H.
  destruct (H (or_intror (or_introl eq_refl))
              (or_intror (or_intror (or_intror (or_intror (or_introl eq_refl)))))
              (ParamsSeq ["eat"; "save"]) (or_intror eq_refl)) as (H1 & _).
  exact H1.
Defined.



Lemma field_names_cons (st : State) (model : Model) (name : string)
  (kind : FieldKind) (rest : list Field) :
  get_all_field_names model (set_fields (mkField model name kind :: rest) st)
  = name :: get_all_field_names model (set_fields rest st).
Proof.
  unfold get_all_field_names. simpl. now rewrite Model_eqb_refl.
Qed.

(** The loop of [_register], when it returns: the name of every permission
    of the loop was free when the loop started. *)
Lemma _register_loop_free (params : PermDict) (model : Model) (l : list string) :
  forall st st' : State,
  for_each l (_register_perm params model) st = (Ok tt, st') ->
  forall perm, In perm l ->
    mem_string (user_perm_ (lower perm)) (get_all_field_names model st) = false.
Proof.
  induction l as [| p l IH]; intros st st' Hloop perm Hin; [contradiction |].
  apply for_each_cons_inv in Hloop. destruct Hloop as (st1 & Hstep & Hloop).
  destruct (_register_perm_ok _ _ _ _ _ Hstep) as (Hu & _ & E).
  destruct Hin as [<- | Hin]; [exact Hu |].
  pose proof (IH st1 st' Hloop perm Hin) as H1.
  rewrite E, !field_names_cons, set_fields_same in H1.
  unfold mem_string in H1 |- *. cbn [existsb] in H1.
  apply orb_false_iff in H1. destruct H1 as [_ H1].
  apply orb_false_iff in H1. now destruct H1 as [_ H1].
Qed.

(** Two names of one registration cannot agree once lower-cased. *)
Lemma _register_loop_distinct (params : PermDict) (model : Model)
  (l : list string) :
  forall st st' : State,
  for_each l (_register_perm params model) st = (Ok tt, st') ->
  NoDup (map lower l).
Proof.
  induction l as [| p l IH]; intros st st' Hloop; simpl; [constructor |].
  apply for_each_cons_inv in Hloop. destruct Hloop as (st1 & Hstep & Hloop).
  constructor; [| now apply (IH st1 st')].
  intros Hin. apply in_map_iff in Hin. destruct Hin as [q [Eq Hq]].
  pose proof (_register_loop_free _ _ _ _ _ Hloop q Hq) as Hfree.
  destruct (_register_perm_ok _ _ _ _ _ Hstep) as (_ & _ & E).
  rewrite E, Eq, !field_names_cons, set_fields_same in Hfree.
  unfold mem_string in Hfree. cbn [existsb] in Hfree.
  apply orb_false_iff in Hfree. destruct Hfree as [_ Hfree].
  apply orb_false_iff in Hfree. destruct Hfree as [Hfree _].
  now rewrite String.eqb_refl in Hfree.
Qed.

(** What the loop of [_register] can raise. *)
Lemma _register_loop_raises (params : PermDict) (model : Model) (l : list string) :
  forall (st st' : State) (e : exn),
  for_each l (_register_perm params model) st = (Raise e, st') ->
  e = RegistrationException
  \/ (e = DatabaseError /\ In model (schema_unavailable st)).
Proof.
  induction l as [| p l IH]; intros st st' e Hloop; [discriminate |].
  simpl in Hloop. unfold bind in Hloop.
  destruct (_register_perm params model p st) as [[[] | e1] st1] eqn:Hstep.
  - destruct (IH st1 st' e Hloop) as [H | [H1 H2]]; [now left | right].
    split; [assumption |].
    destruct (_register_perm_ok _ _ _ _ _ Hstep) as (_ & _ & E).
    now rewrite E in H2.
  - injection Hloop as <- <-.
    revert Hstep. unfold _register_perm, bind, gets, raise, contribute_to_class.
    cbv zeta. cbn [fst snd].
    destruct (mem_string _ _); [intros H; injection H as <- _; now left |].
    destruct (mem_string _ _); [intros H; injection H as <- _; now left |].
    destruct (mem_model model (schema_unavailable st)) eqn:Em.
    + intros H. injection H as <- _. right. split; [reflexivity |].
      now apply mem_model_In.
    + simpl. rewrite Em. discriminate.
Qed.

(** X11. [register] returns normally in exactly two ways.  For a model that
    is not registered and names none of which is reserved, it never lets a
    [DatabaseError] out; and when it returns, either the model is now
    registered, with the permissions given as [get_model_perms] reads them
    back, with names that are pairwise distinct once lower-cased, each with
    its two junction relations under the lower-cased name, and the queue is
    as it was; or the model is still unregistered and the registration has
    been appended to the queue. *)
Theorem register_binds_or_queues (st : State) (perms : PermsValue)
  (model : Model) (app_label : string) :
  ~ In model (registered st) ->
  no_reserved_name perms ->
  let r := fst (register (ParamsDict perms) model (Some app_label) st) in
  let st' := snd (register (ParamsDict perms) model (Some app_label) st) in
  r <> Raise DatabaseError
  /\ (r = Ok tt ->
      (In model (registered st')
       /\ get_model_perms (VClass model) st' = Ok (repacked perms)
       /\ NoDup (map lower (keys (repacked perms)))
       /\ (forall perm, In perm (keys (repacked perms)) ->
             lookup_field st' model (user_perm_ (lower perm))
             = Some (ManyToMany ToUser
                       (perm_set_ (lower perm) (lower (cls_name model))))
             /\ lookup_field st' model (group_perm_ (lower perm))
                = Some (ManyToMany ToGroup
                          (perm_set_ (lower perm) (lower (cls_name model)))))
       /\ _DELAYED st' = _DELAYED st)
      \/ (~ In model (registered st')
          /\ _DELAYED st' = _DELAYED st ++ [(repacked perms, model, app_label)])).
Proof.
  intros Hn Hres r st'. subst r st'.
  rewrite (register_unfold perms model app_label st Hres). unfold try_except.
  pose proof (_register_extends (repacked perms) model app_label st) as Hext.
  pose proof (_register_outcome (repacked perms) model app_label st) as Hout.
  destruct (_register (repacked perms) model app_label st) as [[[] | e] st1] eqn:Hreg;
    cbn [fst snd] in Hext, Hout |- *.
  - split; [discriminate |]. intros _. left.
    destruct (_register_provisions _ _ _ _ _ Hn Hreg) as (Hin & Hd & Hfw).
    split; [exact Hin |]. split; [| split; [| split; [exact Hfw |]]].
    + unfold get_model_perms. apply mem_model_In in Hin. now rewrite Hin, Hd.
    + destruct (_register_cases (repacked perms) model app_label st)
        as [[Hm _] | [_ [st2 [[Hloop E] | [e [_ E]]]]]].
      * apply mem_model_In in Hm. contradiction.
      * now apply (_register_loop_distinct _ _ _ _ _ Hloop).
      * rewrite E in Hreg. discriminate.
    + now destruct Hext.
  - destruct e; cbn [exn_eqb fst snd]; (split; [discriminate |]);
      try (intros H; discriminate).
    intros _. right. simpl. split; [exact Hout |].
    destruct Hext as (Hd & _). now rewrite Hd.
Qed.

Lemma register_binds_or_queues_witness :
  fst (register (ParamsDict (PermsSeq ["eat"; "order"; "pay"])) Restaurant
                (Some "app") initial) <> Raise DatabaseError.
Proof.
  pose proof (register_binds_or_queues initial (PermsSeq ["eat"; "order"; "pay"])
                Restaurant "app") as H.
  destruct H as (H & _).
  - intros [].
  - reflexivity.
  - exact H.
Defined.

(** X12. Names that differ only by letter case cannot be registered for one
    model: when the tables of an unregistered model are available, none of
    the names is reserved, and two of the names handed to [_register] agree
    once lower-cased, [register] raises [RegistrationException] and the
    model stays unregistered. *)
Theorem register_rejects_case_clash (st : State) (perms : PermsValue)
  (model : Model) (app_label : string) :
  ~ In model (registered st) ->
  ~ In model (schema_unavailable st) ->
  no_reserved_name perms ->
  ~ NoDup (map lower (keys (repacked perms))) ->
  fst (register (ParamsDict perms) model (Some app_label) st)
  = Raise RegistrationException
  /\ ~ In model
         (registered (snd (register (ParamsDict perms) model (Some app_label) st))).
Proof.
  intros Hn Hs Hres Hdup.
  rewrite (register_unfold perms model app_label st Hres). unfold try_except.
  pose proof (_register_outcome (repacked perms) model app_label st) as Hout.
  destruct (_register_cases (repacked perms) model app_label st)
    as [[Hm _] | [_ [st1 [[Hloop E] | [e [Hloop E]]]]]].
  - apply mem_model_In in Hm. contradiction.
  - exfalso. apply Hdup. now apply (_register_loop_distinct _ _ _ _ _ Hloop).
  - rewrite E in Hout |- *. cbn [fst snd] in Hout.
    destruct (_register_loop_raises _ _ _ _ _ _ Hloop) as [-> | [_ H]];
      [| contradiction].
    simpl. now split.
Qed.

Lemma register_rejects_case_clash_witness :
  fst (register (ParamsDict (PermsSeq ["Eat"; "eat"])) Restaurant (Some "app")
                initial) = Raise RegistrationException.
Proof.
  pose proof (register_rejects_case_clash initial (PermsSeq ["Eat"; "eat"])
                Restaurant "app") as H.
  destruct H as (H & _).
  - intros [].
  - intros [].
  - reflexivity.
  - simpl. intros H. inversion H as [| ? ? Hnotin _]. apply Hnotin. now left.
  - exact H.
Defined.

(** ** The registry invariant *)

Lemma same_registry_refl (st : State) : same_registry st st.
Proof. repeat split. Qed.

Lemma same_registry_trans (a b c : State) :
  same_registry a b -> same_registry b c -> same_registry a c.
Proof. intros (H1 & H2 & H3) (H4 & H5 & H6). repeat split; congruence. Qed.

Lemma registry_ok_frame (st st' : State) :
  same_registry st st' -> registry_ok st -> registry_ok st'.
Proof.
  intros (Hr & Hp & Hf) Hok. unfold registry_ok, lookup_field in *.
  rewrite Hr, Hp, Hf. exact Hok.
Qed.

Lemma keeps_registry_bind {A B : Type} (c : M A) (k : A -> M B) :
  keeps_registry c -> (forall a, keeps_registry (k a)) -> keeps_registry (bind c k).
Proof.
  intros Hc Hk st. unfold bind. specialize (Hc st).
  destruct (c st) as [[a | e] st1]; simpl in *; [| exact Hc].
  apply same_registry_trans with (b := st1); [exact Hc | apply Hk].
Qed.

Lemma keeps_registry_for_each {A : Type} (l : list A) (body : A -> M unit) :
  (forall x, keeps_registry (body x)) -> keeps_registry (for_each l body).
Proof.
  intros Hb. induction l as [| x l IH]; simpl.
  - intros st. apply same_registry_refl.
  - apply keeps_registry_bind; [apply Hb | intros _; exact IH].
Qed.

Lemma keeps_registry_pure {A : Type} (c : M A) :
  (forall st, snd (c st) = st) -> keeps_registry c.
Proof. intros H st. rewrite H. apply same_registry_refl. Qed.

Lemma keeps_registry_try_except {A : Type} (c : M A) (e : exn) (h : M A) :
  keeps_registry c -> keeps_registry h -> keeps_registry (try_except c e h).
Proof.
  intros Hc Hh st. unfold try_except. specialize (Hc st).
  destruct (c st) as [[a | e'] st1]; simpl in *; [exact Hc |].
  destruct (exn_eqb e e'); [| exact Hc].
  apply same_registry_trans with (b := st1); [exact Hc | apply Hh].
Qed.

Lemma keeps_registry_manager_add a pk : keeps_registry (manager_add a pk).
Proof.
  intros st. destruct a as [manager |]; simpl; [| apply same_registry_refl].
  destruct (existsb _ _); repeat split.
Qed.

Lemma keeps_registry_manager_remove a pk : keeps_registry (manager_remove a pk).
Proof. intros st. destruct a as [manager |]; simpl; repeat split. Qed.

Lemma keeps_registry_filter_pk_count a pk : keeps_registry (filter_pk_count a pk).
Proof. intros st. destruct a as [manager |]; simpl; repeat split. Qed.

Lemma keeps_registry_send s : keeps_registry (send s).
Proof. intros st. repeat split. Qed.

Ltac keeps_registry :=
  repeat first
    [ apply keeps_registry_bind; [| intros ?]
    | apply keeps_registry_for_each; intros ?
    | apply keeps_registry_try_except
    | apply keeps_registry_manager_add
    | apply keeps_registry_manager_remove
    | apply keeps_registry_filter_pk_count
    | apply keeps_registry_send
    | apply keeps_registry_pure; intros ?; reflexivity
    | match goal with
      | |- keeps_registry (if ?b then _ else _) => destruct b
      | |- keeps_registry (match ?x with _ => _ end) => destruct x
      | |- keeps_registry (let _ := _ in _) => cbv zeta
      end ].

Lemma grant_keeps_registry user perm obj : keeps_registry (grant user perm obj).
Proof. unfold grant, query. keeps_registry. Qed.

Lemma grant_group_keeps_registry group perm obj :
  keeps_registry (grant_group group perm obj).
Proof. unfold grant_group, query. keeps_registry. Qed.

Lemma revoke_keeps_registry user perm obj : keeps_registry (revoke user perm obj).
Proof.
  intros st. unfold revoke. cbv zeta.
  destruct (getattr obj (user_perm_ (lower perm)) st) as [a | e].
  - revert st. change (keeps_registry
      (n <- filter_pk_count a user ;;
       if (0 <? n)%nat
       then manager_remove a user ;;; send (revoked (PUser user) perm obj)
       else ret tt)).
    keeps_registry.
  - destruct e; apply same_registry_refl.
Qed.

Lemma revoke_group_keeps_registry group perm obj :
  keeps_registry (revoke_group group perm obj).
Proof.
  intros st. unfold revoke_group. cbv zeta.
  destruct (getattr obj (group_perm_ (lower perm)) st) as [a | e].
  - revert st. change (keeps_registry
      (n <- filter_pk_count a group ;;
       if (0 <? n)%nat
       then manager_remove a group ;;; send (revoked (PGroup group) perm obj)
       else ret tt)).
    keeps_registry.
  - destruct e; apply same_registry_refl.
Qed.

Lemma revoke_all_keeps_registry user obj : keeps_registry (revoke_all user obj).
Proof. unfold revoke_all, revoke_all_step, query. keeps_registry. Qed.

Lemma revoke_all_group_keeps_registry group obj :
  keeps_registry (revoke_all_group group obj).
Proof. unfold revoke_all_group, query. keeps_registry. Qed.

Lemma set_user_perms_keeps_registry user perms obj :
  keeps_registry (set_user_perms user perms obj).
Proof.
  unfold set_user_perms, query. keeps_registry.
  all: try apply revoke_all_keeps_registry.
  all: try (match goal with x : (string * bool)%type |- _ => destruct x end;
            unfold set_user_perms_step, query; keeps_registry).
Qed.

Lemma set_group_perms_keeps_registry group perms obj :
  keeps_registry (set_group_perms group perms obj).
Proof.
  unfold set_group_perms, query. keeps_registry.
  all: try apply revoke_all_group_keeps_registry.
  all: try (match goal with x : (string * bool)%type |- _ => destruct x end;
            keeps_registry).
Qed.

Lemma find_added {A : Type} (pred other : A -> bool) (added rest : list A) :
  Forall (fun x => other x = true) added ->
  (forall x, other x = true -> pred x = false) ->
  find pred (added ++ rest) = find pred rest.
Proof.
  intros Ha Hp. induction Ha as [| x added Hx _ IH]; simpl; [reflexivity |].
  now rewrite (Hp x Hx).
Qed.

(** Fields added to one model do not change what is found on another. *)
Lemma lookup_field_added (st st' : State) (model m : Model) (name : string)
  (added : list Field) :
  fields st' = added ++ fields st ->
  Forall (fun f => f_model f = model) added ->
  m <> model ->
  lookup_field st' m name = lookup_field st m name.
Proof.
  intros Hf Ha Hne. unfold lookup_field. rewrite Hf. f_equal.
  apply find_added with (other := fun f => Model_eqb (f_model f) model).
  - eapply Forall_impl; [| exact Ha]. intros f ->. apply Model_eqb_refl.
  - intros f Hm. apply Model_eqb_eq in Hm.
    destruct (Model_eqb (f_model f) m) eqn:E; [| reflexivity].
    apply Model_eqb_eq in E. congruence.
Qed.

(** A registration attempt, whatever its outcome, keeps the registry in
    order. *)
Lemma _register_registry_ok (params : PermDict) (model : Model)
  (app_label : string) (st : State) :
  registry_ok st -> registry_ok (snd (_register params model app_label st)).
Proof.
  intros Hok.
  destruct (_register_cases params model app_label st)
    as [[Hm ->] | [Hm [st1 [[Hloop ->] | [e [Hloop ->]]]]]]; cbn [snd].
  - apply registry_ok_frame with (st := st); [repeat split | exact Hok].
  - assert (Hn : ~ In model (registered st)).
    { intros Hin. apply mem_model_In in Hin. congruence. }
    pose proof (_register_loop_fields params model (keys params) st) as H.
    rewrite Hloop in H. cbn [snd] in H. destruct H as (E & added & F & A).
    destruct (_register_loop_provisions _ _ _ _ _ Hloop) as (_ & Hl).
    intros cls Hin. simpl in Hin. rewrite E in Hin. simpl in Hin.
    apply in_app_or in Hin. destruct Hin as [Hin | [<- | []]].
    + assert (Hne : cls <> model) by (intros ->; contradiction).
      destruct (Hok cls Hin) as (perms & Hd & Hnd & Hf).
      exists perms. split; [| split; [exact Hnd |]].
      * simpl. rewrite E. simpl. rewrite dict_get_set_other; [exact Hd |].
        intros ->. now apply Hne.
      * intros perm Hp. destruct (Hf perm Hp) as (Hu & Hg).
        unfold lookup_field in *. simpl.
        fold (lookup_field st1 cls (user_perm_ (lower perm))).
        fold (lookup_field st1 cls (group_perm_ (lower perm))).
        rewrite !(lookup_field_added st st1 model cls _ added F A Hne).
        now split.
    + exists params. split; [simpl; apply dict_get_set_same |].
      split; [now apply (_register_loop_distinct _ _ _ _ _ Hloop) |].
      intros perm Hp. exact (Hl perm Hp).
  - assert (Hn : ~ In model (registered st)).
    { intros Hin. apply mem_model_In in Hin. congruence. }
    pose proof (_register_loop_fields params model (keys params) st) as H.
    rewrite Hloop in H. cbn [snd] in H. destruct H as (E & added & F & A).
    intros cls Hin. rewrite E in Hin. simpl in Hin.
    assert (Hne : cls <> model) by (intros ->; contradiction).
    destruct (Hok cls Hin) as (perms & Hd & Hnd & Hf).
    exists perms. split; [| split; [exact Hnd |]].
    + rewrite E. exact Hd.
    + intros perm Hp. destruct (Hf perm Hp) as (Hu & Hg).
      rewrite !(lookup_field_added st st1 model cls _ added F A Hne).
      now split.
Qed.

Section Preserves.
Variable P : State -> Prop.

Lemma preserves_bind {A B : Type} (c : M A) (k : A -> M B) :
  preserves P c -> (forall a, preserves P (k a)) -> preserves P (bind c k).
Proof.
  intros Hc Hk st HP. unfold bind. specialize (Hc st HP).
  destruct (c st) as [[a | e] st1]; cbn [snd] in *; [now apply Hk | exact Hc].
Qed.

Lemma preserves_pure {A : Type} (c : M A) :
  (forall st, snd (c st) = st) -> preserves P c.
Proof. intros H st HP. now rewrite H. Qed.

Lemma preserves_try_except {A : Type} (c : M A) (e : exn) (h : M A) :
  preserves P c -> preserves P h -> preserves P (try_except c e h).
Proof.
  intros Hc Hh st HP. unfold try_except. specialize (Hc st HP).
  destruct (c st) as [[a | e'] st1]; cbn [snd] in *; [exact Hc |].
  destruct (exn_eqb e e'); [now apply Hh | exact Hc].
Qed.

Lemma preserves_for_each {A : Type} (l : list A) (body : A -> M unit) :
  (forall x, preserves P (body x)) -> preserves P (for_each l body).
Proof.
  intros Hb. induction l as [| x l IH]; simpl.
  - now apply preserves_pure.
  - apply preserves_bind; [apply Hb | intros _; exact IH].
Qed.
End Preserves.

Lemma preserves_registry_ok_modify (f : State -> State) :
  (forall st, same_registry st (f st)) -> preserves registry_ok (modify f).
Proof.
  intros Hf st Hok. simpl. now apply registry_ok_frame with (st := st).
Qed.

Lemma register_registry_ok (params : Params) (model : Model)
  (app_label : option string) :
  preserves registry_ok (register params model app_label).
Proof.
  unfold register, warn.
  repeat match goal with
         | |- preserves _ (bind _ _) => apply preserves_bind; [| intros ?]
         | |- preserves _ (try_except _ _ _) => apply preserves_try_except
         | |- preserves _ (modify _) =>
             apply preserves_registry_ok_modify; intros ?; repeat split
         | |- preserves _ (ret _) => apply preserves_pure; intros ?; reflexivity
         | |- preserves _ (raise _) => apply preserves_pure; intros ?; reflexivity
         | |- preserves _ (_register _ _ _) =>
             intros ? ?; now apply _register_registry_ok
         | |- preserves _ (if ?b then _ else _) => destruct b
         | |- preserves _ (match ?x with _ => _ end) => destruct x
         | |- preserves _ (let _ := _ in _) => cbv zeta
         end.
Qed.

Lemma _register_delayed_registry_ok : preserves registry_ok _register_delayed.
Proof.
  unfold _register_delayed.
  apply preserves_try_except; [| now apply preserves_pure].
  apply preserves_bind; [now apply preserves_pure | intros delayed].
  apply preserves_bind.
  - apply preserves_for_each. intros [[params model] app_label] st Hok.
    now apply _register_registry_ok.
  - intros _. apply preserves_registry_ok_modify. intros st. repeat split.
Qed.

Lemma keeps_registry_ok {A : Type} (c : M A) :
  keeps_registry c -> preserves registry_ok c.
Proof.
  intros Hc st Hok. now apply registry_ok_frame with (st := st).
Qed.

Lemma reachable_ok (st : State) : reachable st -> registry_ok st.
Proof.
  induction 1 as [st H0 | st params model app_label _ IH | st _ IH
                  | st user perm obj _ IH | st group perm obj _ IH
                  | st user perm obj _ IH | st group perm obj _ IH
                  | st user obj _ IH | st group obj _ IH
                  | st user perms obj _ IH | st group perms obj _ IH
                  | st st' _ IH Hsame].
  - intros cls Hin. rewrite H0 in Hin. contradiction.
  - now apply register_registry_ok.
  - now apply _register_delayed_registry_ok.
  - now apply (keeps_registry_ok _ (grant_keeps_registry user perm obj)).
  - now apply (keeps_registry_ok _ (grant_group_keeps_registry group perm obj)).
  - now apply (keeps_registry_ok _ (revoke_keeps_registry user perm obj)).
  - now apply (keeps_registry_ok _ (revoke_group_keeps_registry group perm obj)).
  - now apply (keeps_registry_ok _ (revoke_all_keeps_registry user obj)).
  - now apply (keeps_registry_ok _ (revoke_all_group_keeps_registry group obj)).
  - now apply (keeps_registry_ok _ (set_user_perms_keeps_registry user perms obj)).
  - now apply (keeps_registry_ok _ (set_group_perms_keeps_registry group perms obj)).
  - now apply registry_ok_frame with (st := st).
Qed.

Lemma grant_returns (st : State) (user : Z) (perm : string) (cls : Model)
  (pk : Z) (to : Target) (rn : string) :
  lookup_field st cls (user_perm_ (lower perm)) = Some (ManyToMany to rn) ->
  fst (grant user perm (VInstance cls pk) st) = Ok tt.
Proof.
  intros Hf. destruct (has_row st cls (user_perm_ (lower perm)) pk user) eqn:Hrow.
  - now rewrite (grant_present _ _ _ _ _ _ _ Hf Hrow).
  - now rewrite (grant_absent _ _ _ _ _ _ _ Hf Hrow).
Qed.

(** X13. The registry stays in order.  In every state a program can reach
    -- starting with no model registered and calling [register], the drain
    of the delayed queue and the functions of the grant store in any order,
    with any arguments and whatever their outcomes -- each registered model
    has its permissions, which [get_model_perms] returns; their names are
    pairwise distinct once lower-cased; each has its two junction relations
    under the lower-cased name; and so [grant] of a registered permission
    and [revoke_all] on an instance of the model return without raising. *)
Theorem reachable_registry_in_order (st : State) (cls : Model) :
  reachable st -> In cls (registered st) ->
  exists perms,
    get_model_perms (VClass cls) st = Ok perms
    /\ NoDup (map lower (keys perms))
    /\ (forall perm, In perm (keys perms) ->
          lookup_field st cls (user_perm_ (lower perm))
          = Some (ManyToMany ToUser (perm_set_ (lower perm) (lower (cls_name cls))))
          /\ lookup_field st cls (group_perm_ (lower perm))
             = Some (ManyToMany ToGroup
                       (perm_set_ (lower perm) (lower (cls_name cls)))))
    /\ (forall perm user pk, In perm (keys perms) ->
          fst (grant user perm (VInstance cls pk) st) = Ok tt)
    /\ (forall user pk, fst (revoke_all user (VInstance cls pk) st) = Ok tt).
Proof.
  intros Hreach Hin.
  destruct (reachable_ok st Hreach cls Hin) as (perms & Hd & Hnd & Hf).
  assert (Hg : get_model_perms (VClass cls) st = Ok perms).
  { unfold get_model_perms. apply mem_model_In in Hin. now rewrite Hin, Hd. }
  exists perms. split; [exact Hg |]. split; [exact Hnd |]. split; [exact Hf |].
  split.
  - intros perm user pk Hp. destruct (Hf perm Hp) as (Hu & _).
    now apply grant_returns with (to := ToUser)
      (rn := perm_set_ (lower perm) (lower (cls_name cls))).
  - intros user pk.
    destruct (set_user_perms_loop_spec user cls pk
                (map (fun p => (p, false)) (keys perms)) st) as (st' & Hloop & _).
    { now rewrite map_map. }
    { intros entry He. apply in_map_iff in He. destruct He as [p [<- Hp]].
      destruct (Hf p Hp) as (Hu & _). simpl. eauto. }
    unfold revoke_all, bind, query. cbv zeta. cbn [class_of]. rewrite Hg.
    rewrite revoke_all_as_reconcile, Hloop. reflexivity.
Qed.

Lemma restaurant_reachable : reachable restaurant_state.
Proof.
  unfold restaurant_state.
  apply reach_store
    with (st := snd (register (ParamsSeq ["eat"; "order"; "pay"]) Restaurant
                              (Some "app") initial)).
  - apply reach_register. now apply reach_start.
  - repeat split.
Qed.

Lemma reachable_registry_in_order_witness :
  exists perms,
    get_model_perms (VClass Restaurant) restaurant_state = Ok perms
    /\ NoDup (map lower (keys perms)).
Proof.
  destruct (reachable_registry_in_order restaurant_state Restaurant)
    as (perms & H1 & H2 & _).
  - exact restaurant_reachable.
  - left. reflexivity.
  - exists perms. now split.
Defined.

(** ** [user_has_all_perms] on any request *)

Lemma holds_combine_and {R : Type} (c0 : option (R -> bool)) (f : R -> bool) (r : R) :
  holds (q_combine andb c0 (Some f)) r = holds c0 r && f r.
Proof. destruct c0 as [f0 |]; reflexivity. Qed.

(** The conjunction [user_has_all_perms] builds over the effective
    permissions. *)
Lemma all_perms_query (st : State) (cls : Model) (user : Z) (groups : bool)
  (f : Q -> string -> Q) (eff : list string) :
  (forall q p,
      f q p =
      Q_and q (if groups
               then Q_or (Q_leaf [user_perm_ (lower p)] (QInst user))
                         (Q_leaf [group_perm_ (lower p); "user"] (QInst user))
               else Q_leaf [user_perm_ (lower p)] (QInst user))) ->
  (forall p, In p eff -> provisioned st cls p) ->
  forall q0 c0, compileQ (resolve_model st cls) q0 = Ok c0 ->
  exists c,
    compileQ (resolve_model st cls) (fold_left f eff q0) = Ok c
    /\ forall o, holds c o =
                 holds c0 o
                 && forallb (fun p => holds_perm_b st cls p user groups o) eff.
Proof.
  intros Hf. induction eff as [| p eff IH]; intros Hprov q0 c0 Hc0; simpl.
  - exists c0. split; [exact Hc0 |]. intros o. now rewrite andb_true_r.
  - destruct (Hprov p (or_introl eq_refl)) as (Hu & Hg & _).
    destruct (IH (fun p' Hp' => Hprov p' (or_intror Hp')) (f q0 p)
                 (q_combine andb c0
                    (Some (fun o => holds_perm_b st cls p user groups o))))
      as (c & Hc & Hholds).
    { rewrite Hf. simpl. rewrite Hc0. simpl.
      unfold holds_perm_b. destruct groups; simpl; unfold resolve_model;
        rewrite ?user_perm_not_pk, ?Hu, ?Hg; reflexivity. }
    exists c. split; [exact Hc |].
    intros o. rewrite Hholds, holds_combine_and. now rewrite andb_assoc.
Qed.

Lemma forallb_holds_perm (st : State) (cls : Model) (user : Z) (groups : bool)
  (eff : list string) (o : Z) :
  forallb (fun p => holds_perm_b st cls p user groups o) eff = true <->
  forall p, In p eff -> holds_perm st cls p user groups o.
Proof.
  rewrite forallb_forall. split; intros H p Hp; apply holds_perm_b_spec; auto.
Qed.

(** X14. [user_has_all_perms] on any request.  For a type registered with
    its permissions provisioned, with [eff] the requested names that are
    registered (all the registered names when none is requested): on an
    instance it is true exactly when the instance is stored and the user
    holds every permission of [eff] on it; on the model class, exactly when
    some stored instance is one on which the user holds every permission of
    [eff].  In particular, when no requested name is registered it is true
    as soon as the instance, or any instance, is stored. *)
Theorem user_has_all_perms_every (st : State) (user : Z) (cls : Model)
  (perms : PermDict) (requested eff : list string) (groups : bool) :
  registered_with st cls perms ->
  effective_perms requested (VClass cls) st = Ok eff ->
  (forall pk,
      exists b,
        user_has_all_perms user (VInstance cls pk) requested groups st = Ok b
        /\ (b = true <->
            In (cls, pk) (tables st)
            /\ forall p, In p eff -> holds_perm st cls p user groups pk))
  /\ exists b,
       user_has_all_perms user (VClass cls) requested groups st = Ok b
       /\ (b = true <->
           exists pk, In (cls, pk) (tables st)
                      /\ forall p, In p eff -> holds_perm st cls p user groups pk).
Proof.
  intros Hreg Heff.
  assert (Hprov : forall p, In p eff -> provisioned st cls p).
  { intros p Hp. pose proof (effective_perms_registered _ _ _ _ _ Hreg Heff p Hp).
    destruct Hreg as (_ & _ & H'). now apply H'. }
  split.
  - intros pk. unfold user_has_all_perms. cbv zeta.
    cbn [is_model_instance class_of pk_of]. rewrite Heff. cbn [rbind].
    match goal with |- context [fold_left ?f eff ?q0] =>
      destruct (all_perms_query st cls user groups f eff (fun q p => eq_refl) Hprov
                  q0 (Some (fun o => Z.eqb o pk)) eq_refl) as (c & Hc & Hholds)
    end.
    unfold filter_objects. cbn [as_model_class rbind]. rewrite Hc. cbn [rbind].
    eexists. split; [reflexivity |].
    rewrite exists_filter, existsb_exists. split.
    + intros [o [Ho H]]. rewrite Hholds in H. apply andb_true_iff in H.
      destruct H as [E H]. simpl in E. apply Z.eqb_eq in E. subst o.
      split; [now apply objects_In | now apply forallb_holds_perm].
    + intros [Ho H]. exists pk. split; [now apply objects_In |].
      rewrite Hholds. simpl. rewrite Z.eqb_refl. now apply forallb_holds_perm.
  - unfold user_has_all_perms. cbv zeta.
    cbn [is_model_instance]. rewrite Heff. cbn [rbind].
    match goal with |- context [fold_left ?f eff ?q0] =>
      destruct (all_perms_query st cls user groups f eff (fun q p => eq_refl) Hprov
                  q0 None eq_refl) as (c & Hc & Hholds)
    end.
    unfold filter_objects. cbn [as_model_class rbind]. rewrite Hc. cbn [rbind].
    eexists. split; [reflexivity |].
    rewrite exists_filter, existsb_exists. split.
    + intros [o [Ho H]]. rewrite Hholds in H. simpl in H.
      exists o. split; [now apply objects_In | now apply forallb_holds_perm].
    + intros [o [Ho H]]. exists o. split; [now apply objects_In |].
      rewrite Hholds. simpl. now apply forallb_holds_perm.
Qed.

Lemma user_has_all_perms_every_witness :
  exists b,
    user_has_all_perms 1 (VClass Restaurant) ["bogus"] true granted_state = Ok b
    /\ (b = true <->
        exists pk, In (Restaurant, pk) (tables granted_state)
                   /\ forall p, In p [] ->
                        holds_perm granted_state Restaurant p 1 true pk).
Proof.
  apply (user_has_all_perms_every granted_state 1 Restaurant
           [("eat", no_meta); ("order", no_meta); ("pay", no_meta)]
           ["bogus"] [] true).
  - exact restaurant_registered.
  - reflexivity.
Defined.

(** ** [user_has_any_perms] on any request *)

(** The alternative built over the effective permissions, one or two keys
    per permission. *)
Lemma any_perms_query {R : Type}
  (resolve : list string -> qvalue -> result (R -> bool))
  (groups : bool) (value : qvalue) (key1 key2 : string -> list string)
  (P1 P2 : string -> R -> bool) (f : result Q -> string -> result Q)
  (eff : list string) :
  (forall acc p,
      f acc p =
      (q <-- acc ;;
       Ok (if groups
           then Q_or (Q_or q (Q_leaf (key1 p) value)) (Q_leaf (key2 p) value)
           else Q_or q (Q_leaf (key1 p) value)))) ->
  (forall p, In p eff ->
     resolve (key1 p) value = Ok (P1 p) /\ resolve (key2 p) value = Ok (P2 p)) ->
  forall q0 c0, compileQ resolve q0 = Ok c0 ->
  exists q c,
    fold_left f eff (Ok q0) = Ok q
    /\ compileQ resolve q = Ok c
    /\ (c = None <-> c0 = None /\ eff = [])
    /\ forall r, satisfies c r =
                 satisfies c0 r
                 || existsb (fun p => P1 p r || (groups && P2 p r)) eff.
Proof.
  intros Hf. induction eff as [| p eff IH]; intros Hres q0 c0 Hc0; simpl.
  - exists q0, c0. split; [reflexivity |]. split; [exact Hc0 |].
    split; [tauto |]. intros r. now rewrite orb_false_r.
  - destruct (Hres p (or_introl eq_refl)) as (H1 & H2).
    rewrite Hf. cbn [rbind].
    set (q1 := if groups
               then Q_or (Q_or q0 (Q_leaf (key1 p) value)) (Q_leaf (key2 p) value)
               else Q_or q0 (Q_leaf (key1 p) value)).
    set (c1 := Some (fun r => satisfies c0 r || (P1 p r || (groups && P2 p r)))).
    assert (Hc1 : exists c1',
               compileQ resolve q1 = Ok (Some c1')
               /\ forall r, c1' r = satisfies c0 r || (P1 p r || (groups && P2 p r))).
    { subst q1. destruct groups; simpl; rewrite Hc0, H1, ?H2; simpl;
        destruct c0 as [f0 |]; simpl; eexists; (split; [reflexivity |]);
        intros r; simpl; rewrite ?orb_false_r, ?andb_true_l, ?orb_assoc;
        reflexivity. }
    destruct Hc1 as (c1' & Hc1 & Hc1').
    destruct (IH (fun p' Hp' => Hres p' (or_intror Hp')) q1 (Some c1') Hc1)
      as (q & c & Hq & Hc & Hnone & Hsat).
    exists q, c. split; [exact Hq |]. split; [exact Hc |]. split.
    + split.
      * intros H. apply Hnone in H. destruct H as [H _]. discriminate.
      * intros [_ H]. discriminate.
    + intros r. rewrite Hsat. simpl. rewrite Hc1'. now rewrite <- !orb_assoc.
Qed.

Lemma holds_satisfies_and {R : Type} (c : option (R -> bool)) (f : R -> bool)
  (r : R) :
  holds (q_combine andb c (Some f)) r =
  (match c with None => true | Some _ => satisfies c r end) && f r.
Proof. destruct c as [f0 |]; reflexivity. Qed.

(** The value of [user_has_any_perms] on an instance. *)
Lemma user_has_any_perms_instance (st : State) (user : Z) (cls : Model) (pk : Z)
  (perms : PermDict) (requested eff : list string) (groups : bool) :
  registered_with st cls perms ->
  effective_perms requested (VClass cls) st = Ok eff ->
  exists b,
    user_has_any_perms user (VInstance cls pk) requested groups st = Ok b
    /\ (b = true <->
        In user (auth_user st)
        /\ (eff = []
            \/ exists p, In p eff /\ holds_perm st cls p user groups pk)).
Proof.
  intros Hreg Heff.
  assert (Hprov : forall p, In p eff -> provisioned st cls p).
  { intros p Hp. pose proof (effective_perms_registered _ _ _ _ _ Hreg Heff p Hp).
    destruct Hreg as (_ & _ & H'). now apply H'. }
  unfold user_has_any_perms. cbv zeta.
  cbn [is_model_instance class_of pk_of]. rewrite Heff.
  cbn [rbind as_model_class].
  match goal with |- context [fold_left ?f eff (Ok Q_empty)] =>
    destruct (any_perms_query (resolve_user st) groups (QInst pk)
                (fun p => [perm_set_ (lower p) (lower (cls_name cls))])
                (fun p => ["groups"; perm_set_ (lower p) (lower (cls_name cls))])
                (fun p r => has_row st cls (user_perm_ (lower p)) pk (fst r))
                (fun p r => match snd r with
                            | Some grp => has_row st cls (group_perm_ (lower p)) pk grp
                            | None => false
                            end)
                f eff) with (q0 := Q_empty) (c0 := @None (Z * option Z -> bool))
      as (q & c & Hq & Hc & Hnone & Hsat)
  end.
  { intros [acc | e] p; destruct groups; reflexivity. }
  { intros p Hp. destruct (Hprov p Hp) as (_ & _ & Hru & Hrg).
    unfold resolve_user. rewrite perm_set_not_pk, Hru. simpl String.eqb.
    rewrite Hrg. now split. }
  { reflexivity. }
  rewrite Hq. cbn [rbind]. unfold filter_users. cbn [compileQ]. rewrite Hc.
  unfold resolve_user at 1. simpl String.eqb. cbn [rbind].
  eexists. split; [reflexivity |].
  rewrite exists_filter, existsb_exists. split.
  - intros [u [Hu H]]. apply existsb_exists in H. destruct H as [g [Hg H]].
    rewrite holds_satisfies_and in H. apply andb_true_iff in H.
    destruct H as [H E]. simpl in E. apply Z.eqb_eq in E. subst u.
    split; [exact Hu |].
    destruct c as [fc |].
    + right. rewrite Hsat in H. simpl in H. apply existsb_exists in H.
      destruct H as [p [Hp H]]. exists p. split; [exact Hp |].
      apply orb_true_iff in H. destruct H as [H | H].
      * left. now apply has_row_In.
      * apply andb_true_iff in H. destruct H as [Hgr H]. right.
        split; [exact Hgr |]. simpl in H. destruct g as [grp |]; [| discriminate].
        exists grp. split; [| now apply has_row_In].
        destruct Hg as [Hg | Hg]; [discriminate |].
        apply in_map_iff in Hg. destruct Hg as [g' [E Hg]].
        injection E as ->. now apply groups_of_In.
    + left. now apply Hnone.
  - intros [Hu H]. exists user. split; [exact Hu |]. apply existsb_exists.
    destruct H as [-> | [p [Hp [H | [Hgr [grp [Hm H]]]]]]].
    + exists None. split; [now left |].
      assert (c = None) as -> by (apply Hnone; now split).
      simpl. apply Z.eqb_refl.
    + exists None. split; [now left |].
      rewrite holds_satisfies_and. simpl. rewrite Z.eqb_refl, andb_true_r.
      destruct c as [fc |]; [| reflexivity].
      rewrite Hsat. simpl. apply existsb_exists. exists p. split; [exact Hp |].
      apply has_row_In in H. now rewrite H.
    + exists (Some grp). split; [right; apply in_map; now apply groups_of_In |].
      rewrite holds_satisfies_and. simpl. rewrite Z.eqb_refl, andb_true_r.
      destruct c as [fc |]; [| reflexivity].
      rewrite Hsat. simpl. apply existsb_exists. exists p. split; [exact Hp |].
      apply has_row_In in H. rewrite Hgr, H. simpl. apply orb_true_r.
Qed.

(** X15. [user_has_any_perms] on an instance, on any request.  For a type
    registered with its permissions provisioned, with [eff] the requested
    names that are registered (all the registered names when none is
    requested), the check is true exactly when the user is stored and either
    holds one of the permissions of [eff] on the object -- directly or, with
    group inheritance, through a group -- or [eff] is empty. *)
Theorem user_has_any_perms_some (st : State) (user : Z) (cls : Model) (pk : Z)
  (perms : PermDict) (requested eff : list string) (groups : bool) :
  registered_with st cls perms ->
  effective_perms requested (VClass cls) st = Ok eff ->
  exists b,
    user_has_any_perms user (VInstance cls pk) requested groups st = Ok b
    /\ (b = true <->
        In user (auth_user st)
        /\ (eff = []
            \/ exists p, In p eff /\ holds_perm st cls p user groups pk)).
Proof.
  exact (user_has_any_perms_instance st user cls pk perms requested eff groups).
Qed.

Lemma user_has_any_perms_some_witness :
  exists b,
    user_has_any_perms 1 O1 ["pay"; "bogus"] true granted_state = Ok b
    /\ (b = true <->
        In 1%Z (auth_user granted_state)
        /\ (["pay"] = []
            \/ exists p, In p ["pay"]
                         /\ holds_perm granted_state Restaurant p 1 true 100)).
Proof.
  apply (user_has_any_perms_some granted_state 1 Restaurant 100
           [("eat", no_meta); ("order", no_meta); ("pay", no_meta)]
           ["pay"; "bogus"] ["pay"] true).
  - exact restaurant_registered.
  - reflexivity.
Defined.

(** ** The listing [get_user_perms] and the check [user_has_perm] *)

Lemma user_has_perm_iff (st : State) (user : Z) (perm : string) (cls : Model)
  (pk : Z) (perms : PermDict) (groups : bool) :
  registered_with st cls perms ->
  user_has_perm user perm (VInstance cls pk) groups st = Ok true <->
  In perm (keys perms) /\ In user (auth_user st)
  /\ holds_perm st cls perm user groups pk.
Proof.
  intros Hreg.
  destruct (mem_string perm (keys perms)) eqn:Hmem.
  - apply mem_string_In in Hmem.
    rewrite (user_has_perm_value st user perm cls pk perms groups Hreg Hmem).
    match goal with |- Ok ?e = _ <-> _ => set (b := e) end.
    split.
    + intros H. assert (H' : b = true) by congruence. clear H.
      subst b. apply existsb_exists in H'.
      destruct H' as [u [Hu H]]. apply existsb_exists in H.
      destruct H as [g [Hg H]]. apply andb_true_iff in H.
      destruct H as [H E]. apply Z.eqb_eq in E. subst u.
      split; [exact Hmem |]. split; [exact Hu |].
      destruct groups.
      * apply orb_true_iff in H. destruct H as [H | H].
        -- left. now apply has_row_In.
        -- right. split; [reflexivity |].
           destruct g as [grp |]; [| discriminate].
           exists grp. split; [| now apply has_row_In].
           destruct Hg as [Hg | Hg]; [discriminate |].
           apply in_map_iff in Hg. destruct Hg as [g' [E Hg]].
           injection E as ->. now apply groups_of_In.
      * left. now apply has_row_In.
    + intros (_ & Hu & H). subst b. f_equal. apply existsb_exists.
      exists user. split; [exact Hu |]. apply existsb_exists.
      destruct H as [H | [-> [grp [Hm H]]]].
      * exists None. split; [now left |]. apply has_row_In in H.
        rewrite Z.eqb_refl. destruct groups; rewrite H; reflexivity.
      * exists (Some grp). split; [right; apply in_map; now apply groups_of_In |].
        apply has_row_In in H. rewrite H, orb_true_r. simpl. apply Z.eqb_refl.
  - unfold user_has_perm. cbn [class_of].
    rewrite (get_model_perms_registered _ _ _ Hreg), Hmem. simpl negb. cbv iota.
    split; [discriminate |]. intros (H & _). apply mem_string_In in H.
    congruence.
Qed.

Lemma count_positive {A : Type} (l : list A) : (0 <? length l)%nat = exists_ l.
Proof. destruct l; reflexivity. Qed.

(** [model.objects.filter(pk=pk).filter(q).count() > 0] *)
Lemma count_by_pk (objs : list Z) (pk : Z) (hp : Z -> bool) :
  (0 <? length (filter (fun o => existsb (Z.eqb o)
                                   (filter (fun o' => Z.eqb o' pk) objs))
                       (filter hp objs)))%nat
  = existsb (Z.eqb pk) objs && hp pk.
Proof.
  rewrite count_positive, exists_filter. apply eq_iff_eq_true.
  rewrite andb_true_iff, !existsb_exists. split.
  - intros [o [Ho H]]. apply filter_In in Ho. destruct Ho as [Ho Hhp].
    apply existsb_exists in H. destruct H as [o' [Ho' E]].
    apply Z.eqb_eq in E. subst o'. apply filter_In in Ho'.
    destruct Ho' as [_ E]. apply Z.eqb_eq in E. subst o.
    split; [| exact Hhp]. exists pk. split; [exact Ho | apply Z.eqb_refl].
  - intros [[o [Ho E]] Hhp]. apply Z.eqb_eq in E. subst o.
    exists pk. split; [apply filter_In; now split |].
    apply existsb_exists. exists pk. split; [| apply Z.eqb_refl].
    apply filter_In. split; [exact Ho | apply Z.eqb_refl].
Qed.

Lemma get_user_perms_loop (st : State) (user : Z) (cls : Model) (pk : Z)
  (groups : bool) (f : result (list string) -> string -> result (list string))
  (names : list string) :
  (forall acc perm,
      f acc perm =
      (user_perms <-- acc ;;
       let _perm := lower perm in
       let q := Q_leaf [user_perm_ _perm] (QInst user) in
       let q := if groups
                then Q_or q (Q_leaf [group_perm_ _perm; "user"] (QInst user))
                else q in
       cls' <-- as_model_class (VClass cls) ;;
       pk' <-- pk_of (VInstance cls pk) ;;
       by_pk <-- filter_objects st cls' (Q_leaf ["pk"] (QInst pk')) ;;
       rows <-- filter_objects st cls' q ;;
       if (0 <? length (filter (fun o => existsb (Z.eqb o) by_pk) rows))%nat
       then Ok (user_perms ++ [perm])
       else Ok user_perms)) ->
  (forall p, In p names -> provisioned st cls p) ->
  forall acc,
    fold_left f names (Ok acc) =
    Ok (acc ++ filter
                 (fun p =>
                    existsb (Z.eqb pk)
                      (map snd (filter (fun row => Model_eqb (fst row) cls)
                                       (tables st)))
                    && holds_perm_b st cls p user groups pk)
                 names).
Proof.
  intros Hf. induction names as [| p names IH]; intros Hprov acc; simpl.
  - now rewrite app_nil_r.
  - destruct (Hprov p (or_introl eq_refl)) as (Hu & Hg & _).
    assert (Hstep : f (Ok acc) p =
                    Ok (if existsb (Z.eqb pk)
                             (map snd (filter (fun row => Model_eqb (fst row) cls)
                                              (tables st)))
                           && holds_perm_b st cls p user groups pk
                        then acc ++ [p] else acc)).
    { rewrite Hf. cbv zeta. cbn [rbind as_model_class pk_of].
      unfold filter_objects at 1. cbn [compileQ]. unfold resolve_model at 1.
      simpl String.eqb. cbn [rbind].
      unfold filter_objects, holds_perm_b.
      destruct groups; cbn [compileQ]; unfold resolve_model;
        rewrite ?user_perm_not_pk, ?Hu, ?Hg; simpl String.eqb;
        cbn [rbind q_combine]; cbv beta iota delta [holds];
        rewrite count_by_pk;
        match goal with |- context [if ?c then _ else _] => destruct c end;
        reflexivity. }
    rewrite Hstep.
    match goal with |- context [if ?c then acc ++ [p] else acc] =>
      destruct c end;
      rewrite (IH (fun p' Hp' => Hprov p' (or_intror Hp'))).
    + now rewrite <- app_assoc.
    + reflexivity.
Qed.

(** The value of [get_user_perms] on an instance of a registered type. *)
Lemma get_user_perms_value (st : State) (user : Z) (cls : Model) (pk : Z)
  (perms : PermDict) (groups : bool) :
  registered_with st cls perms ->
  exists keep,
    get_user_perms user (VInstance cls pk) groups st
    = Ok (filter keep (keys perms))
    /\ forall p, In p (filter keep (keys perms)) <->
                 In p (keys perms) /\ In (cls, pk) (tables st)
                 /\ holds_perm st cls p user groups pk.
Proof.
  intros Hreg.
  exists (fun p =>
            existsb (Z.eqb pk)
              (map snd (filter (fun row => Model_eqb (fst row) cls) (tables st)))
            && holds_perm_b st cls p user groups pk).
  split.
  - unfold get_user_perms. cbv zeta. cbn [class_of].
    rewrite (get_model_perms_registered _ _ _ Hreg). cbn [rbind].
    match goal with |- fold_left ?f _ _ = _ =>
      rewrite (get_user_perms_loop st user cls pk groups f (keys perms))
    end.
    + reflexivity.
    + intros [acc | e] perm; reflexivity.
    + destruct Hreg as (_ & _ & H). exact H.
  - intros p. rewrite filter_In, andb_true_iff, holds_perm_b_spec.
    rewrite existsb_exists. split.
    + intros (Hp & [o [Ho E]] & H). apply Z.eqb_eq in E. subst o.
      apply objects_In in Ho. auto.
    + intros (Hp & Ho & H). split; [exact Hp |]. split; [| exact H].
      exists pk. split; [now apply objects_In | apply Z.eqb_refl].
Qed.

(** X16. The listing and the check agree.  For an instance of a registered
    type, [get_user_perms] returns, in the order of the registered names, the
    names whose junction rows link the object -- which has to be stored --
    to the user or, with group inheritance, to one of the groups of the user;
    so for a stored user and a stored object the names it lists are exactly
    the names [user_has_perm] accepts. *)
Theorem get_user_perms_lists_what_user_has_perm_accepts
  (st : State) (user : Z) (cls : Model) (pk : Z) (perms : PermDict)
  (groups : bool) :
  registered_with st cls perms ->
  exists l,
    get_user_perms user (VInstance cls pk) groups st = Ok l
    /\ (exists keep, l = filter keep (keys perms))
    /\ (forall p, In p l <->
                  In p (keys perms) /\ In (cls, pk) (tables st)
                  /\ holds_perm st cls p user groups pk)
    /\ (In user (auth_user st) -> In (cls, pk) (tables st) ->
        forall p, In p l <->
                  user_has_perm user p (VInstance cls pk) groups st = Ok true).
Proof.
  intros Hreg.
  destruct (get_user_perms_value st user cls pk perms groups Hreg)
    as (keep & Hl & Hchar).
  eexists. split; [exact Hl |]. split; [eexists; reflexivity |].
  split; [exact Hchar |].
  intros Hu Ho p. rewrite Hchar.
  rewrite (user_has_perm_iff st user p cls pk perms groups Hreg). tauto.
Qed.

Lemma get_user_perms_lists_what_user_has_perm_accepts_witness :
  exists l,
    get_user_perms 1 O1 true granted_state = Ok l
    /\ (exists keep, l = filter keep ["eat"; "order"; "pay"])
    /\ (forall p, In p l <->
                  In p ["eat"; "order"; "pay"]
                  /\ In (Restaurant, 100%Z) (tables granted_state)
                  /\ holds_perm granted_state Restaurant p 1 true 100)
    /\ (In 1%Z (auth_user granted_state) ->
        In (Restaurant, 100%Z) (tables granted_state) ->
        forall p, In p l <->
                  user_has_perm 1 p O1 true granted_state = Ok true).
Proof.
  apply (get_user_perms_lists_what_user_has_perm_accepts granted_state 1
           Restaurant 100
           [("eat", no_meta); ("order", no_meta); ("pay", no_meta)] true).
  exact restaurant_registered.
Defined.

(** ** Group grants: [grant_group], [revoke_group] and the checks *)

Lemma state_eta (st : State) :
  st = set_signals (signals st) (set_m2m_rows (m2m_rows st) st).
Proof. destruct st; reflexivity. Qed.

Lemma grant_group_spec (st : State) (group : Z) (perm : string) (cls : Model)
  (pk : Z) (to : Target) (rn : string) :
  lookup_field st cls (group_perm_ (lower perm)) = Some (ManyToMany to rn) ->
  exists rows sigs,
    grant_group group perm (VInstance cls pk) st
    = (Ok tt, set_signals sigs (set_m2m_rows rows st))
    /\ forall r, In r rows <->
                 In r (m2m_rows st)
                 \/ r = mkRow cls (group_perm_ (lower perm)) pk group.
Proof.
  intros Hf. unfold grant_group, try_except, query, bind, getattr.
  rewrite Hf. unfold filter_pk_count, gets. rewrite count_zero_has_row.
  destruct (existsb _ (m2m_rows st)) eqn:Hrow; simpl.
  - exists (m2m_rows st), (signals st). split.
    + unfold ret. f_equal. apply state_eta.
    + intros r. split; [now left |]. intros [H | ->]; [exact H |].
      now apply has_row_In.
  - rewrite Hrow. eexists _, _. split; [reflexivity |].
    intros r. rewrite in_app_iff. simpl. intuition congruence.
Qed.

Lemma revoke_group_spec (st : State) (group : Z) (perm : string) (cls : Model)
  (pk : Z) (to : Target) (rn : string) :
  lookup_field st cls (group_perm_ (lower perm)) = Some (ManyToMany to rn) ->
  exists rows sigs,
    revoke_group group perm (VInstance cls pk) st
    = (Ok tt, set_signals sigs (set_m2m_rows rows st))
    /\ forall r, In r rows <->
                 In r (m2m_rows st)
                 /\ r <> mkRow cls (group_perm_ (lower perm)) pk group.
Proof.
  intros Hf. unfold revoke_group, getattr. rewrite Hf.
  unfold bind, filter_pk_count, gets. rewrite count_pos_has_row.
  destruct (existsb _ (m2m_rows st)) eqn:Hrow; simpl.
  - eexists _, _. split; [reflexivity |].
    intros r. now rewrite In_filter_not_manager.
  - exists (m2m_rows st), (signals st). split.
    + unfold ret. f_equal. apply state_eta.
    + intros r. split; [| tauto]. intros H. split; [exact H |].
      intros ->. apply has_row_In in H. unfold has_row in H. congruence.
Qed.

Lemma group_has_perm_value (st : State) (group : Z) (perm : string)
  (cls : Model) (pk : Z) (perms : PermDict) :
  registered_with st cls perms -> In perm (keys perms) ->
  group_has_perm group perm (VInstance cls pk) st =
  Ok (has_row st cls (group_perm_ (lower perm)) pk group).
Proof.
  intros Hreg Hin. unfold group_has_perm. cbv zeta. cbn [class_of].
  rewrite (get_model_perms_registered _ _ _ Hreg).
  apply mem_string_In in Hin. rewrite Hin. simpl negb. cbv iota.
  apply mem_string_In in Hin. destruct Hreg as (_ & _ & Hprov).
  destruct (Hprov perm Hin) as (_ & Hg & _).
  unfold getattr. rewrite Hg. cbn [rbind]. now rewrite exists_filter.
Qed.

Lemma user_row_not_group_row (cls cls' : Model) (p p' : string) (o o' u g : Z) :
  mkRow cls (user_perm_ p) o u <> mkRow cls' (group_perm_ p') o' g.
Proof. unfold user_perm_, group_perm_. simpl. intros H. discriminate. Qed.

Lemma holds_perm_direct (st : State) (cls : Model) (perm : string) (user pk : Z) :
  holds_perm st cls perm user false pk <-> user_edge st cls perm pk user.
Proof.
  unfold holds_perm. split; [| now left]. intros [H | [H _]];
    [exact H | discriminate].
Qed.

(** X17. A group grant reaches the members, and only through the group.
    For a stored group and a permission registered for the type of the
    object, [grant_group] and [revoke_group] return; after [grant_group] the
    check [group_has_perm] is true for the group and [user_has_perm] with
    group inheritance is true for every stored member of the group; after
    [revoke_group] [group_has_perm] is false; and neither call changes the
    answer of [user_has_perm] without group inheritance for any user. *)
Theorem grant_group_reaches_members (st : State) (group : Z) (perm : string)
  (cls : Model) (pk : Z) (perms : PermDict) :
  registered_with st cls perms -> In perm (keys perms) ->
  In group (auth_group st) ->
  let obj := VInstance cls pk in
  let st1 := snd (grant_group group perm obj st) in
  let st2 := snd (revoke_group group perm obj st) in
  fst (grant_group group perm obj st) = Ok tt
  /\ fst (revoke_group group perm obj st) = Ok tt
  /\ group_has_perm group perm obj st1 = Ok true
  /\ group_has_perm group perm obj st2 = Ok false
  /\ (forall user, In user (auth_user st) -> is_member st user group ->
        user_has_perm user perm obj true st1 = Ok true)
  /\ (forall user,
        user_has_perm user perm obj false st1 = user_has_perm user perm obj false st
        /\ user_has_perm user perm obj false st2
           = user_has_perm user perm obj false st).
Proof.
  intros Hreg Hin Hstored obj st1 st2. subst obj st1 st2.
  pose proof Hreg as (_ & _ & Hprov).
  destruct (Hprov perm Hin) as (_ & Hg & _).
  destruct (grant_group_spec st group perm cls pk _ _ Hg)
    as (rows1 & sigs1 & -> & Hrows1).
  destruct (revoke_group_spec st group perm cls pk _ _ Hg)
    as (rows2 & sigs2 & -> & Hrows2).
  cbn [fst snd].
  set (st1 := set_signals sigs1 (set_m2m_rows rows1 st)).
  set (st2 := set_signals sigs2 (set_m2m_rows rows2 st)).
  assert (Hreg1 : registered_with st1 cls perms)
    by (apply (registered_with_frame st st1 cls perms); auto).
  assert (Hreg2 : registered_with st2 cls perms)
    by (apply (registered_with_frame st st2 cls perms); auto).
  assert (Hdirect : forall st' rows sigs user,
             st' = set_signals sigs (set_m2m_rows rows st) ->
             registered_with st' cls perms ->
             (forall r, In r rows ->
                        In r (m2m_rows st)
                        \/ r = mkRow cls (group_perm_ (lower perm)) pk group) ->
             (forall r, In r (m2m_rows st) ->
                        r <> mkRow cls (group_perm_ (lower perm)) pk group ->
                        In r rows) ->
             user_has_perm user perm (VInstance cls pk) false st'
             = user_has_perm user perm (VInstance cls pk) false st).
  { intros st' rows sigs user -> Hreg' Hsub Hsup.
    pose proof (user_has_perm_iff _ user perm cls pk perms false Hreg') as H1.
    pose proof (user_has_perm_iff st user perm cls pk perms false Hreg) as H0.
    rewrite holds_perm_direct in H1, H0.
    assert (He : user_edge (set_signals sigs (set_m2m_rows rows st)) cls perm pk user
                 <-> user_edge st cls perm pk user).
    { unfold user_edge. cbn [m2m_rows set_signals set_m2m_rows]. split.
      - intros H. destruct (Hsub _ H) as [H' | H']; [exact H' |].
        now apply user_row_not_group_row in H'.
      - intros H. apply Hsup; [exact H | apply user_row_not_group_row]. }
    rewrite (user_has_perm_value _ user perm cls pk perms false Hreg' Hin) in *.
    rewrite (user_has_perm_value st user perm cls pk perms false Hreg Hin) in *.
    match goal with |- Ok ?a = Ok ?b =>
      set (b1 := a) in *; set (b0 := b) in * end.
    cbn [auth_user set_signals set_m2m_rows] in H1.
    assert (Hiff : b1 = true <-> b0 = true).
    { split; intros Hb.
      - assert (E : Ok b0 = Ok true); [| congruence].
        apply H0. rewrite <- He. apply H1. now rewrite Hb.
      - assert (E : Ok b1 = Ok true); [| congruence].
        apply H1. rewrite He. apply H0. now rewrite Hb. }
    f_equal. now apply eq_iff_eq_true. }
  split; [reflexivity |]. split; [reflexivity |].
  split; [| split; [| split]].
  - rewrite (group_has_perm_value _ group perm cls pk perms Hreg1 Hin).
    f_equal. apply has_row_In. apply Hrows1. now right.
  - rewrite (group_has_perm_value _ group perm cls pk perms Hreg2 Hin).
    f_equal. apply not_true_is_false. intros H. apply has_row_In in H.
    apply Hrows2 in H. destruct H as [_ H]. now apply H.
  - intros user Hu Hm.
    apply (user_has_perm_iff st1 user perm cls pk perms true Hreg1).
    split; [exact Hin |]. split; [exact Hu |]. right. split; [reflexivity |].
    exists group. split; [exact Hm |]. apply Hrows1. now right.
  - intros user. split.
    + apply (Hdirect st1 rows1 sigs1 user eq_refl Hreg1).
      * intros r H. now apply Hrows1.
      * intros r H _. apply Hrows1. now left.
    + apply (Hdirect st2 rows2 sigs2 user eq_refl Hreg2).
      * intros r H. left. now apply Hrows2.
      * intros r H Hne. apply Hrows2. now split.
Qed.

Lemma grant_group_reaches_members_witness :
  group_has_perm 10 "order" O1 (snd (grant_group 10 "order" O1 granted_state))
  = Ok true
  /\ group_has_perm 10 "order" O1 (snd (revoke_group 10 "order" O1 granted_state))
     = Ok false.
Proof.
  pose proof (grant_group_reaches_members granted_state 10 "order" Restaurant 100
                [("eat", no_meta); ("order", no_meta); ("pay", no_meta)]) as H.
  destruct H as (_ & _ & H1 & H2 & _).
  - exact restaurant_registered.
  - simpl. auto.
  - simpl. auto.
  - split; assumption.
Defined.

(** ** [get_users_all] on an instance *)

(** The conjunction [get_users_all] builds over the effective permissions on
    an instance. *)
Lemma instance_level_prefilter (st : State) (cls : Model) (pk : Z)
  (groups : bool) (f : result Q -> string -> result Q) (eff : list string) :
  (forall acc p,
      f acc p =
      (q <-- acc ;;
       let k := perm_set_ (lower p) (lower (cls_name cls)) in
       Ok (Q_and q (if groups
                    then Q_or (Q_leaf [k] (QInst pk))
                              (Q_leaf ["groups"; k] (QInst pk))
                    else Q_leaf [k] (QInst pk))))) ->
  (forall p, In p eff -> provisioned st cls p) ->
  forall q0 c0, compileQ (resolve_user st) q0 = Ok c0 ->
  exists q c,
    fold_left f eff (Ok q0) = Ok q
    /\ compileQ (resolve_user st) q = Ok c
    /\ forall r, holds c r =
                 holds c0 r
                 && forallb
                      (fun p =>
                         has_row st cls (user_perm_ (lower p)) pk (fst r)
                         || (groups
                             && match snd r with
                                | Some grp =>
                                    has_row st cls (group_perm_ (lower p)) pk grp
                                | None => false
                                end))
                      eff.
Proof.
  intros Hf. induction eff as [| p eff IH]; intros Hprov q0 c0 Hc0; simpl.
  - exists q0, c0. split; [reflexivity |]. split; [exact Hc0 |].
    intros r. now rewrite andb_true_r.
  - destruct (Hprov p (or_introl eq_refl)) as (_ & _ & Hru & Hrg).
    rewrite Hf. cbn [rbind]. cbv zeta.
    match goal with |- context [fold_left f eff (Ok ?q1')] => set (q1 := q1') end.
    assert (Hc1 : exists c1,
               compileQ (resolve_user st) q1 = Ok c1
               /\ forall r, holds c1 r =
                            holds c0 r
                            && (has_row st cls (user_perm_ (lower p)) pk (fst r)
                                || (groups
                                    && match snd r with
                                       | Some grp =>
                                           has_row st cls (group_perm_ (lower p))
                                                   pk grp
                                       | None => false
                                       end))).
    { subst q1. cbn [compileQ]. rewrite Hc0. cbn [rbind].
      destruct groups; cbn [compileQ]; unfold resolve_user;
        rewrite perm_set_not_pk, Hru; simpl String.eqb; rewrite ?Hrg;
        cbn [rbind q_combine]; eexists; (split; [reflexivity |]); intros r;
        rewrite holds_combine_and; rewrite ?andb_false_l, ?andb_true_l,
          ?orb_false_r; reflexivity. }
    destruct Hc1 as (c1 & Hc1 & Hholds1).
    destruct (IH (fun p' Hp' => Hprov p' (or_intror Hp')) q1 c1 Hc1)
      as (q & c & Hq & Hc & Hholds).
    exists q, c. split; [exact Hq |]. split; [exact Hc |].
    intros r. rewrite Hholds, Hholds1. now rewrite andb_assoc.
Qed.

(** X18. [get_users_all] on an instance.  For an instance of a registered
    type, with [eff] the requested names that are registered (all the
    registered names when none is requested), the call returns, and a user
    is listed exactly when it is stored and, without group inheritance, holds
    the user edge of every permission of [eff] on the object; with group
    inheritance, when every permission of [eff] is held directly or through
    one and the same group of the user.  When [eff] is empty every stored
    user is listed. *)
Theorem get_users_all_on_instance (st : State) (cls : Model) (pk : Z)
  (perms : PermDict) (requested eff : list string) (groups : bool) :
  registered_with st cls perms ->
  effective_perms requested (VClass cls) st = Ok eff ->
  exists users,
    get_users_all (VInstance cls pk) requested groups st = Ok users
    /\ (forall u,
          In u users <->
          In u (auth_user st)
          /\ ((forall p, In p eff -> user_edge st cls p pk u)
              \/ (groups = true
                  /\ exists grp,
                       is_member st u grp
                       /\ forall p, In p eff ->
                                    user_edge st cls p pk u
                                    \/ group_edge st cls p pk grp)))
    /\ (eff = [] -> forall u, In u users <-> In u (auth_user st)).
Proof.
  intros Hreg Heff.
  assert (Hprov : forall p, In p eff -> provisioned st cls p).
  { intros p Hp. pose proof (effective_perms_registered _ _ _ _ _ Hreg Heff p Hp).
    destruct Hreg as (_ & _ & H'). now apply H'. }
  unfold get_users_all. cbv zeta.
  cbn [is_model_instance class_of pk_of]. rewrite Heff.
  cbn [rbind as_model_class].
  match goal with |- context [fold_left ?f eff (Ok Q_empty)] =>
    destruct (instance_level_prefilter st cls pk groups f eff)
      with (q0 := Q_empty) (c0 := @None (Z * option Z -> bool))
      as (q & c & Hq & Hc & Hholds)
  end.
  { intros [acc | e] p; destruct groups; reflexivity. }
  { exact Hprov. }
  { reflexivity. }
  rewrite Hq. cbn [rbind]. unfold filter_users. rewrite Hc. cbn [rbind].
  eexists. split; [reflexivity |].
  assert (Hchar : forall u,
             In u (filter (fun u => existsb (fun g => holds c (u, g))
                                            (None :: map Some (groups_of st u)))
                          (auth_user st)) <->
             In u (auth_user st)
             /\ ((forall p, In p eff -> user_edge st cls p pk u)
                 \/ (groups = true
                     /\ exists grp,
                          is_member st u grp
                          /\ forall p, In p eff ->
                                       user_edge st cls p pk u
                                       \/ group_edge st cls p pk grp))).
  { intros u. rewrite filter_In, existsb_exists.
    apply and_iff_compat_l. split.
    - intros [g [Hg H]]. rewrite Hholds in H. cbn [holds fst snd] in H.
      rewrite andb_true_l, forallb_forall in H.
      destruct g as [grp |].
      + destruct groups.
        * right. split; [reflexivity |]. exists grp. split.
          -- destruct Hg as [Hg | Hg]; [discriminate |].
             apply in_map_iff in Hg. destruct Hg as [g' [E Hg]].
             injection E as ->. now apply groups_of_In.
          -- intros p Hp. specialize (H p Hp). apply orb_true_iff in H.
             destruct H as [H | H]; [left | right]; now apply has_row_In.
        * left. intros p Hp. specialize (H p Hp).
          rewrite andb_false_l, orb_false_r in H. now apply has_row_In.
      + left. intros p Hp. specialize (H p Hp).
        rewrite andb_false_r, orb_false_r in H. now apply has_row_In.
    - intros [H | [-> [grp [Hm H]]]].
      + exists None. split; [now left |]. rewrite Hholds. cbn [holds fst snd].
        rewrite andb_true_l. apply forallb_forall. intros p Hp.
        specialize (H p Hp). apply has_row_In in H. now rewrite H.
      + exists (Some grp). split; [right; apply in_map; now apply groups_of_In |].
        rewrite Hholds. cbn [holds fst snd]. rewrite andb_true_l.
        apply forallb_forall. intros p Hp. rewrite andb_true_l.
        apply orb_true_iff.
        destruct (H p Hp) as [H' | H']; [left | right]; now apply has_row_In. }
  split; [exact Hchar |].
  intros -> u. rewrite Hchar. split; [tauto |]. intros Hu. split; [exact Hu |].
  left. intros p [].
Qed.

Lemma get_users_all_on_instance_witness :
  exists users,
    get_users_all O1 ["eat"; "pay"] true granted_state = Ok users
    /\ (forall u,
          In u users <->
          In u (auth_user granted_state)
          /\ ((forall p, In p ["eat"; "pay"] ->
                         user_edge granted_state Restaurant p 100 u)
              \/ (true = true
                  /\ exists grp,
                       is_member granted_state u grp
                       /\ forall p, In p ["eat"; "pay"] ->
                                    user_edge granted_state Restaurant p 100 u
                                    \/ group_edge granted_state Restaurant p 100 grp)))
    /\ (["eat"; "pay"] = [] ->
        forall u, In u users <-> In u (auth_user granted_state)).
Proof.
  apply (get_users_all_on_instance granted_state Restaurant 100
           [("eat", no_meta); ("order", no_meta); ("pay", no_meta)]
           ["eat"; "pay"] ["eat"; "pay"] true).
  - exact restaurant_registered.
  - reflexivity.
Defined.

(** ** The group listing [get_group_perms] and the check [group_has_perm] *)

Lemma group_has_perm_iff (st : State) (group : Z) (perm : string) (cls : Model)
  (pk : Z) (perms : PermDict) :
  registered_with st cls perms ->
  group_has_perm group perm (VInstance cls pk) st = Ok true <->
  In perm (keys perms) /\ group_edge st cls perm pk group.
Proof.
  intros Hreg. destruct (mem_string perm (keys perms)) eqn:Hmem.
  - apply mem_string_In in Hmem.
    rewrite (group_has_perm_value st group perm cls pk perms Hreg Hmem).
    unfold group_edge. rewrite <- has_row_In. split.
    + intros H. split; [exact Hmem | congruence].
    + intros [_ H]. now rewrite H.
  - unfold group_has_perm. cbv zeta. cbn [class_of].
    rewrite (get_model_perms_registered _ _ _ Hreg), Hmem. simpl negb. cbv iota.
    split; [discriminate |]. intros (H & _). apply mem_string_In in H.
    congruence.
Qed.

Lemma get_group_perms_loop (st : State) (group : Z) (cls : Model) (pk : Z)
  (f : result (list string) -> string -> result (list string))
  (names : list string) :
  (forall acc perm,
      f acc perm =
      (group_perms <-- acc ;;
       let _perm := lower perm in
       manager <-- getattr (VInstance cls pk) (group_perm_ _perm) st ;;
       match manager with
       | AManager manager =>
           if (0 <? length (filter (in_manager manager group) (m2m_rows st)))%nat
           then Ok (group_perms ++ [perm])
           else Ok group_perms
       | AOther => Raise AttributeError
       end)) ->
  (forall p, In p names -> provisioned st cls p) ->
  forall acc,
    fold_left f names (Ok acc) =
    Ok (acc ++ filter (fun p => has_row st cls (group_perm_ (lower p)) pk group)
                      names).
Proof.
  intros Hf. induction names as [| p names IH]; intros Hprov acc; simpl.
  - now rewrite app_nil_r.
  - destruct (Hprov p (or_introl eq_refl)) as (_ & Hg & _).
    rewrite Hf. cbv zeta. cbn [rbind]. unfold getattr. rewrite Hg.
    cbn [rbind]. rewrite count_pos_has_row.
    fold (has_row st cls (group_perm_ (lower p)) pk group).
    destruct (has_row st cls (group_perm_ (lower p)) pk group);
      rewrite (IH (fun p' Hp' => Hprov p' (or_intror Hp'))).
    + now rewrite <- app_assoc.
    + reflexivity.
Qed.

(** The value of [get_group_perms] on an instance of a registered type. *)
Lemma get_group_perms_value (st : State) (group : Z) (cls : Model) (pk : Z)
  (perms : PermDict) :
  registered_with st cls perms ->
  exists keep,
    (forall groups,
        get_group_perms group (VInstance cls pk) groups st
        = Ok (filter keep (keys perms)))
    /\ forall p, In p (filter keep (keys perms)) <->
                 In p (keys perms) /\ group_edge st cls p pk group.
Proof.
  intros Hreg.
  exists (fun p => has_row st cls (group_perm_ (lower p)) pk group). split.
  - intros b. unfold get_group_perms. cbv zeta. cbn [class_of].
    rewrite (get_model_perms_registered _ _ _ Hreg). cbn [rbind].
    match goal with |- fold_left ?f _ _ = _ =>
      rewrite (get_group_perms_loop st group cls pk f (keys perms))
    end.
    + reflexivity.
    + intros [acc | e] perm; reflexivity.
    + destruct Hreg as (_ & _ & H). exact H.
  - intros p. rewrite filter_In, has_row_In. reflexivity.
Qed.

(** X19. The group listing and the group check agree.  For a stored group
    and an instance of a registered type, [get_group_perms] returns, in the
    order of the registered names, exactly the names for which the group
    holds the group edge on the object, which are exactly the names
    [group_has_perm] accepts; its parameter [groups] changes nothing. *)
Theorem get_group_perms_lists_what_group_has_perm_accepts
  (st : State) (group : Z) (cls : Model) (pk : Z) (perms : PermDict)
  (groups : bool) :
  registered_with st cls perms ->
  In group (auth_group st) ->
  exists l,
    get_group_perms group (VInstance cls pk) groups st = Ok l
    /\ get_group_perms group (VInstance cls pk) (negb groups) st = Ok l
    /\ (exists keep, l = filter keep (keys perms))
    /\ (forall p, In p l <->
                  In p (keys perms) /\ group_edge st cls p pk group)
    /\ (forall p, In p l <->
                  group_has_perm group p (VInstance cls pk) st = Ok true).
Proof.
  intros Hreg Hstored.
  destruct (get_group_perms_value st group cls pk perms Hreg)
    as (keep & Hl & Hchar).
  eexists. split; [apply Hl |]. split; [apply Hl |].
  split; [eexists; reflexivity |]. split; [exact Hchar |].
  intros p. rewrite Hchar.
  now rewrite (group_has_perm_iff st group p cls pk perms Hreg).
Qed.

Lemma get_group_perms_lists_what_group_has_perm_accepts_witness :
  exists l,
    get_group_perms 10 O1 true granted_state = Ok l
    /\ get_group_perms 10 O1 (negb true) granted_state = Ok l
    /\ (exists keep, l = filter keep ["eat"; "order"; "pay"])
    /\ (forall p, In p l <->
                  In p ["eat"; "order"; "pay"]
                  /\ group_edge granted_state Restaurant p 100 10)
    /\ (forall p, In p l <->
                  group_has_perm 10 p O1 granted_state = Ok true).
Proof.
  apply (get_group_perms_lists_what_group_has_perm_accepts granted_state 10
           Restaurant 100
           [("eat", no_meta); ("order", no_meta); ("pay", no_meta)] true).
  - exact restaurant_registered.
  - simpl. auto.
Defined.

(** ** The listing [get_users_any] and the check [user_has_any_perms] *)

Lemma effective_perms_returns (st : State) (cls : Model) (perms : PermDict)
  (requested : list string) :
  registered_with st cls perms ->
  exists eff, effective_perms requested (VClass cls) st = Ok eff.
Proof.
  intros Hreg. unfold effective_perms.
  rewrite (get_model_perms_registered _ _ _ Hreg).
  destruct requested; eexists; reflexivity.
Qed.

Lemma get_users_any_instance (st : State) (cls : Model) (pk : Z)
  (perms : PermDict) (requested eff : list string) (groups : bool) :
  registered_with st cls perms ->
  effective_perms requested (VClass cls) st = Ok eff ->
  exists users,
    get_users_any (VInstance cls pk) requested groups st = Ok users
    /\ forall u,
         In u users <->
         In u (auth_user st)
         /\ (eff = []
             \/ exists p, In p eff /\ holds_perm st cls p u groups pk).
Proof.
  intros Hreg Heff.
  assert (Hprov : forall p, In p eff -> provisioned st cls p).
  { intros p Hp. pose proof (effective_perms_registered _ _ _ _ _ Hreg Heff p Hp).
    destruct Hreg as (_ & _ & H'). now apply H'. }
  unfold get_users_any. cbv zeta.
  cbn [class_of pk_of]. rewrite Heff.
  cbn [rbind as_model_class].
  match goal with |- context [fold_left ?f eff (Ok Q_empty)] =>
    destruct (any_perms_query (resolve_user st) groups (QInst pk)
                (fun p => [perm_set_ (lower p) (lower (cls_name cls))])
                (fun p => ["groups"; perm_set_ (lower p) (lower (cls_name cls))])
                (fun p r => has_row st cls (user_perm_ (lower p)) pk (fst r))
                (fun p r => match snd r with
                            | Some grp => has_row st cls (group_perm_ (lower p)) pk grp
                            | None => false
                            end)
                f eff) with (q0 := Q_empty) (c0 := @None (Z * option Z -> bool))
      as (q & c & Hq & Hc & Hnone & Hsat)
  end.
  { intros [acc | e] p; destruct groups; reflexivity. }
  { intros p Hp. destruct (Hprov p Hp) as (_ & _ & Hru & Hrg).
    unfold resolve_user. rewrite perm_set_not_pk, Hru. simpl String.eqb.
    rewrite Hrg. now split. }
  { reflexivity. }
  rewrite Hq. cbn [rbind]. unfold filter_users. rewrite Hc. cbn [rbind].
  eexists. split; [reflexivity |].
  intros u. rewrite filter_In, existsb_exists. apply and_iff_compat_l. split.
  - intros [g [Hg H]]. destruct c as [fc |].
    + right. change (satisfies (Some fc) (u, g) = true) in H.
      rewrite Hsat in H. simpl in H. apply existsb_exists in H.
      destruct H as [p [Hp H]]. exists p. split; [exact Hp |].
      apply orb_true_iff in H. destruct H as [H | H].
      * left. now apply has_row_In.
      * apply andb_true_iff in H. destruct H as [Hgr H]. right.
        split; [exact Hgr |]. destruct g as [grp |]; [| discriminate].
        exists grp. split; [| now apply has_row_In].
        destruct Hg as [Hg | Hg]; [discriminate |].
        apply in_map_iff in Hg. destruct Hg as [g' [E Hg]].
        injection E as ->. now apply groups_of_In.
    + left. now apply Hnone.
  - intros [-> | [p [Hp [H | [Hgr [grp [Hm H]]]]]]].
    + exists None. split; [now left |].
      assert (c = None) as -> by (apply Hnone; now split). reflexivity.
    + exists None. split; [now left |].
      destruct c as [fc |]; [| reflexivity].
      change (satisfies (Some fc) (u, None) = true).
      rewrite Hsat. simpl. apply existsb_exists. exists p. split; [exact Hp |].
      apply has_row_In in H. now rewrite H.
    + exists (Some grp). split; [right; apply in_map; now apply groups_of_In |].
      destruct c as [fc |]; [| reflexivity].
      change (satisfies (Some fc) (u, Some grp) = true).
      rewrite Hsat. simpl. apply existsb_exists. exists p. split; [exact Hp |].
      apply has_row_In in H. rewrite Hgr, H. simpl. apply orb_true_r.
Qed.

Lemma user_has_any_perms_agrees (st : State) (cls : Model) (pk : Z)
  (perms : PermDict) (requested : list string) (groups : bool) :
  registered_with st cls perms ->
  exists users,
    get_users_any (VInstance cls pk) requested groups st = Ok users
    /\ forall u, In u users <->
                 user_has_any_perms u (VInstance cls pk) requested groups st
                 = Ok true.
Proof.
  intros Hreg.
  destruct (effective_perms_returns st cls perms requested Hreg) as [eff Heff].
  destruct (get_users_any_instance st cls pk perms requested eff groups Hreg Heff)
    as (users & Hu & Hin).
  exists users. split; [exact Hu |]. intros u.
  destruct (user_has_any_perms_instance st u cls pk perms requested eff groups
              Hreg Heff) as (b & Hb & Hiff).
  rewrite Hb, Hin, <- Hiff. split; [now intros -> | congruence].
Qed.

Lemma linked_objs_some (st : State) (cls : Model) (f : string) (principal : Z) :
  negb (Nat.eqb (length (linked_objs st cls f principal)) 0) = true <->
  exists o, In (mkRow cls f o principal) (m2m_rows st).
Proof.
  split.
  - destruct (linked_objs st cls f principal) as [| o l] eqn:E;
      [discriminate |]. intros _. exists o. apply In_linked_objs.
    rewrite E. now left.
  - intros [o H]. apply In_linked_objs in H.
    destruct (linked_objs st cls f principal); [destruct H | reflexivity].
Qed.

(** The value of [user_has_any_perms] on a model class. *)
Lemma user_has_any_perms_class (st : State) (user : Z) (cls : Model)
  (perms : PermDict) (requested eff : list string) (groups : bool) :
  registered_with st cls perms ->
  effective_perms requested (VClass cls) st = Ok eff ->
  exists b,
    user_has_any_perms user (VClass cls) requested groups st = Ok b
    /\ (b = true <->
        In user (auth_user st)
        /\ (eff = []
            \/ exists p o, In p eff /\ holds_perm st cls p user groups o)).
Proof.
  intros Hreg Heff.
  assert (Hprov : forall p, In p eff -> provisioned st cls p).
  { intros p Hp. pose proof (effective_perms_registered _ _ _ _ _ Hreg Heff p Hp).
    destruct Hreg as (_ & _ & H'). now apply H'. }
  unfold user_has_any_perms. cbv zeta.
  cbn [is_model_instance]. rewrite Heff.
  cbn [rbind as_model_class].
  match goal with |- context [fold_left ?f eff (Ok Q_empty)] =>
    destruct (any_perms_query (resolve_user st) groups (QBool false)
                (fun p => [perm_set_ (lower p) (lower (cls_name cls)); "isnull"])
                (fun p => ["groups"; perm_set_ (lower p) (lower (cls_name cls));
                           "isnull"])
                (fun p r =>
                   negb (Nat.eqb (length (linked_objs st cls (user_perm_ (lower p))
                                            (fst r))) 0))
                (fun p r =>
                   match snd r with
                   | Some grp =>
                       negb (Nat.eqb (length (linked_objs st cls
                                                (group_perm_ (lower p)) grp)) 0)
                   | None => false
                   end)
                f eff) with (q0 := Q_empty) (c0 := @None (Z * option Z -> bool))
      as (q & c & Hq & Hc & Hnone & Hsat)
  end.
  { intros [acc | e] p; destruct groups; reflexivity. }
  { intros p Hp. destruct (Hprov p Hp) as (_ & _ & Hru & Hrg).
    unfold resolve_user. simpl String.eqb. rewrite Hru, Hrg. now split. }
  { reflexivity. }
  rewrite Hq. cbn [rbind]. unfold filter_users. cbn [compileQ]. rewrite Hc.
  unfold resolve_user at 1. simpl String.eqb. cbn [rbind].
  eexists. split; [reflexivity |].
  rewrite exists_filter, existsb_exists. split.
  - intros [u [Hu H]]. apply existsb_exists in H. destruct H as [g [Hg H]].
    rewrite holds_satisfies_and in H. apply andb_true_iff in H.
    destruct H as [H E]. simpl in E. apply Z.eqb_eq in E. subst u.
    split; [exact Hu |].
    destruct c as [fc |].
    + right. rewrite Hsat in H. simpl satisfies in H. simpl orb in H.
      apply existsb_exists in H.
      destruct H as [p [Hp H]]. exists p.
      apply orb_true_iff in H. destruct H as [H | H].
      * apply linked_objs_some in H. destruct H as [o H]. exists o.
        split; [exact Hp |]. left. exact H.
      * apply andb_true_iff in H. destruct H as [Hgr H].
        cbn [snd] in H. destruct g as [grp |]; [| discriminate].
        apply linked_objs_some in H. destruct H as [o H]. exists o.
        split; [exact Hp |]. right. split; [exact Hgr |].
        exists grp. split; [| exact H].
        destruct Hg as [Hg | Hg]; [discriminate |].
        apply in_map_iff in Hg. destruct Hg as [g' [E Hg]].
        injection E as ->. now apply groups_of_In.
    + left. now apply Hnone.
  - intros [Hu H]. exists user. split; [exact Hu |]. apply existsb_exists.
    destruct H as [-> | [p [o [Hp [H | [Hgr [grp [Hm H]]]]]]]].
    + exists None. split; [now left |].
      assert (c = None) as -> by (apply Hnone; now split).
      simpl. apply Z.eqb_refl.
    + exists None. split; [now left |].
      rewrite holds_satisfies_and. cbn [fst]. rewrite Z.eqb_refl, andb_true_r.
      destruct c as [fc |]; [| reflexivity].
      rewrite Hsat. simpl satisfies. simpl orb.
      apply existsb_exists. exists p. split; [exact Hp |].
      apply orb_true_iff. left. apply linked_objs_some. now exists o.
    + exists (Some grp). split; [right; apply in_map; now apply groups_of_In |].
      rewrite holds_satisfies_and. cbn [fst]. rewrite Z.eqb_refl, andb_true_r.
      destruct c as [fc |]; [| reflexivity].
      rewrite Hsat. simpl satisfies. simpl orb.
      apply existsb_exists. exists p. split; [exact Hp |].
      apply orb_true_iff. right. rewrite Hgr. cbn [andb snd].
      apply linked_objs_some. now exists o.
Qed.

(** X20. The listing of users and the any-permission check agree.  For an
    instance of a registered type, [get_users_any] returns, and it lists a
    user exactly when [user_has_any_perms] is true of that user for the same
    request -- so every stored user when no requested name is registered;
    [get_users] is that listing for the empty request.  Unlike the check,
    the listing does not take a model class: it asks for the permissions of
    the class of its argument and raises [RegistrationException], where the
    check returns, true exactly for a stored user who holds one of the
    effective permissions on some object or when no permission is
    effective. *)
Theorem get_users_any_lists_whom_the_check_accepts (st : State) (cls : Model)
  (pk : Z) (perms : PermDict) (requested eff : list string) (groups : bool) :
  registered_with st cls perms ->
  effective_perms requested (VClass cls) st = Ok eff ->
  (exists users,
      get_users_any (VInstance cls pk) requested groups st = Ok users
      /\ forall u, In u users <->
                   user_has_any_perms u (VInstance cls pk) requested groups st
                   = Ok true)
  /\ (exists users,
         get_users (VInstance cls pk) groups st = Ok users
         /\ forall u, In u users <->
                      user_has_any_perms u (VInstance cls pk) [] groups st
                      = Ok true)
  /\ get_users_any (VClass cls) requested groups st
     = Raise RegistrationException
  /\ forall user, exists b,
       user_has_any_perms user (VClass cls) requested groups st = Ok b
       /\ (b = true <->
           In user (auth_user st)
           /\ (eff = []
               \/ exists p o, In p eff /\ holds_perm st cls p user groups o)).
Proof.
  intros Hreg Heff. split; [| split; [| split]].
  - exact (user_has_any_perms_agrees st cls pk perms requested groups Hreg).
  - exact (user_has_any_perms_agrees st cls pk perms [] groups Hreg).
  - unfold get_users_any. cbv zeta. cbn [class_of].
    unfold effective_perms. cbn [get_model_perms rbind].
    destruct requested; reflexivity.
  - intros user.
    exact (user_has_any_perms_class st user cls perms requested eff groups
             Hreg Heff).
Qed.

Lemma get_users_any_lists_whom_the_check_accepts_witness :
  (exists users,
      get_users_any O1 ["pay"; "bogus"] true granted_state = Ok users
      /\ forall u, In u users <->
                   user_has_any_perms u O1 ["pay"; "bogus"] true granted_state
                   = Ok true)
  /\ get_users_any (VClass Restaurant) ["pay"; "bogus"] true granted_state
     = Raise RegistrationException.
Proof.
  pose proof (get_users_any_lists_whom_the_check_accepts granted_state
                Restaurant 100
                [("eat", no_meta); ("order", no_meta); ("pay", no_meta)]
                ["pay"; "bogus"] ["pay"] true) as H.
  destruct H as (H1 & _ & H3 & _).
  - exact restaurant_registered.
  - reflexivity.
  - split; assumption.
Defined.

(** ** The group checks and listings on several permissions *)

(** A conjunction of one key per permission. *)
Lemma all_query {R : Type}
  (resolve : list string -> qvalue -> result (R -> bool))
  (value : qvalue) (key : string -> list string) (P : string -> R -> bool)
  (f : result Q -> string -> result Q) (eff : list string) :
  (forall acc p,
      f acc p = (q <-- acc ;; Ok (Q_and q (Q_leaf (key p) value)))) ->
  (forall p, In p eff -> resolve (key p) value = Ok (P p)) ->
  forall q0 c0, compileQ resolve q0 = Ok c0 ->
  exists q c,
    fold_left f eff (Ok q0) = Ok q
    /\ compileQ resolve q = Ok c
    /\ forall r, holds c r = holds c0 r && forallb (fun p => P p r) eff.
Proof.
  intros Hf. induction eff as [| p eff IH]; intros Hres q0 c0 Hc0; simpl.
  - exists q0, c0. split; [reflexivity |]. split; [exact Hc0 |].
    intros r. now rewrite andb_true_r.
  - rewrite Hf. cbn [rbind].
    destruct (IH (fun p' Hp' => Hres p' (or_intror Hp'))
                 (Q_and q0 (Q_leaf (key p) value))
                 (q_combine andb c0 (Some (P p))))
      as (q & c & Hq & Hc & Hholds).
    { cbn [compileQ]. rewrite Hc0, (Hres p (or_introl eq_refl)). reflexivity. }
    exists q, c. split; [exact Hq |]. split; [exact Hc |].
    intros r. rewrite Hholds, holds_combine_and. now rewrite andb_assoc.
Qed.

(** What the keys of the group queries test, on an instance and on the
    class. *)
Lemma resolve_group_key (st : State) (cls : Model) (p : string)
  (level : option Z) :
  provisioned st cls p ->
  resolve_group st
    (match level with
     | Some _ => [perm_set_ (lower p) (lower (cls_name cls))]
     | None => [perm_set_ (lower p) (lower (cls_name cls)); "isnull"]
     end)
    (match level with Some pk => QInst pk | None => QBool false end)
  = Ok (match level with
        | Some pk => fun g => has_row st cls (group_perm_ (lower p)) pk g
        | None => fun g =>
            negb (Nat.eqb (length (linked_objs st cls (group_perm_ (lower p)) g)) 0)
        end).
Proof.
  intros (_ & _ & _ & Hrg). unfold resolve_group.
  destruct level; [rewrite perm_set_not_pk | simpl String.eqb];
    now rewrite Hrg.
Qed.

Lemma group_key_spec (st : State) (cls : Model) (p : string) (level : option Z)
  (g : Z) :
  match level with
  | Some pk => fun g => has_row st cls (group_perm_ (lower p)) pk g
  | None => fun g =>
      negb (Nat.eqb (length (linked_objs st cls (group_perm_ (lower p)) g)) 0)
  end g = true <->
  at_level level (fun o => group_edge st cls p o g).
Proof.
  destruct level as [pk |]; simpl.
  - apply has_row_In.
  - apply linked_objs_some.
Qed.

Lemma group_any_query (st : State) (cls : Model) (level : option Z)
  (f : result Q -> string -> result Q) (eff : list string) :
  (forall acc p,
      f acc p =
      (q <-- acc ;;
       Ok (Q_or q
             (Q_leaf
                (match level with
                 | Some _ => [perm_set_ (lower p) (lower (cls_name cls))]
                 | None => [perm_set_ (lower p) (lower (cls_name cls)); "isnull"]
                 end)
                (match level with Some pk => QInst pk | None => QBool false end))))) ->
  (forall p, In p eff -> provisioned st cls p) ->
  exists q c,
    fold_left f eff (Ok Q_empty) = Ok q
    /\ compileQ (resolve_group st) q = Ok c
    /\ (c = None <-> eff = [])
    /\ forall g, satisfies c g = true <->
                 at_level level (fun o => group_holds_any st cls eff g o).
Proof.
  intros Hf Hprov.
  destruct (any_perms_query (resolve_group st) false
              (match level with Some pk => QInst pk | None => QBool false end)
              (fun p => match level with
                        | Some _ => [perm_set_ (lower p) (lower (cls_name cls))]
                        | None => [perm_set_ (lower p) (lower (cls_name cls));
                                   "isnull"]
                        end)
              (fun p => match level with
                        | Some _ => [perm_set_ (lower p) (lower (cls_name cls))]
                        | None => [perm_set_ (lower p) (lower (cls_name cls));
                                   "isnull"]
                        end)
              (fun p =>
                 match level with
                 | Some pk => fun g => has_row st cls (group_perm_ (lower p)) pk g
                 | None => fun g =>
                     negb (Nat.eqb (length (linked_objs st cls
                                              (group_perm_ (lower p)) g)) 0)
                 end)
              (fun p =>
                 match level with
                 | Some pk => fun g => has_row st cls (group_perm_ (lower p)) pk g
                 | None => fun g =>
                     negb (Nat.eqb (length (linked_objs st cls
                                              (group_perm_ (lower p)) g)) 0)
                 end)
              f eff) with (q0 := Q_empty) (c0 := @None (Z -> bool))
    as (q & c & Hq & Hc & Hnone & Hsat).
  { intros acc p. now rewrite Hf. }
  { intros p Hp. split; apply resolve_group_key; now apply Hprov. }
  { reflexivity. }
  exists q, c. split; [exact Hq |]. split; [exact Hc |]. split.
  - rewrite Hnone. tauto.
  - intros g. rewrite Hsat. cbn [satisfies orb andb].
    rewrite existsb_exists. unfold group_holds_any. split.
    + intros [p [Hp H]]. rewrite orb_false_r in H.
      apply group_key_spec in H. destruct level as [pk |]; simpl in *.
      * now exists p.
      * destruct H as [o H]. exists o, p. now split.
    + intros H. destruct level as [pk |]; simpl in H.
      * destruct H as [p [Hp H]]. exists p. split; [exact Hp |].
        rewrite orb_false_r. now apply (group_key_spec st cls p (Some pk) g).
      * destruct H as [o [p [Hp H]]]. exists p. split; [exact Hp |].
        rewrite orb_false_r. apply (group_key_spec st cls p None g).
        now exists o.
Qed.

Lemma group_has_any_perms_value (st : State) (group : Z) (cls : Model)
  (perms : PermDict) (requested eff : list string) (level : option Z) :
  registered_with st cls perms ->
  effective_perms requested (VClass cls) st = Ok eff ->
  exists b,
    group_has_any_perms group (obj_at cls level) requested st = Ok b
    /\ (b = true <->
        In group (auth_group st)
        /\ (eff = []
            \/ at_level level (fun o => group_holds_any st cls eff group o))).
Proof.
  intros Hreg Heff.
  assert (Hprov : forall p, In p eff -> provisioned st cls p).
  { intros p Hp. pose proof (effective_perms_registered _ _ _ _ _ Hreg Heff p Hp).
    destruct Hreg as (_ & _ & H'). now apply H'. }
  unfold group_has_any_perms. cbv zeta.
  assert (Hm : (if is_model_instance (obj_at cls level)
                then class_of (obj_at cls level) else obj_at cls level)
               = VClass cls) by (destruct level; reflexivity).
  rewrite Hm, Heff. cbn [rbind as_model_class].
  match goal with |- context [fold_left ?f eff (Ok Q_empty)] =>
    destruct (group_any_query st cls level f eff)
      as (q & c & Hq & Hc & Hnone & Hsat)
  end.
  { intros [acc | e] p; destruct level; reflexivity. }
  { exact Hprov. }
  rewrite Hq. cbn [rbind]. unfold filter_groups. cbn [compileQ]. rewrite Hc.
  unfold resolve_group at 1. simpl String.eqb. cbn [rbind].
  eexists. split; [reflexivity |].
  rewrite exists_filter, existsb_exists. split.
  - intros [g [Hg H]]. rewrite holds_satisfies_and in H.
    apply andb_true_iff in H. destruct H as [H E]. apply Z.eqb_eq in E. subst g.
    split; [exact Hg |]. destruct c as [fc |].
    + right. now apply Hsat.
    + left. now apply Hnone.
  - intros [Hg H]. exists group. split; [exact Hg |].
    rewrite holds_satisfies_and, Z.eqb_refl, andb_true_r.
    destruct c as [fc |]; [| reflexivity].
    destruct H as [-> | H]; [| now apply Hsat].
    assert (E : Some fc = None) by now apply Hnone. discriminate.
Qed.

Lemma get_groups_any_value (st : State) (cls : Model)
  (perms : PermDict) (requested eff : list string) (level : option Z) :
  registered_with st cls perms ->
  effective_perms requested (VClass cls) st = Ok eff ->
  exists l,
    get_groups_any (obj_at cls level) requested st = Ok l
    /\ forall g,
         In g l <->
         In g (auth_group st)
         /\ (eff = []
             \/ at_level level (fun o => group_holds_any st cls eff g o)).
Proof.
  intros Hreg Heff.
  assert (Hprov : forall p, In p eff -> provisioned st cls p).
  { intros p Hp. pose proof (effective_perms_registered _ _ _ _ _ Hreg Heff p Hp).
    destruct Hreg as (_ & _ & H'). now apply H'. }
  unfold get_groups_any. cbv zeta.
  assert (Hm : (if is_model_instance (obj_at cls level)
                then class_of (obj_at cls level) else obj_at cls level)
               = VClass cls) by (destruct level; reflexivity).
  rewrite Hm, Heff. cbn [rbind as_model_class].
  match goal with |- context [fold_left ?f eff (Ok Q_empty)] =>
    destruct (group_any_query st cls level f eff)
      as (q & c & Hq & Hc & Hnone & Hsat)
  end.
  { intros [acc | e] p; destruct level; reflexivity. }
  { exact Hprov. }
  rewrite Hq. cbn [rbind]. unfold filter_groups. rewrite Hc. cbn [rbind].
  eexists. split; [reflexivity |].
  intros g. rewrite filter_In. apply and_iff_compat_l.
  destruct c as [fc |].
  - change (holds (Some fc) g) with (satisfies (Some fc) g). rewrite Hsat.
    split; [now right |]. intros [-> | H]; [| exact H].
    assert (E : Some fc = None) by now apply Hnone. discriminate.
  - split; [| reflexivity]. intros _. left. now apply Hnone.
Qed.

(** X21. The any-permission check on groups and the listing of groups.  For
    a registered type, with [obj] an instance or the model class and [eff]
    the requested names that are registered (all the registered names when
    none is requested): [group_has_any_perms] is true exactly when the group
    is stored and either holds the group edge of one permission of [eff] --
    on the instance, or on some object when [obj] is the class -- or [eff]
    is empty; and [get_groups_any] lists exactly the groups of which the
    check is true.  [get_groups] is that listing for the empty request. *)
Theorem get_groups_any_lists_whom_the_check_accepts (st : State) (cls : Model)
  (perms : PermDict) (requested eff : list string) (level : option Z) :
  registered_with st cls perms ->
  effective_perms requested (VClass cls) st = Ok eff ->
  let obj := obj_at cls level in
  (forall group, exists b,
      group_has_any_perms group obj requested st = Ok b
      /\ (b = true <->
          In group (auth_group st)
          /\ (eff = []
              \/ at_level level (fun o => group_holds_any st cls eff group o))))
  /\ (exists l,
         get_groups_any obj requested st = Ok l
         /\ forall g, In g l <->
                      group_has_any_perms g obj requested st = Ok true)
  /\ (exists l,
         get_groups obj st = Ok l
         /\ forall g, In g l <-> group_has_any_perms g obj [] st = Ok true).
Proof.
  intros Hreg Heff obj. subst obj.
  assert (Hagree : forall requested,
             exists l,
               get_groups_any (obj_at cls level) requested st = Ok l
               /\ forall g, In g l <->
                            group_has_any_perms g (obj_at cls level) requested st
                            = Ok true).
  { intros req.
    destruct (effective_perms_returns st cls perms req Hreg) as [eff' Heff'].
    destruct (get_groups_any_value st cls perms req eff' level Hreg Heff')
      as (l & Hl & Hin).
    exists l. split; [exact Hl |]. intros g.
    destruct (group_has_any_perms_value st g cls perms req eff' level Hreg Heff')
      as (b & Hb & Hiff).
    rewrite Hb, Hin, <- Hiff. split; [now intros -> | congruence]. }
  split; [| split].
  - intros group.
    exact (group_has_any_perms_value st group cls perms requested eff level
             Hreg Heff).
  - apply Hagree.
  - apply (Hagree []).
Qed.

Lemma get_groups_any_lists_whom_the_check_accepts_witness :
  exists l,
    get_groups_any (VClass Restaurant) ["pay"; "bogus"] granted_state = Ok l
    /\ forall g, In g l <->
                 group_has_any_perms g (VClass Restaurant) ["pay"; "bogus"]
                   granted_state = Ok true.
Proof.
  pose proof (get_groups_any_lists_whom_the_check_accepts granted_state
                Restaurant
                [("eat", no_meta); ("order", no_meta); ("pay", no_meta)]
                ["pay"; "bogus"] ["pay"] None) as H.
  destruct H as (_ & H & _).
  - exact restaurant_registered.
  - reflexivity.
  - exact H.
Defined.

Lemma group_perm_not_pk (p : string) : String.eqb (group_perm_ p) "pk" = false.
Proof. reflexivity. Qed.

(** The conjunction [group_has_all_perms] builds over the effective
    permissions. *)
Lemma group_all_query (st : State) (cls : Model) (group : Z)
  (f : Q -> string -> Q) (eff : list string) :
  (forall q p,
      f q p = Q_and q (Q_leaf [group_perm_ (lower p)] (QInst group))) ->
  (forall p, In p eff -> provisioned st cls p) ->
  forall q0 c0, compileQ (resolve_model st cls) q0 = Ok c0 ->
  exists c,
    compileQ (resolve_model st cls) (fold_left f eff q0) = Ok c
    /\ forall o, holds c o =
                 holds c0 o
                 && forallb (fun p => has_row st cls (group_perm_ (lower p)) o group)
                            eff.
Proof.
  intros Hf. induction eff as [| p eff IH]; intros Hprov q0 c0 Hc0; simpl.
  - exists c0. split; [exact Hc0 |]. intros o. now rewrite andb_true_r.
  - destruct (Hprov p (or_introl eq_refl)) as (_ & Hg & _).
    destruct (IH (fun p' Hp' => Hprov p' (or_intror Hp')) (f q0 p)
                 (q_combine andb c0
                    (Some (fun o => has_row st cls (group_perm_ (lower p)) o group))))
      as (c & Hc & Hholds).
    { rewrite Hf. cbn [compileQ]. rewrite Hc0. cbn [rbind].
      unfold resolve_model. now rewrite group_perm_not_pk, Hg. }
    exists c. split; [exact Hc |].
    intros o. rewrite Hholds, holds_combine_and. now rewrite andb_assoc.
Qed.

Lemma forallb_group_holds_all (st : State) (cls : Model) (eff : list string)
  (group o : Z) :
  forallb (fun p => has_row st cls (group_perm_ (lower p)) o group) eff = true
  <-> group_holds_all st cls eff group o.
Proof.
  rewrite forallb_forall. unfold group_holds_all, group_edge.
  split; intros H p Hp; apply has_row_In; auto.
Qed.

(** X22. [group_has_all_perms] on any request.  For a registered type, with
    [eff] the requested names that are registered (all the registered names
    when none is requested): on an instance the check is true exactly when
    the instance is stored and the group holds the group edge of every
    permission of [eff] on it; on the model class, exactly when there is a
    stored instance on which the group holds them all.  The group itself
    need not be stored, and when [eff] is empty a stored instance is
    enough. *)
Theorem group_has_all_perms_every (st : State) (group : Z) (cls : Model)
  (perms : PermDict) (requested eff : list string) (level : option Z) :
  registered_with st cls perms ->
  effective_perms requested (VClass cls) st = Ok eff ->
  exists b,
    group_has_all_perms group (obj_at cls level) requested st = Ok b
    /\ (b = true <->
        at_level level
          (fun o => In (cls, o) (tables st)
                    /\ group_holds_all st cls eff group o)).
Proof.
  intros Hreg Heff.
  assert (Hprov : forall p, In p eff -> provisioned st cls p).
  { intros p Hp. pose proof (effective_perms_registered _ _ _ _ _ Hreg Heff p Hp).
    destruct Hreg as (_ & _ & H'). now apply H'. }
  unfold group_has_all_perms. cbv zeta.
  assert (Hm : (if is_model_instance (obj_at cls level)
                then class_of (obj_at cls level) else obj_at cls level)
               = VClass cls) by (destruct level; reflexivity).
  rewrite Hm, Heff. cbn [rbind].
  set (q0 := match level with
             | Some pk => Q_and Q_empty (Q_leaf ["pk"] (QInst pk))
             | None => Q_empty
             end).
  assert (Hq0 : (if is_model_instance (obj_at cls level)
                 then pk <-- pk_of (obj_at cls level) ;;
                      Ok (Q_and Q_empty (Q_leaf ["pk"] (QInst pk)))
                 else Ok Q_empty) = Ok q0) by (destruct level; reflexivity).
  rewrite Hq0. cbn [rbind as_model_class].
  match goal with |- context [fold_left ?f eff q0] =>
    destruct (group_all_query st cls group f eff) with
      (q0 := q0)
      (c0 := match level with
             | Some pk => Some (fun o => Z.eqb o pk)
             | None => @None (Z -> bool)
             end)
      as (c & Hc & Hholds)
  end.
  { intros q p. reflexivity. }
  { exact Hprov. }
  { subst q0. destruct level; reflexivity. }
  unfold filter_objects. rewrite Hc. cbn [rbind].
  eexists. split; [reflexivity |].
  rewrite exists_filter, existsb_exists. split.
  - intros [o [Ho H]]. apply objects_In in Ho. rewrite Hholds in H.
    apply andb_true_iff in H. destruct H as [H0 H].
    apply forallb_group_holds_all in H.
    destruct level as [pk |]; simpl in *.
    + apply Z.eqb_eq in H0. subst o. now split.
    + exists o. now split.
  - intros H. destruct level as [pk |]; simpl in H.
    + destruct H as [Ho H]. exists pk. split; [now apply objects_In |].
      rewrite Hholds. simpl. rewrite Z.eqb_refl. simpl.
      now apply forallb_group_holds_all.
    + destruct H as [o [Ho H]]. exists o. split; [now apply objects_In |].
      rewrite Hholds. simpl. now apply forallb_group_holds_all.
Qed.

Lemma group_has_all_perms_every_witness :
  exists b,
    group_has_all_perms 10 (VClass Restaurant) ["pay"; "bogus"] granted_state
    = Ok b
    /\ (b = true <->
        exists o, In (Restaurant, o) (tables granted_state)
                  /\ group_holds_all granted_state Restaurant ["pay"] 10 o).
Proof.
  apply (group_has_all_perms_every granted_state 10 Restaurant
           [("eat", no_meta); ("order", no_meta); ("pay", no_meta)]
           ["pay"; "bogus"] ["pay"] None).
  - exact restaurant_registered.
  - reflexivity.
Defined.

(** ** [get_groups_all] *)

Lemma collect_keys {A B C : Type} (f : B -> result C) (key : A -> B)
  (g : A -> C) (l : list A) :
  (forall x, In x l -> f (key x) = Ok (g x)) ->
  collect f (map key l) = Ok (map g l).
Proof.
  induction l as [| x l IH]; simpl; intros H; [reflexivity |].
  rewrite (H x (or_introl eq_refl)), IH; [reflexivity |].
  intros y Hy. apply H. now right.
Qed.

Lemma common_object (ls : list (list Z)) :
  match ls with
  | first :: others => (0 <? length (fold_left inter_pks others first))%nat
  | [] => false
  end = true <->
  ls <> [] /\ exists o, Forall (In o) ls.
Proof.
  destruct ls as [| first others].
  - split; [discriminate | intros [H _]; now contradiction H].
  - rewrite nonempty_exists. split.
    + intros [o H]. apply In_fold_inter in H. destruct H as [H1 H2].
      split; [discriminate |]. exists o. now constructor.
    + intros [_ [o H]]. exists o. apply In_fold_inter.
      inversion H; subst. now split.
Qed.

(** X23. [get_groups_all] is right at both levels.  For a registered type,
    with [eff] the requested names that are registered (all the registered
    names when none is requested): on an instance it lists exactly the
    stored groups that hold the group edge of every permission of [eff] on
    the instance; on the model class, exactly the stored groups that hold
    them all on one common object -- the post-filter over the linked
    objects, which fails in [get_users_all], works here -- and nobody when
    [eff] is empty. *)
Theorem get_groups_all_common_object (st : State) (cls : Model)
  (perms : PermDict) (requested eff : list string) (level : option Z) :
  registered_with st cls perms ->
  effective_perms requested (VClass cls) st = Ok eff ->
  exists l,
    get_groups_all (obj_at cls level) requested st = Ok l
    /\ forall g,
         In g l <->
         In g (auth_group st)
         /\ at_level level (fun o => group_holds_all st cls eff g o)
         /\ (level = None -> eff <> []).
Proof.
  intros Hreg Heff.
  assert (Hprov : forall p, In p eff -> provisioned st cls p).
  { intros p Hp. pose proof (effective_perms_registered _ _ _ _ _ Hreg Heff p Hp).
    destruct Hreg as (_ & _ & H'). now apply H'. }
  unfold get_groups_all. cbv zeta.
  assert (Hm : (if is_model_instance (obj_at cls level)
                then class_of (obj_at cls level) else obj_at cls level)
               = VClass cls) by (destruct level; reflexivity).
  rewrite Hm, Heff. cbn [rbind as_model_class].
  match goal with |- context [fold_left ?f eff (Ok Q_empty)] =>
    destruct (all_query (resolve_group st)
                (match level with Some pk => QInst pk | None => QBool false end)
                (fun p => match level with
                          | Some _ => [perm_set_ (lower p) (lower (cls_name cls))]
                          | None => [perm_set_ (lower p) (lower (cls_name cls));
                                     "isnull"]
                          end)
                (fun p =>
                   match level with
                   | Some pk => fun g => has_row st cls (group_perm_ (lower p)) pk g
                   | None => fun g =>
                       negb (Nat.eqb (length (linked_objs st cls
                                                (group_perm_ (lower p)) g)) 0)
                   end)
                f eff) with (q0 := Q_empty) (c0 := @None (Z -> bool))
      as (q & c & Hq & Hc & Hholds)
  end.
  { intros [acc | e] p; destruct level; reflexivity. }
  { intros p Hp. apply resolve_group_key. now apply Hprov. }
  { reflexivity. }
  rewrite Hq. cbn [rbind]. unfold filter_groups. rewrite Hc. cbn [rbind].
  assert (Hpre : forall g,
             holds c g = true <->
             forall p, In p eff ->
                       at_level level (fun o => group_edge st cls p o g)).
  { intros g. rewrite Hholds. cbn [holds andb]. rewrite forallb_forall.
    split; intros H p Hp; apply (group_key_spec st cls p level g); auto. }
  destruct level as [pk |]; cbn [obj_at is_model_instance].
  - eexists. split; [reflexivity |].
    intros g. rewrite filter_In, Hpre. simpl. unfold group_holds_all.
    split; [intros [H1 H2]; split; [exact H1 | split; [exact H2 | discriminate]]
           | tauto].
  - set (linked := fun g p => linked_objs st cls (group_perm_ (lower p)) g).
    rewrite keep_if_filter with
      (g := fun g => match map (linked g) eff with
                     | first :: others =>
                         (0 <? length (fold_left inter_pks others first))%nat
                     | [] => false
                     end).
    + eexists. split; [reflexivity |].
      intros g. rewrite !filter_In, Hpre, common_object. simpl.
      unfold group_holds_all. split.
      * intros [[Hg _] [Hne [o Ho]]]. split; [exact Hg |]. split.
        -- exists o. intros p Hp. rewrite Forall_forall in Ho.
           apply (In_linked_objs st cls (group_perm_ (lower p)) g o).
           apply Ho. apply in_map_iff. now exists p.
        -- intros _ ->. now apply Hne.
      * intros [Hg [[o Ho] Hne]]. split; [split; [exact Hg |] | split].
        -- intros p Hp. exists o. now apply Ho.
        -- destruct eff; [now contradiction (Hne eq_refl) | discriminate].
        -- exists o. apply Forall_forall. intros l Hl.
           apply in_map_iff in Hl. destruct Hl as [p [<- Hp]].
           apply In_linked_objs. now apply Ho.
    + intros g.
      rewrite (collect_keys (fun k => related_pks st ToGroup k g)
                 (fun p => perm_set_ (lower p) (lower (cls_name cls)))
                 (linked g) eff).
      * cbn [rbind]. destruct (map (linked g) eff); reflexivity.
      * intros p Hp. destruct (Hprov p Hp) as (_ & _ & _ & Hrg).
        unfold related_pks. now rewrite Hrg.
Qed.

Lemma get_groups_all_common_object_witness :
  exists l,
    get_groups_all (VClass Restaurant) ["pay"] granted_state = Ok l
    /\ forall g,
         In g l <->
         In g (auth_group granted_state)
         /\ (exists o, group_holds_all granted_state Restaurant ["pay"] g o)
         /\ (@None Z = None -> ["pay"] <> []).
Proof.
  apply (get_groups_all_common_object granted_state Restaurant
           [("eat", no_meta); ("order", no_meta); ("pay", no_meta)]
           ["pay"] ["pay"] None).
  - exact restaurant_registered.
  - reflexivity.
Defined.

(** ** Reconciliation by [set_group_perms] *)

Lemma set_group_perms_loop (group : Z) (obj : pyval) (x : string)
  (requested : list string) (st : State) :
  set_group_perms group (x :: requested) obj st =
  ((registered_perms <- query (get_model_perms (class_of obj)) ;;
    for_each (desired registered_perms (x :: requested))
             (set_group_perms_step group obj)) ;;;
   ret (x :: requested)) st.
Proof. reflexivity. Qed.

Lemma revoke_all_group_loop (group : Z) (obj : pyval) (st : State) :
  revoke_all_group group obj st =
  (perms <- query (get_model_perms (class_of obj)) ;;
   for_each (map (fun p => (p, false)) (keys perms))
            (set_group_perms_step group obj)) st.
Proof.
  unfold revoke_all_group, bind, query. cbv zeta.
  destruct (get_model_perms (class_of obj) st) as [perms | e]; [| reflexivity].
  now rewrite for_each_map.
Qed.

Section ReconcileGroup.
Variables (group : Z) (cls : Model) (pk : Z).

Lemma group_row_inj (p q : string) :
  group_row cls pk group p = group_row cls pk group q -> lower p = lower q.
Proof.
  unfold group_row, group_perm_. intros H. injection H as H'.
  simpl in H'. now repeat injection H' as H'.
Qed.

Lemma set_group_perms_step_spec (st : State) (perm : string) (wanted : bool)
  (to : Target) (rn : string) :
  lookup_field st cls (group_perm_ (lower perm)) = Some (ManyToMany to rn) ->
  exists st',
    set_group_perms_step group (VInstance cls pk) (perm, wanted) st = (Ok tt, st')
    /\ same_registry st st'
    /\ (In (group_row cls pk group perm) (m2m_rows st') <-> wanted = true)
    /\ (forall r, r <> group_row cls pk group perm ->
          (In r (m2m_rows st') <-> In r (m2m_rows st))).
Proof.
  intros Hf. unfold set_group_perms_step, query, bind, getattr. rewrite Hf.
  unfold filter_pk_count, gets. rewrite count_pos_has_row, count_zero_has_row.
  fold (has_row st cls (group_perm_ (lower perm)) pk group).
  destruct (has_row st cls (group_perm_ (lower perm)) pk group) eqn:Hrow;
    destruct wanted; simpl.
  - exists st. split; [reflexivity |]. split; [apply same_registry_refl |].
    split.
    + split; [reflexivity |]. intros _. now apply has_row_In.
    + intros r _. reflexivity.
  - eexists. split; [reflexivity |]. split; [now split |]. simpl. split.
    + split; [| discriminate].
      intros H. apply In_filter_not_manager in H. simpl in H.
      destruct H as [_ H]. now contradiction H.
    + intros r Hr. rewrite In_filter_not_manager. simpl.
      unfold group_row in Hr. tauto.
  - unfold has_row in Hrow. rewrite Hrow.
    eexists. split; [reflexivity |]. split; [now split |]. simpl. split.
    + split; [reflexivity |]. intros _. apply in_or_app. right. now left.
    + intros r Hr. rewrite in_app_iff. simpl. split; [| tauto].
      intros [H | [H | []]]; [assumption |]. symmetry in H. contradiction.
  - exists st. split; [reflexivity |]. split; [apply same_registry_refl |].
    split.
    + split; [| discriminate].
      intros H. apply has_row_In in H. unfold group_row in H. congruence.
    + intros r _. reflexivity.
Qed.

Lemma set_group_perms_loop_spec (l : list (string * bool)) :
  forall st : State,
  NoDup (map (fun entry => lower (fst entry)) l) ->
  (forall entry, In entry l ->
     exists to rn,
       lookup_field st cls (group_perm_ (lower (fst entry)))
       = Some (ManyToMany to rn)) ->
  exists st',
    for_each l (set_group_perms_step group (VInstance cls pk)) st = (Ok tt, st')
    /\ same_registry st st'
    /\ (forall entry, In entry l ->
          (In (group_row cls pk group (fst entry)) (m2m_rows st')
           <-> snd entry = true))
    /\ (forall r, (forall entry, In entry l ->
                     r <> group_row cls pk group (fst entry)) ->
          (In r (m2m_rows st') <-> In r (m2m_rows st))).
Proof.
  induction l as [| [perm wanted] l IH]; intros st Hnd Hfields.
  - exists st. simpl. split; [reflexivity |].
    split; [apply same_registry_refl |]. split; [contradiction | reflexivity].
  - simpl in Hnd. inversion Hnd as [| ? ? Hnotin Hnd']; subst.
    destruct (Hfields (perm, wanted) (or_introl eq_refl)) as (to & rn & Hf).
    simpl in Hf.
    destruct (set_group_perms_step_spec st perm wanted to rn Hf)
      as (st1 & Hstep & Hsame1 & Hrow1 & Hframe1).
    assert (Hdiff : forall entry, In entry l ->
              group_row cls pk group (fst entry) <> group_row cls pk group perm).
    { intros entry Hin E. apply group_row_inj in E. apply Hnotin.
      rewrite <- E. apply in_map_iff. now exists entry. }
    destruct (IH st1 Hnd') as (st' & Hloop & Hsame & Hrows & Hframe).
    { intros entry Hin. unfold lookup_field.
      destruct Hsame1 as (_ & _ & ->). apply Hfields. now right. }
    exists st'. rewrite (for_each_cons_ok _ _ l _ _ Hstep).
    split; [exact Hloop |].
    split; [exact (same_registry_trans _ _ _ Hsame1 Hsame) |]. split.
    + intros entry [<- | Hin]; simpl.
      * rewrite <- Hrow1. apply Hframe.
        intros entry Hin E. now apply (Hdiff entry Hin).
      * now apply Hrows.
    + intros r Hr. rewrite Hframe.
      * apply Hframe1. apply (Hr (perm, wanted)). now left.
      * intros entry Hin. apply Hr. now right.
Qed.
End ReconcileGroup.

Lemma registered_group_fields (st : State) (cls : Model) (perms : PermDict)
  (wanted : string -> bool) :
  registered_with st cls perms ->
  forall entry, In entry (map (fun p => (p, wanted p)) (keys perms)) ->
  exists to rn,
    lookup_field st cls (group_perm_ (lower (fst entry))) = Some (ManyToMany to rn).
Proof.
  intros (_ & _ & Hprov) entry Hin. apply in_map_iff in Hin.
  destruct Hin as [p [<- Hp]]. simpl. destruct (Hprov p Hp) as (_ & Hg & _). eauto.
Qed.

(** X24. [set_group_perms] sets the group's permissions to exactly the
    requested ones.  On an instance of a registered type whose names are
    distinct once lower-cased, and for a request of registered names, it
    returns the request; afterwards the group holds the group edge of a
    registered permission on the object exactly when it was requested; no
    other row is touched -- no user's, no other group's, no other object's;
    the registry is as it was; and with the empty request it does what
    [revoke_all_group] does, which leaves the group without any registered
    permission on the object. *)
Theorem set_group_perms_sets_exactly (st : State) (group : Z) (cls : Model)
  (pk : Z) (perms : PermDict) (requested : list string) :
  registered_with st cls perms ->
  NoDup (map lower (keys perms)) ->
  (forall p, In p requested -> In p (keys perms)) ->
  exists st',
    set_group_perms group requested (VInstance cls pk) st = (Ok requested, st')
    /\ (forall p, In p (keys perms) ->
          (group_edge st' cls p pk group <-> In p requested))
    /\ (forall r, (forall p, In p (keys perms) -> r <> group_row cls pk group p) ->
          (In r (m2m_rows st') <-> In r (m2m_rows st)))
    /\ same_registry st st'
    /\ (requested = [] ->
        revoke_all_group group (VInstance cls pk) st = (Ok tt, st')).
Proof.
  intros Hreg Hndl Hsub.
  pose proof (NoDup_map_lower _ Hndl) as Hnd.
  destruct (set_group_perms_loop_spec group cls pk
              (map (fun p => (p, mem_string p requested)) (keys perms)) st)
    as (st' & Hloop & Hsame & Hrows & Hframe).
  { now rewrite map_map. }
  { now apply registered_group_fields with (perms := perms). }
  assert (Hall : requested = [] ->
                 revoke_all_group group (VInstance cls pk) st = (Ok tt, st')).
  { intros ->. rewrite revoke_all_group_loop. unfold bind, query.
    cbn [class_of]. rewrite (get_model_perms_registered _ _ _ Hreg).
    exact Hloop. }
  exists st'. split; [| split; [| split; [| split]]].
  - destruct requested as [| x requested].
    + unfold set_group_perms. unfold bind at 1. rewrite (Hall eq_refl).
      reflexivity.
    + rewrite set_group_perms_loop. unfold bind, query. cbv zeta.
      cbn [class_of]. rewrite (get_model_perms_registered _ _ _ Hreg).
      rewrite (desired_registered perms (x :: requested) Hnd Hsub).
      now rewrite Hloop.
  - intros p Hp. unfold group_edge.
    change (mkRow cls (group_perm_ (lower p)) pk group)
      with (group_row cls pk group (fst (p, mem_string p requested))).
    rewrite (Hrows (p, mem_string p requested)); cbn [fst snd].
    + apply mem_string_In.
    + apply in_map_iff. now exists p.
  - intros r Hr. apply Hframe. intros entry Hin. apply in_map_iff in Hin.
    destruct Hin as [p [<- Hp]]. now apply Hr.
  - exact Hsame.
  - exact Hall.
Qed.

Lemma set_group_perms_sets_exactly_witness :
  exists st',
    set_group_perms 10 ["eat"] O1 granted_state = (Ok ["eat"], st')
    /\ (forall p, In p ["eat"; "order"; "pay"] ->
          (group_edge st' Restaurant p 100 10 <-> In p ["eat"])).
Proof.
  destruct (set_group_perms_sets_exactly granted_state 10 Restaurant 100
              [("eat", no_meta); ("order", no_meta); ("pay", no_meta)]
              ["eat"]) as (st' & H1 & H2 & _).
  - exact restaurant_registered.
  - simpl. repeat constructor; simpl; intuition discriminate.
  - simpl. intuition.
  - exists st'. split; [exact H1 | exact H2].
Defined.

(** ** [get_class] after [register] *)

Lemma class_names_set_same (d : list (string * Model)) (k : string) (v : Model) :
  dict_get String.eqb (dict_set String.eqb d k v) k = Some v.
Proof.
  induction d as [| [k0 v0] d IH]; simpl.
  - now rewrite String.eqb_refl.
  - destruct (String.eqb k k0) eqn:E; simpl; rewrite E; [reflexivity | exact IH].
Qed.

Lemma class_names_set_other (d : list (string * Model)) (k k' : string)
  (v : Model) :
  k' <> k ->
  dict_get String.eqb (dict_set String.eqb d k v) k' = dict_get String.eqb d k'.
Proof.
  intros Hne. apply String.eqb_neq in Hne.
  induction d as [| [k0 v0] d IH]; simpl.
  - now rewrite Hne.
  - destruct (String.eqb k k0) eqn:E; simpl.
    + apply String.eqb_eq in E. subst k0. now rewrite Hne.
    + destruct (String.eqb k' k0); [reflexivity | exact IH].
Qed.

(** X25. [get_class] reads back what [register] wrote.  For a model that is
    not registered and names none of which is reserved: when [register]
    leaves the model registered, [get_class] of its class name returns the
    model -- whatever model the name stood for before -- and every other
    name answers as before; when it leaves the model unregistered (the
    registration was queued, or it raised), every name answers as before. *)
Theorem register_then_get_class (st : State) (perms : PermsValue)
  (model : Model) (app_label : string) :
  ~ In model (registered st) ->
  no_reserved_name perms ->
  let st' := snd (register (ParamsDict perms) model (Some app_label) st) in
  (In model (registered st') ->
   get_class (cls_name model) st' = Ok model
   /\ forall name, name <> cls_name model ->
                   get_class name st' = get_class name st)
  /\ (~ In model (registered st') ->
      forall name, get_class name st' = get_class name st).
Proof.
  intros Hn Hres st'. subst st'.
  rewrite (register_unfold perms model app_label st Hres). unfold try_except.
  pose proof (_register_outcome (repacked perms) model app_label st) as Hout.
  pose proof (_register_loop_fields (repacked perms) model
                (keys (repacked perms)) st) as Hloopf.
  destruct (_register_cases (repacked perms) model app_label st)
    as [[Hm _] | [_ [st1 [[Hloop E] | [e [Hloop E]]]]]].
  - apply mem_model_In in Hm. contradiction.
  - rewrite E in *. rewrite Hloop in Hloopf. cbn [fst snd] in *.
    destruct Hloopf as (E1 & _).
    assert (Hcn : class_names st1 = class_names st) by now rewrite E1.
    split.
    + intros _. unfold get_class. cbn [class_names set_class_names].
      rewrite Hcn. split.
      * now rewrite class_names_set_same.
      * intros name Hne. now rewrite class_names_set_other.
    + intros H. contradiction.
  - rewrite E in *. rewrite Hloop in Hloopf. cbn [fst snd] in *.
    destruct Hloopf as (E1 & _).
    assert (Hcn : class_names st1 = class_names st) by now rewrite E1.
    assert (Hsame : forall name,
               get_class name
                 (snd (if exn_eqb DatabaseError e
                       then modify
                              (fun st0 =>
                                 set_DELAYED
                                   (_DELAYED st0 ++ [(repacked perms, model, app_label)])
                                   st0) st1
                       else (Raise e, st1)))
               = get_class name st).
    { intros name. unfold get_class.
      destruct (exn_eqb DatabaseError e); cbn [snd modify class_names set_DELAYED];
        now rewrite Hcn. }
    assert (Hnot : ~ In model
                     (registered
                        (snd (if exn_eqb DatabaseError e
                              then modify
                                     (fun st0 =>
                                        set_DELAYED
                                          (_DELAYED st0
                                           ++ [(repacked perms, model, app_label)])
                                          st0) st1
                              else (Raise e, st1))))).
    { destruct (exn_eqb DatabaseError e);
        cbn [snd modify registered set_DELAYED]; exact Hout. }
    split.
    + intros H. contradiction.
    + intros _. exact Hsame.
Qed.

Lemma register_then_get_class_witness :
  get_class "Restaurant"
    (snd (register (ParamsDict (PermsSeq ["eat"; "order"; "pay"])) Restaurant
                   (Some "app") initial))
  = Ok Restaurant.
Proof.
  pose proof (register_then_get_class initial (PermsSeq ["eat"; "order"; "pay"])
                Restaurant "app") as H.
  destruct H as (H & _).
  - intros [].
  - reflexivity.
  - destruct H as (H & _).
    + simpl. now left.
    + exact H.
Defined.

(** ** The class-level listings *)

Lemma fold_keep (f : result (list string) -> string -> result (list string))
  (keep : string -> bool) (names : list string) :
  (forall acc p, In p names ->
                 f (Ok acc) p = Ok (if keep p then acc ++ [p] else acc)) ->
  forall acc, fold_left f names (Ok acc) = Ok (acc ++ filter keep names).
Proof.
  induction names as [| p names IH]; intros Hf acc; simpl.
  - now rewrite app_nil_r.
  - rewrite (Hf acc p (or_introl eq_refl)).
    rewrite (IH (fun acc' p' Hp' => Hf acc' p' (or_intror Hp'))).
    destruct (keep p); [now rewrite <- app_assoc | reflexivity].
Qed.

(** X26. The class-level listing of a user's permissions is the union of
    the instance-level listings.  For a registered type, [get_user_perms_any]
    on the model class returns, in the order of the registered names, the
    names the user holds -- directly or, with group inheritance, through a
    group -- on some stored object: exactly the names that [get_user_perms]
    lists for some instance. *)
Theorem get_user_perms_any_is_union (st : State) (user : Z) (cls : Model)
  (perms : PermDict) (groups : bool) :
  registered_with st cls perms ->
  exists l,
    get_user_perms_any user (VClass cls) groups st = Ok l
    /\ (exists keep, l = filter keep (keys perms))
    /\ (forall p, In p l <->
                  In p (keys perms)
                  /\ exists o, In (cls, o) (tables st)
                               /\ holds_perm st cls p user groups o)
    /\ (forall p, In p l <->
                  exists pk l',
                    get_user_perms user (VInstance cls pk) groups st = Ok l'
                    /\ In p l').
Proof.
  intros Hreg.
  set (objs := map snd (filter (fun row => Model_eqb (fst row) cls) (tables st))).
  set (keep := fun p => existsb (holds_perm_b st cls p user groups) objs).
  assert (Hl : get_user_perms_any user (VClass cls) groups st
               = Ok (filter keep (keys perms))).
  { unfold get_user_perms_any. cbv zeta.
    rewrite (get_model_perms_registered _ _ _ Hreg). cbn [rbind].
    match goal with |- fold_left ?f _ _ = _ =>
      rewrite (fold_keep f keep (keys perms))
    end; [reflexivity |].
    intros acc p Hp. destruct Hreg as (_ & _ & Hprov).
    destruct (Hprov p Hp) as (Hu & Hg & _).
    cbn [rbind as_model_class]. unfold filter_objects.
    assert (Hc : exists c,
               compileQ (resolve_model st cls)
                 (if groups
                  then Q_or (Q_leaf [user_perm_ (lower p)] (QInst user))
                            (Q_leaf [group_perm_ (lower p); "user"] (QInst user))
                  else Q_leaf [user_perm_ (lower p)] (QInst user))
               = Ok (Some c)
               /\ forall o, c o = holds_perm_b st cls p user groups o).
    { unfold holds_perm_b.
      destruct groups; cbn [compileQ]; unfold resolve_model;
        rewrite ?user_perm_not_pk, ?Hu, ?Hg; simpl String.eqb;
        cbn [rbind q_combine]; eexists; (split; [reflexivity |]);
        intros o; reflexivity. }
    destruct Hc as (c & -> & Hc). cbn [rbind].
    rewrite count_positive, exists_filter. fold objs.
    change (existsb (holds (Some c)) objs) with (existsb c objs).
    assert (E : existsb c objs = keep p).
    { unfold keep. apply eq_iff_eq_true. rewrite !existsb_exists.
      split; intros [o [Ho H]]; exists o; (split; [exact Ho |]);
        [now rewrite <- Hc | now rewrite Hc]. }
    rewrite E. destruct (keep p); reflexivity. }
  assert (Hchar : forall p,
             In p (filter keep (keys perms)) <->
             In p (keys perms)
             /\ exists o, In (cls, o) (tables st)
                          /\ holds_perm st cls p user groups o).
  { intros p. rewrite filter_In. unfold keep. rewrite existsb_exists.
    apply and_iff_compat_l.
    split; intros [o [Ho H]]; exists o;
      (split; [now apply objects_In | now apply holds_perm_b_spec]). }
  eexists. split; [exact Hl |]. split; [eexists; reflexivity |].
  split; [exact Hchar |].
  intros p. rewrite Hchar. split.
  - intros [Hp [o [Ho H]]].
    destruct (get_user_perms_value st user cls o perms groups Hreg)
      as (keep' & Hl' & Hchar').
    exists o. eexists. split; [exact Hl' |]. apply Hchar'. auto.
  - intros [pk [l' [Hl' Hin]]].
    destruct (get_user_perms_value st user cls pk perms groups Hreg)
      as (keep' & Hl'' & Hchar').
    rewrite Hl'' in Hl'. injection Hl' as <-.
    apply Hchar' in Hin. destruct Hin as (Hp & Ho & H).
    split; [exact Hp |]. now exists pk.
Qed.

Lemma get_user_perms_any_is_union_witness :
  exists l,
    get_user_perms_any 1 (VClass Restaurant) true granted_state = Ok l
    /\ (forall p, In p l <->
                  exists pk l',
                    get_user_perms 1 (VInstance Restaurant pk) true granted_state
                    = Ok l'
                    /\ In p l').
Proof.
  destruct (get_user_perms_any_is_union granted_state 1 Restaurant
              [("eat", no_meta); ("order", no_meta); ("pay", no_meta)] true)
    as (l & H1 & _ & _ & H2).
  - exact restaurant_registered.
  - exists l. split; [exact H1 | exact H2].
Defined.

(** X27. The class-level listing of a group's permissions is the union of
    the instance-level listings.  For a registered type,
    [get_group_perms_any] on the model class returns, in the order of the
    registered names, the names whose group edge the group holds on some
    object: exactly the names that [get_group_perms] lists for some
    instance.  Handed an instance instead of a class it raises
    [AttributeError]. *)
Theorem get_group_perms_any_is_union (st : State) (group : Z) (cls : Model)
  (perms : PermDict) :
  registered_with st cls perms ->
  (exists l,
      get_group_perms_any group (VClass cls) st = Ok l
      /\ (exists keep, l = filter keep (keys perms))
      /\ (forall p, In p l <->
                    In p (keys perms)
                    /\ exists o, group_edge st cls p o group)
      /\ (forall p, In p l <->
                    exists pk l',
                      get_group_perms group (VInstance cls pk) true st = Ok l'
                      /\ In p l'))
  /\ forall pk, get_group_perms_any group (VInstance cls pk) st
                = Raise AttributeError.
Proof.
  intros Hreg. split; [| reflexivity].
  set (keep := fun p =>
         negb (Nat.eqb (length (linked_objs st cls (group_perm_ (lower p)) group)) 0)).
  assert (Hl : get_group_perms_any group (VClass cls) st
               = Ok (filter keep (keys perms))).
  { unfold get_group_perms_any. cbv zeta. cbn [rbind].
    rewrite (get_model_perms_registered _ _ _ Hreg). cbn [rbind].
    match goal with |- fold_left ?f _ _ = _ =>
      rewrite (fold_keep f keep (keys perms))
    end; [reflexivity |].
    intros acc p Hp. destruct Hreg as (_ & _ & Hprov).
    destruct (Hprov p Hp) as (_ & _ & _ & Hrg).
    cbn [rbind]. unfold related_pks. rewrite Hrg. cbn [rbind]. unfold keep.
    destruct (linked_objs st cls (group_perm_ (lower p)) group); reflexivity. }
  assert (Hchar : forall p,
             In p (filter keep (keys perms)) <->
             In p (keys perms) /\ exists o, group_edge st cls p o group).
  { intros p. rewrite filter_In. unfold keep. now rewrite linked_objs_some. }
  eexists. split; [exact Hl |]. split; [eexists; reflexivity |].
  split; [exact Hchar |].
  intros p. rewrite Hchar. split.
  - intros [Hp [o H]].
    destruct (get_group_perms_value st group cls o perms Hreg)
      as (keep' & Hl' & Hchar').
    exists o. eexists. split; [apply Hl' |]. apply Hchar'. auto.
  - intros [pk [l' [Hl' Hin]]].
    destruct (get_group_perms_value st group cls pk perms Hreg)
      as (keep' & Hl'' & Hchar').
    rewrite Hl'' in Hl'. injection Hl' as <-.
    apply Hchar' in Hin. destruct Hin as (Hp & H).
    split; [exact Hp |]. now exists pk.
Qed.

Lemma get_group_perms_any_is_union_witness :
  (exists l,
      get_group_perms_any 10 (VClass Restaurant) granted_state = Ok l
      /\ (forall p, In p l <->
                    exists pk l',
                      get_group_perms 10 (VInstance Restaurant pk) true
                        granted_state = Ok l'
                      /\ In p l'))
  /\ get_group_perms_any 10 O1 granted_state = Raise AttributeError.
Proof.
  pose proof (get_group_perms_any_is_union granted_state 10 Restaurant
                [("eat", no_meta); ("order", no_meta); ("pay", no_meta)]) as H.
  destruct H as ((l & H1 & _ & _ & H2) & H3).
  - exact restaurant_registered.
  - split; [exists l; split; [exact H1 | exact H2] | exact (H3 100%Z)].
Defined.
